(** * Feed ingestion pipeline: a shallow embedding of
      [src/dataSources/rss-feed.js], the four [realestate-*.js] adapters
      and [src/dataFetchers.js].

  JavaScript strings are sequences of UTF-16 code units; regular
  expressions are kept as syntax and run by a small backtracking matcher;
  effects (clock, network, console, exceptions) are threaded through an
  explicit world. *)

From Stdlib Require Import ZArith NArith String Ascii List Lia.
From stdpp Require Import base option list gmap sorting.

Local Open Scope N_scope.

(** ** Strings *)

(** A JavaScript string: a list of UTF-16 code units. *)
Abbreviation str := (list N).

(** UTF-8 bytes to UTF-16 code units: [acc] holds the bits of the code
    point read so far and [need] counts its continuation bytes still to
    come. *)
Fixpoint utf8_decode (bs : list N) (acc : N) (need : nat) : str :=
  match bs with
  | [] => []
  | b :: bs' =>
      match need with
      | O =>
          if b <? 128 then b :: utf8_decode bs' 0 0
          else if b <? 224 then utf8_decode bs' (b - 192) 1
          else if b <? 240 then utf8_decode bs' (b - 224) 2
          else utf8_decode bs' (b - 240) 3
      | S O =>
          let cp := acc * 64 + (b - 128) in
          (if cp <? 65536 then [cp]
           else [55296 + (cp - 65536) / 1024; 56320 + (cp - 65536) mod 1024])
            ++ utf8_decode bs' 0 0
      | S n => utf8_decode bs' (acc * 64 + (b - 128)) n
      end
  end.

(** A literal of the source as a JavaScript string. *)
Definition u (s : string) : str :=
  utf8_decode (map N_of_ascii (list_ascii_of_string s)) 0 0.
Arguments u : simpl never.

Definition str_eqb (a b : str) : bool := bool_decide (a = b).

(** ToBoolean on a string: only the empty string is falsy. *)
Definition truthy (s : str) : bool :=
  match s with [] => false | _ :: _ => true end.

(** [a || b] on strings. *)
Definition or_else (a b : str) : str := if truthy a then a else b.

Fixpoint dropWhile {A} (p : A -> bool) (l : list A) : list A :=
  match l with
  | [] => []
  | x :: l' => if p x then dropWhile p l' else l
  end.

(** WhiteSpace and LineTerminator code units, as String.prototype.trim
    strips them. *)
Definition isWhiteSpace (c : N) : bool :=
  ((9 <=? c) && (c <=? 13)) || (c =? 32) || (c =? 160) || (c =? 5760)
  || ((8192 <=? c) && (c <=? 8202)) || (c =? 8232) || (c =? 8233)
  || (c =? 8239) || (c =? 8287) || (c =? 12288) || (c =? 65279).

Definition trim (s : str) : str :=
  rev (dropWhile isWhiteSpace (rev (dropWhile isWhiteSpace s))).

(** ** Regular expressions *)

(** Upper case of an ASCII code unit. *)
Definition asciiUpper (c : N) : N :=
  if (97 <=? c) && (c <=? 122) then c - 32 else c.

(** Does input code unit [c] match pattern character [p]?  Every pattern
    character of this program is ASCII.  Under the [i] flag (without [u])
    the engine compares canonical forms, and a code unit of 128 or more
    never canonicalises to an ASCII one, so only the two ASCII cases of a
    letter match it. *)
Definition chr_match (ci : bool) (p c : N) : bool :=
  if ci then (c <? 128) && (asciiUpper c =? asciiUpper p) else c =? p.

(** Character classes used by the source's expressions. *)
Inductive cclass :=
| AnyChar              (* [\s\S] *)
| NoneOf (l : str)     (* [^...] *)
| Digit.               (* \d *)

Definition in_class (ci : bool) (cl : cclass) (c : N) : bool :=
  match cl with
  | AnyChar => true
  | NoneOf l => negb (existsb (fun p => chr_match ci p c) l)
  | Digit => (48 <=? c) && (c <=? 57)
  end.

(** The fragment of regular-expression syntax the source uses. *)
Inductive regex :=
| Lit (s : str)            (* literal characters *)
| OneOf (l : str)          (* [...] : one character of the set *)
| Star (c : cclass)        (* c*   greedy *)
| StarLazy (c : cclass)    (* c*?  lazy *)
| Plus (c : cclass)        (* c+   greedy *)
| Group (r : regex)        (* ( r ) : the capture group *)
| Cat (r1 r2 : regex).

Infix "⋅" := Cat (at level 60, right associativity).

Section Matcher.
Context {R : Type}.
Variable ci : bool.

(** Match the literal [p] at the head of [s]. *)
Fixpoint lit_match (p s : str) : option str :=
  match p, s with
  | [], _ => Some s
  | _ :: _, [] => None
  | a :: p', c :: s' => if chr_match ci a c then lit_match p' s' else None
  end.

(** Greedy iteration of a class: take as many as possible, give back
    one at a time while the continuation fails. *)
Fixpoint star_greedy (cl : cclass) (k : str -> option R) (s : str)
  : option R :=
  match s with
  | c :: s' =>
      if in_class ci cl c then
        match star_greedy cl k s' with
        | Some r => Some r
        | None => k s
        end
      else k s
  | [] => k []
  end.

(** Lazy iteration: try the continuation first, take one more only when
    it fails. *)
Fixpoint star_lazy (cl : cclass) (k : str -> option R) (s : str)
  : option R :=
  match k s with
  | Some r => Some r
  | None =>
      match s with
      | c :: s' => if in_class ci cl c then star_lazy cl k s' else None
      | [] => None
      end
  end.

(** Backtracking matcher in continuation-passing style: [k] receives the
    remaining input and the text captured so far. *)
Fixpoint rmatch (r : regex) (s : str) (cap : option str)
  (k : str -> option str -> option R) : option R :=
  match r with
  | Lit p =>
      match lit_match p s with
      | Some rest => k rest cap
      | None => None
      end
  | OneOf l =>
      match s with
      | c :: s' => if existsb (fun p => chr_match ci p c) l then k s' cap
                   else None
      | [] => None
      end
  | Star cl => star_greedy cl (fun rest => k rest cap) s
  | StarLazy cl => star_lazy cl (fun rest => k rest cap) s
  | Plus cl =>
      match s with
      | c :: s' => if in_class ci cl c
                   then star_greedy cl (fun rest => k rest cap) s'
                   else None
      | [] => None
      end
  | Group r1 =>
      rmatch r1 s cap
        (fun rest _ => k rest (Some (take (length s - length rest) s)))
  | Cat r1 r2 =>
      rmatch r1 s cap (fun rest cap' => rmatch r2 rest cap' k)
  end.
End Matcher.

(** A match anchored at the head of [s]: the capture and the input left
    after the match. *)
Definition match_here (ci : bool) (r : regex) (s : str)
  : option (option str * str) :=
  rmatch ci r s None (fun rest cap => Some (cap, rest)).

(** [s.match(r)] for a non-global [r]: the leftmost match; only the
    capture group is kept ([undefined] capture reads as empty here, every
    expression of the source has its group on the matching path). *)
Fixpoint str_match (ci : bool) (r : regex) (s : str) : option str :=
  match match_here ci r s with
  | Some (cap, _) => Some (default [] cap)
  | None =>
      match s with
      | [] => None
      | _ :: s' => str_match ci r s'
      end
  end.

(** The successive results of [r.exec(s)] for a global [r] until it
    returns null: at each position not inside the previous match, try an
    anchored match; [skip] counts the code units of the previous match
    still to pass.  The captures are returned in order. *)
Fixpoint exec_all (ci : bool) (r : regex) (s : str) (skip : nat)
  : list str :=
  match s with
  | [] => []
  | _ :: s' =>
      match skip with
      | S n => exec_all ci r s' n
      | O =>
          match match_here ci r s with
          | Some (cap, rest) =>
              default [] cap
                :: exec_all ci r s' (length s - length rest - 1)%nat
          | None => exec_all ci r s' 0
          end
      end
  end.

(** [s.replace(r, f)] for a global [r]: every match, left to right, is
    replaced by [f] of its capture. *)
Fixpoint replace_all (ci : bool) (r : regex) (f : str -> str) (s : str)
  (skip : nat) : str :=
  match s with
  | [] => []
  | c :: s' =>
      match skip with
      | S n => replace_all ci r f s' n
      | O =>
          match match_here ci r s with
          | Some (cap, rest) =>
              f (default [] cap)
                ++ replace_all ci r f s' (length s - length rest - 1)%nat
          | None => c :: replace_all ci r f s' 0
          end
      end
  end.

(** ** Numbers as text *)

Local Open Scope Z_scope.

(** Digits of a non-negative integer in [base], most significant first;
    [fuel] bounds the number of digits. *)
Fixpoint digits (base : Z) (fuel : nat) (n : Z) (acc : list Z) : list Z :=
  match fuel with
  | O => acc
  | S f => if n <? base then n :: acc
           else digits base f (n / base) (n mod base :: acc)
  end.

(** A digit 0..35 as a code unit: [0-9a-z]. *)
Definition digit_char (d : Z) : N :=
  Z.to_N (if d <? 10 then 48 + d else 87 + d).

(** Number.prototype.toString(radix) on a non-negative integer. *)
Definition Z_toString (radix n : Z) : str :=
  map digit_char (digits radix (S (Z.to_nat (Z.log2 n))) n []).

(** Decimal text, zero-padded on the left to [width] digits. *)
Definition pad (width : nat) (n : Z) : str :=
  let s := Z_toString 10 n in
  replicate (width - length s)%nat 48%N ++ s.

(** Value of a run of decimal digits. *)
Definition decimal_value (s : str) : Z :=
  fold_left (fun acc c => 10 * acc + (Z.of_N c - 48)) s 0.

(** The IEEE-754 double nearest to a non-negative integer (ties to even),
    itself an integer; what ToNumber gives for a long run of digits. *)
Definition roundDouble (n : Z) : Z :=
  let bits := Z.log2 n + 1 in
  if bits <=? 53 then n
  else
    let e := bits - 53 in
    let q := Z.shiftr n e in
    let r := n - Z.shiftl q e in
    let half := Z.shiftl 1 (e - 1) in
    let q' := if (half <? r) || ((r =? half) && Z.odd q) then q + 1 else q in
    Z.shiftl q' e.

(** ToInt32: wrap into the signed 32-bit range. *)
Definition toInt32 (n : Z) : Z :=
  let m := n mod 2 ^ 32 in
  if m <? 2 ^ 31 then m else m - 2 ^ 32.

Fixpoint takeWhile {A} (p : A -> bool) (l : list A) : list A :=
  match l with
  | [] => []
  | x :: l' => if p x then x :: takeWhile p l' else []
  end.

(** [parseInt(s, 10)]: leading white space, an optional sign, then the
    longest run of decimal digits; [None] is NaN. *)
Definition parseInt10 (s : str) : option Z :=
  let s := dropWhile isWhiteSpace s in
  let '(neg, s) :=
    match s with
    | 45%N :: s' => (true, s')
    | 43%N :: s' => (false, s')
    | _ => (false, s)
    end in
  match takeWhile (in_class false Digit) s with
  | [] => None
  | ds => let v := roundDouble (decimal_value ds) in
          Some (if neg then - v else v)
  end.

(** ** Dates *)

(** Civil date (year, month, day) of a day number counted from
    1970-01-01, in the proleptic Gregorian calendar. *)
Definition civil_from_days (z : Z) : Z * Z * Z :=
  let z := z + 719468 in
  let era := z / 146097 in
  let doe := z - era * 146097 in
  let yoe := (doe - doe / 1460 + doe / 36524 - doe / 146096) / 365 in
  let doy := doe - (365 * yoe + yoe / 4 - yoe / 100) in
  let mp := (5 * doy + 2) / 153 in
  let d := doy - (153 * mp + 2) / 5 + 1 in
  let m := if mp <? 10 then mp + 3 else mp - 9 in
  let y := yoe + era * 400 in
  (if m <=? 2 then y + 1 else y, m, d).

(** Day number of a civil date. *)
Definition days_from_civil (y m d : Z) : Z :=
  let y := if m <=? 2 then y - 1 else y in
  let era := y / 400 in
  let yoe := y - era * 400 in
  let doy := (153 * (if 2 <? m then m - 3 else m + 9) + 2) / 5 + d - 1 in
  let doe := yoe * 365 + yoe / 4 - yoe / 100 + doy in
  era * 146097 + doe - 719468.

Definition msPerDay : Z := 86400000.

(** Date.prototype.toISOString on a valid time value (milliseconds since
    the epoch): [YYYY-MM-DDTHH:mm:ss.sssZ], with a signed six-digit year
    outside 0..9999. *)
Definition toISOString (t : Z) : str :=
  let '(y, m, d) := civil_from_days (t / msPerDay) in
  let ms := t mod msPerDay in
  let year := if (0 <=? y) && (y <=? 9999) then pad 4 y
              else (if y <? 0 then u "-" else u "+") ++ pad 6 (Z.abs y) in
  year ++ u "-" ++ pad 2 m ++ u "-" ++ pad 2 d ++ u "T"
    ++ pad 2 (ms / 3600000) ++ u ":" ++ pad 2 (ms / 60000 mod 60) ++ u ":"
    ++ pad 2 (ms / 1000 mod 60) ++ u "." ++ pad 3 (ms mod 1000) ++ u "Z".

(** ** Effects: exceptions, console, network, clock *)

Inductive exn :=
| RangeError (msg : str)
| TypeError (msg : str)
| SyntaxError (msg : str)
| NetworkError (msg : str).

Definition exn_message (e : exn) : str :=
  match e with
  | RangeError m | TypeError m | SyntaxError m | NetworkError m => m
  end.

Inductive result (A : Type) :=
| Ok (a : A)
| Throw (e : exn).
Arguments Ok {A} a.
Arguments Throw {A} e.

Inductive level := LevelLog | LevelWarn | LevelError.

(** One entry of the proprietary API's [data] array.  A field is [None]
    when the JSON has no such property (or has null there). *)
Record apiEntries := {
  e_id : option str;
  e_url : option str;
  e_title : option str;
  e_content : option str;
  e_publishedAt : option str;
  e_author : option str;
}.

Record apiFeeds := {
  f_title : option str;
  f_url : option str;
}.

Record apiEntry := {
  entries : option apiEntries;
  feeds : option apiFeeds;
}.

(** The body of the POST request to the API. *)
Record apiBody := {
  body_listId : str;
  body_view : Z;
  body_withContent : bool;
  body_publishedAfter : option str;
}.

Inductive request :=
| Get (url : str) (headers : list (str * str))
| Post (url : str) (headers : list (str * str)) (body : apiBody).

(** What a response offers to this program: [ok], [status],
    [statusText], [text()] and [json()].  [json()] is read against the
    API's wire format: [Ok None] is a body without a usable [data] object,
    [Ok (Some None)] one whose [data.data] is missing, and
    [Ok (Some (Some l))] one whose [data.data] is the array [l]. *)
Record response := {
  ok : bool;
  status : Z;
  statusText : str;
  text : result str;
  json : result (option (option (list apiEntry)));
}.

Inductive event :=
| Console (l : level) (args : list str)
| Fetch (r : request)
| Sleep (lo hi : Z).

(** The world as the program changes it: what it has printed, requested
    and waited for (oldest first), and how often it has read the clock. *)
Record World := {
  trace : list event;
  ticks : nat;
}.

(** The host: the engine's own functions, the outside world's answers and
    the functions of [helpers.js], which this development takes as given.
    [clock n] is the [n]-th reading of the clock, [network n r] the
    outcome of request [r] when [n] requests went before, and
    [getRandomUserAgent n] the agent drawn for that request. *)
Record Host := {
  Date_parse : str -> option Z;
  URL_hostname : str -> option str;
  clock : nat -> Z;
  network : nat -> request -> result response;
  getRandomUserAgent : nat -> str;
  isDateWithinLastDays : Z -> option str -> option Z -> bool;
  stripHtml : str -> str;
}.

(** Computations: a state monad over the world with exceptions. *)
Definition M (A : Type) : Type := World -> result A * World.

#[global] Instance M_ret : MRet M := fun A a w => (Ok a, w).
#[global] Instance M_bind : MBind M := fun A B f m w =>
  match m w with
  | (Ok a, w') => f a w'
  | (Throw e, w') => (Throw e, w')
  end.

Definition throw {A} (e : exn) : M A := fun w => (Throw e, w).

(** [try { m } catch (error) { h error }] *)
Definition try_catch {A} (m : M A) (h : exn -> M A) : M A := fun w =>
  match m w with
  | (Ok a, w') => (Ok a, w')
  | (Throw e, w') => h e w'
  end.

(** [await p] on a promise that is already settled. *)
Definition await {A} (p : result A) : M A := fun w => (p, w).

Definition emit (e : event) : M unit := fun w =>
  (Ok tt, {| trace := trace w ++ [e]; ticks := ticks w |}).

Definition console_log (args : list str) : M unit :=
  emit (Console LevelLog args).
Definition console_warn (args : list str) : M unit :=
  emit (Console LevelWarn args).
Definition console_error (args : list str) : M unit :=
  emit (Console LevelError args).

Definition sleep (lo hi : Z) : M unit := emit (Sleep lo hi).

Definition is_fetch (e : event) : bool :=
  match e with Fetch _ => true | _ => false end.

(** The requests issued so far. *)
Definition requests (w : World) : list event := filter is_fetch (trace w).

Section WithHost.
Variable H : Host.

(** [new Date()]: one reading of the clock. *)
Definition Date_now : M Z := fun w =>
  (Ok (clock H (ticks w)), {| trace := trace w; ticks := S (ticks w) |}).

(** [fetch(r)]: the request is recorded and the network answers. *)
Definition fetch (r : request) : M response := fun w =>
  let n := length (requests w) in
  (network H n r, {| trace := trace w ++ [Fetch r]; ticks := ticks w |}).

(** [getRandomUserAgent()], drawn for the request about to be made. *)
Definition randomUserAgent : M str := fun w =>
  (Ok (getRandomUserAgent H (length (requests w))), w).

(** [d.toISOString()], where [t] is the time value of [d]: a RangeError
    on an invalid date. *)
Definition Date_toISOString (t : option Z) : M str :=
  match t with
  | Some t => mret (toISOString t)
  | None => throw (RangeError (u "Invalid time value"))
  end.
End WithHost.

(** ** Sorting *)

(** [Array.prototype.sort(comparefn)].  The engine treats a NaN from the
    comparator ([None]) as +0 and sorts stably.  When the comparator is
    consistent, every conforming engine produces the one stable ordering,
    which is what this insertion sort computes; for an inconsistent
    comparator the standard leaves the order to the engine and this is one
    admissible outcome. *)
Section Sort.
Context {A : Type}.
Variable comparefn : A -> A -> option Z.

Definition sortCompare (x y : A) : Z := default 0 (comparefn x y).

Fixpoint sort_insert (x : A) (l : list A) : list A :=
  match l with
  | [] => [x]
  | y :: l' => if sortCompare x y <=? 0 then x :: y :: l'
               else y :: sort_insert x l'
  end.

Definition Array_sort (l : list A) : list A := foldr sort_insert [] l.
End Sort.

(** [a - b] on two time values, NaN when either is. *)
Definition time_sub (a b : option Z) : option Z :=
  match a, b with
  | Some x, Some y => Some (x - y)
  | _, _ => None
  end.

(** ** The unified record *)

Record details := {
  d_content_html : str;
  d_feed_url : option str;
}.

(** A field typed [option str] is undefined when the adapter's raw item
    had no such property. *)
Record unified := {
  u_id : option str;
  u_type : str;
  u_url : option str;
  u_title : option str;
  u_description : str;
  u_published_date : option str;
  u_authors : str;
  u_source : str;
  u_details : details;
}.

(** The environment: the worker's configuration bindings, text by name.
    Every name this program reads is a configuration key; none is a member
    of Object.prototype. *)
Abbreviation Env := (gmap str str).

(** [env[k] || d], for a key [k] that is no member of Object.prototype:
    on such a key the property read finds the binding or nothing.  (For
    a name like [toString] JavaScript would find the inherited function
    instead; statements about arbitrary keys exclude those names.) *)
Definition env_or (env : Env) (k : str) (d : str) : str :=
  match env !! k with
  | Some v => or_else v d
  | None => d
  end.

(** ** [rss-feed.js]: the feed parser *)

Module RssFeed.

(** An article as [parseRSSFeed] builds it; [source] and [id] are added
    later by the adapter and are undefined until then. *)
Record item := {
  title : str;
  link : str;
  description : str;
  pubDate : str;
  author : str;
  source : option str;
  id : option str;
}.

(** The class of the two quote characters, double and single; written
    [Q] where the source's expressions are quoted below. *)
Definition quotes : str := [34%N; 39%N].

(** [/<item>([\s\S]*?)<\/item>/gi] *)
Definition rssItemRegex : regex :=
  Lit (u "<item>") ⋅ Group (StarLazy AnyChar) ⋅ Lit (u "</item>").

(** [/<entry>([\s\S]*?)<\/entry>/gi] *)
Definition atomEntryRegex : regex :=
  Lit (u "<entry>") ⋅ Group (StarLazy AnyChar) ⋅ Lit (u "</entry>").

(** [<${tagName}[^>]*><!\[CDATA\[([\s\S]*?)\]\]><\/${tagName}>], flag [i].
    The source splices the name into the expression as it is.  The
    fourteen names this program passes are made of letters and a colon,
    which stand for themselves in an expression, and so the name is a
    literal here; a name holding a character that is special in an
    expression is outside this definition, and statements about
    arbitrary names are restricted to plain ones. *)
Definition cdataRegex (tagName : str) : regex :=
  Lit (u "<" ++ tagName) ⋅ Star (NoneOf (u ">")) ⋅ Lit (u "><![CDATA[")
    ⋅ Group (StarLazy AnyChar) ⋅ Lit (u "]]></" ++ tagName ++ u ">").

(** [<${tagName}[^>]*>([\s\S]*?)<\/${tagName}>], flag [i]; the name is a
    literal, as in [cdataRegex]. *)
Definition tagRegex (tagName : str) : regex :=
  Lit (u "<" ++ tagName) ⋅ Star (NoneOf (u ">")) ⋅ Lit (u ">")
    ⋅ Group (StarLazy AnyChar) ⋅ Lit (u "</" ++ tagName ++ u ">").

Definition extractTag (xml tagName : str) : str :=
  match str_match true (cdataRegex tagName) xml with
  | Some m1 => trim m1
  | None =>
      match str_match true (tagRegex tagName) xml with
      | Some m1 => trim m1
      | None => []
      end
  end.

(** [/<link[^>]*rel=Q alternate Q [^>]*href=Q ([^Q]+) Q/i], without the
    blanks. *)
Definition altLinkRegex : regex :=
  Lit (u "<link") ⋅ Star (NoneOf (u ">")) ⋅ Lit (u "rel=") ⋅ OneOf quotes
    ⋅ Lit (u "alternate") ⋅ OneOf quotes ⋅ Star (NoneOf (u ">"))
    ⋅ Lit (u "href=") ⋅ OneOf quotes ⋅ Group (Plus (NoneOf quotes))
    ⋅ OneOf quotes.

(** [/<link[^>]*href=Q ([^Q]+) Q/i], without the blanks. *)
Definition hrefLinkRegex : regex :=
  Lit (u "<link") ⋅ Star (NoneOf (u ">")) ⋅ Lit (u "href=") ⋅ OneOf quotes
    ⋅ Group (Plus (NoneOf quotes)) ⋅ OneOf quotes.

Definition extractAtomLink (xml : str) : str :=
  match str_match true altLinkRegex xml with
  | Some m1 => m1
  | None =>
      match str_match true hrefLinkRegex xml with
      | Some m1 => m1
      | None => []
      end
  end.

(** [String.fromCharCode(num)] on the captured digits: ToNumber, then
    ToUint16. *)
Definition fromCharCode (num : str) : str :=
  [Z.to_N (roundDouble (decimal_value num) mod 65536)].

Definition replace_lit (pat rep : string) (s : str) : str :=
  replace_all false (Lit (u pat)) (fun _ => u rep) s 0.

Definition decodeHTMLEntities (text : str) : str :=
  if negb (truthy text) then []
  else
    let t := replace_lit "&amp;" "&" text in
    let t := replace_lit "&lt;" "<" t in
    let t := replace_lit "&gt;" ">" t in
    let t := replace_all false (Lit (u "&quot;")) (fun _ => [34%N]) t 0 in
    let t := replace_lit "&#39;" "'" t in
    let t := replace_lit "&nbsp;" " " t in
    replace_all false (Lit (u "&#") ⋅ Group (Plus Digit) ⋅ Lit (u ";"))
      fromCharCode t 0.

Section WithHost.
Variable H : Host.

(** [x ? new Date(x).toISOString() : new Date().toISOString()] *)
Definition isoDateOrNow (x : str) : M str :=
  if truthy x then Date_toISOString (Date_parse H x)
  else now ← Date_now H; Date_toISOString (Some now).

(** The body of the first loop: the article of one [<item>] block, or
    nothing when the block is passed over. *)
Definition rssItem (itemXml : str) : M (option item) :=
  let title := extractTag itemXml (u "title") in
  let link := or_else (extractTag itemXml (u "link"))
                      (extractTag itemXml (u "guid")) in
  let description :=
    or_else (extractTag itemXml (u "description"))
      (or_else (extractTag itemXml (u "content:encoded")) []) in
  let pubDate := or_else (extractTag itemXml (u "pubDate"))
                         (extractTag itemXml (u "dc:date")) in
  let author :=
    or_else (extractTag itemXml (u "author"))
      (or_else (extractTag itemXml (u "dc:creator")) []) in
  if truthy title && truthy link then
    date ← isoDateOrNow pubDate;
    mret (Some {| title := decodeHTMLEntities title;
                  link := link;
                  description := description;
                  pubDate := date;
                  author := decodeHTMLEntities author;
                  source := None;
                  id := None |})
  else mret None.

(** The body of the second loop, for one [<entry>] block. *)
Definition atomEntry (entryXml : str) : M (option item) :=
  let title := extractTag entryXml (u "title") in
  let link := extractAtomLink entryXml in
  let summary :=
    or_else (extractTag entryXml (u "summary"))
      (or_else (extractTag entryXml (u "content")) []) in
  let published := or_else (extractTag entryXml (u "published"))
                           (extractTag entryXml (u "updated")) in
  let author := extractTag entryXml (u "name") in
  if truthy title && truthy link then
    date ← isoDateOrNow published;
    mret (Some {| title := decodeHTMLEntities title;
                  link := link;
                  description := summary;
                  pubDate := date;
                  author := decodeHTMLEntities (or_else author []);
                  source := None;
                  id := None |})
  else mret None.

(** One [while] loop over the blocks a global expression finds: the
    articles pushed, in order; an exception ends the loop. *)
Fixpoint pushItems (body : str -> M (option item)) (blocks : list str)
  : M (list item) :=
  match blocks with
  | [] => mret []
  | b :: rest =>
      o ← body b;
      items ← pushItems body rest;
      mret (match o with Some it => it :: items | None => items end)
  end.

Definition parseRSSFeed (xmlText : str) : M (list item) :=
  items ← pushItems rssItem (exec_all true rssItemRegex xmlText 0);
  if (length items =? 0)%nat then
    pushItems atomEntry (exec_all true atomEntryRegex xmlText 0)
  else mret items.
End WithHost.

(** *** The RSS adapter *)

(** What the adapter's [fetch] resolves to; [raw_items] is [None] for an
    object without an [items] property. *)
Record raw := {
  raw_title : option str;
  raw_items : option (list item);
}.

(** The parameters of [createRSSDataSource]. *)
Record config := {
  sourceType : str;
  sourceName : str;
  envKeyUrl : str;
  emoji : str;
}.

(** [s.split(',')] *)
Fixpoint split_comma (s : str) : list str :=
  match s with
  | [] => [[]]
  | c :: s' =>
      if (c =? 44)%N then [] :: split_comma s'
      else match split_comma s' with
           | [] => [[c]]
           | w :: ws => (c :: w) :: ws
           end
  end.

Definition generateItemId (url : str) : str :=
  let hash :=
    fold_left (fun hash char =>
                 toInt32 (toInt32 (hash * 32) - hash + Z.of_N char)) url 0 in
  Z_toString 36 (Z.abs hash).

(** The comparator of the adapter's sort:
    [new Date(b.pubDate) - new Date(a.pubDate)]. *)
Definition byPubDateDesc (H : Host) (a b : item) : option Z :=
  time_sub (Date_parse H (pubDate b)) (Date_parse H (pubDate a)).

Section WithHost.
Variable H : Host.
Variable c : config.

(** [items.filter(item => isDateWithinLastDays(item.pubDate, filterDays))] *)
Fixpoint filterRecent (filterDays : option Z) (items : list item)
  : M (list item) :=
  match items with
  | [] => mret []
  | it :: rest =>
      now ← Date_now H;
      kept ← filterRecent filterDays rest;
      mret (if isDateWithinLastDays H now (Some (pubDate it)) filterDays
            then it :: kept else kept)
  end.

(** The [try] block of the loop over the feed URLs.  [None] is the
    [continue] taken on a response that is not ok; otherwise the articles
    pushed onto [allItems]. *)
Definition fetchFeed (filterDays : option Z) (rssUrl : str)
  : M (option (list item)) :=
  console_log [u "Fetching RSS: " ++ rssUrl];;
  agent ← randomUserAgent H;
  response ← fetch H (Get rssUrl
    [(u "User-Agent", agent);
     (u "Accept", u "application/rss+xml, application/xml, text/xml, */*")]);
  if negb (ok response) then
    console_error [u "Failed to fetch RSS " ++ rssUrl ++ u ": "
                     ++ (if status response <? 0 then u "-" else [])
                     ++ Z_toString 10 (Z.abs (status response))];;
    mret None
  else
    xmlText ← await (text response);
    items ← parseRSSFeed H xmlText;
    feedTitle ←
      (if truthy (extractTag xmlText (u "title"))
       then mret (extractTag xmlText (u "title"))
       else match URL_hostname H rssUrl with
            | Some h => mret h
            | None => throw (TypeError (u "Invalid URL"))
            end);
    filteredItems ← filterRecent filterDays items;
    let filteredItems :=
      map (fun it => {| title := title it;
                        link := link it;
                        description := description it;
                        pubDate := pubDate it;
                        author := author it;
                        source := Some (decodeHTMLEntities feedTitle);
                        id := Some (generateItemId (link it)) |})
          filteredItems in
    console_log [u "Fetched "
                   ++ Z_toString 10 (Z.of_nat (length filteredItems))
                   ++ u " items from " ++ feedTitle];;
    mret (Some filteredItems).

(** The loop over [urlList]: the articles collected, in order. *)
Fixpoint fetchFeeds (filterDays : option Z) (urlList : list str)
  : M (list item) :=
  match urlList with
  | [] => mret []
  | rssUrl :: rest =>
      pushed ← try_catch (fetchFeed filterDays rssUrl)
                 (fun error =>
                    console_error [u "Error fetching RSS " ++ rssUrl ++ u ":";
                                   exn_message error];;
                    mret (Some []));
      more ← match pushed with
             | None => fetchFeeds filterDays rest
             | Some _ => sleep 500 1500;; fetchFeeds filterDays rest
             end;
      mret (default [] pushed ++ more)
  end.

(** [createRSSDataSource(...).fetch(env)] *)
Definition fetch (env : Env) : M raw :=
  let rssUrls := env_or env (envKeyUrl c) [] in
  if negb (truthy rssUrls) then
    console_warn [envKeyUrl c ++ u " is not set. Skipping "
                    ++ sourceName c ++ u " fetch."];;
    mret {| raw_title := None; raw_items := Some [] |}
  else
    let urlList := filter truthy (map trim (split_comma rssUrls)) in
    let filterDays := parseInt10 (env_or env (u "RSS_FILTER_DAYS") (u "2")) in
    allItems ← fetchFeeds filterDays urlList;
    mret {| raw_title := Some (sourceName c);
            raw_items := Some (Array_sort (byPubDateDesc H) allItems) |}.

(** [createRSSDataSource(...).transform(rawData, dataSourceType)];
    a null or undefined [rawData] is [None]. *)
Definition transform (rawData : option raw) (dataSourceType : str)
  : list unified :=
  match rawData with
  | None => []
  | Some rawData =>
      match raw_items rawData with
      | None => []
      | Some items =>
          map (fun it =>
                 {| u_id := id it;
                    u_type := dataSourceType;
                    u_url := Some (link it);
                    u_title := Some (title it);
                    u_description :=
                      take 500 (stripHtml H (or_else (description it) []));
                    u_published_date := Some (pubDate it);
                    u_authors := or_else (author it) (u "未知");
                    u_source := or_else (default [] (source it)) (sourceName c);
                    u_details :=
                      {| d_content_html := or_else (description it) [];
                         d_feed_url := None |} |})
              items
      end
  end.
End WithHost.

Definition RealEstateNewsSource : config :=
  {| sourceType := u "news"; sourceName := u "楼市资讯";
     envKeyUrl := u "RSS_REALESTATE_NEWS"; emoji := u "🏠" |}.

Definition FinanceNewsSource : config :=
  {| sourceType := u "finance"; sourceName := u "财经资讯";
     envKeyUrl := u "RSS_FINANCE_NEWS"; emoji := u "📊" |}.

Definition PolicyNewsSource : config :=
  {| sourceType := u "policy"; sourceName := u "政策动态";
     envKeyUrl := u "RSS_POLICY_NEWS"; emoji := u "📜" |}.

Definition GeneralNewsSource : config :=
  {| sourceType := u "general"; sourceName := u "综合资讯";
     envKeyUrl := u "RSS_GENERAL_NEWS"; emoji := u "📰" |}.

End RssFeed.

(** ** [realestate-news.js], [realestate-policy.js],
       [realestate-market.js], [realestate-city.js]: the API adapters *)

Module Folo.

(** What sets one of the four adapters apart from the others. *)
Record config := {
  type : str;
  listIdKey : str;
  fetchPagesKey : str;
  defaultPages : str;
  feedTitle : str;
  feedDescription : str;
  skipWarning : str;
  fetchingName : str;
  failingName : str;
  (* only [realestate-news.js]: two more headers, a log line when the data
     runs out, and [feed_url] on every item *)
  newsExtras : bool;
}.

(** A raw item as [fetch] builds it from an API entry. *)
Record item := {
  id : option str;
  url : option str;
  title : option str;
  content_html : option str;
  date_published : option str;
  authors : option (list (option str));
  source : option str;
  feed_url : option str;
}.

(** The JSON feed [fetch] resolves to; [items] is [None] for an object
    without that property. *)
Record raw := {
  version : str;
  raw_title : str;
  description : str;
  language : str;
  items : option (list item);
}.

Definition feed (c : config) (l : list item) : raw :=
  {| version := u "https://jsonfeed.org/version/1.1";
     raw_title := feedTitle c;
     description := feedDescription c;
     language := u "zh-cn";
     items := Some l |}.

(** ToBoolean on a value that is a string or undefined. *)
Definition truthy_opt (o : option str) : bool := truthy (default [] o).

Definition headers (c : config) (agent : str) (foloCookie : option str)
  : list (str * str) :=
  [(u "User-Agent", agent);
   (u "Content-Type", u "application/json");
   (u "accept", u "application/json")]
  ++ (if newsExtras c then [(u "accept-language", u "zh-CN,zh;q=0.9")] else [])
  ++ [(u "origin", u "https://app.follow.is");
      (u "x-app-name", u "Folo Web")]
  ++ (if newsExtras c then [(u "x-app-version", u "0.4.9")] else [])
  ++ (if truthy_opt foloCookie then [(u "Cookie", default [] foloCookie)]
      else []).

Definition undefinedProperty : exn :=
  TypeError (u "Cannot read properties of undefined").

(** [entry.entries.publishedAt] *)
Definition publishedAt (entry : apiEntry) : result (option str) :=
  match entries entry with
  | Some e => Ok (e_publishedAt e)
  | None => Throw undefinedProperty
  end.

(** The object built for one entry inside [filteredItems.map]. *)
Definition toItem (c : config) (entry : apiEntry) : result item :=
  match entries entry, feeds entry with
  | Some e, Some f =>
      Ok {| id := e_id e;
            url := e_url e;
            title := e_title e;
            content_html := e_content e;
            date_published := e_publishedAt e;
            authors := Some [if truthy_opt (e_author e) then e_author e
                             else f_title f];
            source := f_title f;
            feed_url := if newsExtras c then f_url f else None |}
  | _, _ => Throw undefinedProperty
  end.

Fixpoint mapItems (c : config) (l : list apiEntry) : result (list item) :=
  match l with
  | [] => Ok []
  | entry :: rest =>
      match toItem c entry with
      | Throw e => Throw e
      | Ok it =>
          match mapItems c rest with
          | Throw e => Throw e
          | Ok its => Ok (it :: its)
          end
      end
  end.

(** How one turn of the page loop ends: [break], or on to the next page
    with the new [publishedAfter]; either way with the items it pushed. *)
Inductive step :=
| Break (pushed : list item)
| Next (pushed : list item) (publishedAfter : option str).

Section WithHost.
Variable H : Host.
Variable c : config.

(** [data.data.filter(entry =>
      isDateWithinLastDays(entry.entries.publishedAt, filterDays))] *)
Fixpoint filterRecent (filterDays : option Z) (l : list apiEntry)
  : M (list apiEntry) :=
  match l with
  | [] => mret []
  | entry :: rest =>
      date ← await (publishedAt entry);
      now ← Date_now H;
      kept ← filterRecent filterDays rest;
      mret (if isDateWithinLastDays H now date filterDays
            then entry :: kept else kept)
  end.

Definition pageNumber (i : Z) : str := Z_toString 10 (i + 1).

(** The [catch] clause of the page loop. *)
Definition onError (i : Z) (error : exn) : M unit :=
  console_error [u "Error fetching " ++ failingName c ++ u ", page "
                   ++ pageNumber i ++ u ":"; exn_message error].

(** The [try] block of the page loop, for page [i]. *)
Definition fetchPage (env : Env) (foloCookie : option str)
  (filterDays : option Z) (listId : str) (i : Z)
  (publishedAfter : option str) : M step :=
  agent ← randomUserAgent H;
  console_log [u "Fetching " ++ fetchingName c ++ u ", page "
                 ++ pageNumber i ++ u "..."];;
  response ←
    match env !! u "FOLO_DATA_API" with
    | Some api =>
        fetch H (Post api (headers c agent foloCookie)
                   {| body_listId := listId;
                      body_view := 1;
                      body_withContent := true;
                      body_publishedAfter :=
                        if truthy_opt publishedAfter then publishedAfter
                        else None |})
    | None => throw (TypeError (u "Invalid URL"))
    end;
  if negb (ok response) then
    console_error [u "Failed to fetch " ++ failingName c ++ u ", page "
                     ++ pageNumber i ++ u ": " ++ statusText response];;
    mret (Break [])
  else
    data ← await (json response);
    match data with
    | Some (Some (first :: more)) =>
        filteredItems ← filterRecent filterDays (first :: more);
        pushed ← await (mapItems c filteredItems);
        (* [allItems.push] has happened: an exception from here on is
           caught with the page's items already kept *)
        match publishedAt (List.last more first) with
        | Ok after => mret (Next pushed after)
        | Throw error => onError i error;; mret (Break pushed)
        end
    | _ =>
        (if newsExtras c
         then console_log [u "No more data for " ++ fetchingName c
                             ++ u ", page " ++ pageNumber i ++ u "."]
         else mret tt);;
        mret (Break [])
    end.

(** The loop [for (let i = 0; i < fetchPages; i++)], with [n] turns
    left: the items collected from page [i] on. *)
Fixpoint fetchPages (env : Env) (foloCookie : option str)
  (filterDays : option Z) (listId : str) (n : nat) (i : Z)
  (publishedAfter : option str) : M (list item) :=
  match n with
  | O => mret []
  | S n' =>
      s ← try_catch
            (fetchPage env foloCookie filterDays listId i publishedAfter)
            (fun error => onError i error;; mret (Break []));
      match s with
      | Break pushed => mret pushed
      | Next pushed after =>
          sleep 1000 4000;;
          more ← fetchPages env foloCookie filterDays listId n' (i + 1) after;
          mret (pushed ++ more)
      end
  end.

(** The adapter's [fetch(env, foloCookie)]. *)
Definition fetch (env : Env) (foloCookie : option str) : M raw :=
  let listId := env_or env (listIdKey c) [] in
  let pages := parseInt10 (env_or env (fetchPagesKey c) (defaultPages c)) in
  let filterDays := parseInt10 (env_or env (u "FOLO_FILTER_DAYS") (u "1")) in
  if negb (truthy listId) then
    console_warn [skipWarning c];;
    mret (feed c [])
  else
    allItems ← fetchPages env foloCookie filterDays listId
                 (Z.to_nat (default 0 pages)) 0 None;
    mret (feed c allItems).

(** [authors.map(author => author.name).join(', ')] *)
Fixpoint joinNames (names : list (option str)) : str :=
  match names with
  | [] => []
  | [n] => default [] n
  | n :: rest => default [] n ++ u ", " ++ joinNames rest
  end.

(** The adapter's [transform(rawData, sourceType)]; a null or undefined
    [rawData] is [None]. *)
Definition transform (rawData : option raw) (sourceType : str)
  : list unified :=
  match rawData with
  | None => []
  | Some rawData =>
      match items rawData with
      | None => []
      | Some l =>
          map (fun it =>
                 {| u_id := id it;
                    u_type := sourceType;
                    u_url := url it;
                    u_title := title it;
                    u_description :=
                      take 500 (stripHtml H (default [] (content_html it)));
                    u_published_date := date_published it;
                    u_authors :=
                      match authors it with
                      | Some names => joinNames names
                      | None => u "未知来源"
                      end;
                    u_source := or_else (default [] (source it)) (feedTitle c);
                    u_details :=
                      {| d_content_html := default [] (content_html it);
                         d_feed_url :=
                           if newsExtras c
                           then Some (default [] (feed_url it))
                           else None |} |})
              l
      end
  end.
End WithHost.

Definition RealEstateNewsDataSource : config :=
  {| type := u "realestate-news";
     listIdKey := u "REALESTATE_NEWS_LIST_ID";
     fetchPagesKey := u "REALESTATE_NEWS_FETCH_PAGES";
     defaultPages := u "2";
     feedTitle := u "楼市资讯";
     feedDescription := u "房地产行业综合新闻";
     skipWarning := u "REALESTATE_NEWS_LIST_ID is not set in environment variables. Skipping real estate news fetch.";
     fetchingName := u "Real Estate News";
     failingName := u "Real Estate News";
     newsExtras := true |}.

Definition RealEstatePolicyDataSource : config :=
  {| type := u "realestate-policy";
     listIdKey := u "REALESTATE_POLICY_LIST_ID";
     fetchPagesKey := u "REALESTATE_POLICY_FETCH_PAGES";
     defaultPages := u "2";
     feedTitle := u "政策动态";
     feedDescription := u "房地产政策法规动态";
     skipWarning := u "REALESTATE_POLICY_LIST_ID is not set. Skipping policy fetch.";
     fetchingName := u "Real Estate Policy";
     failingName := u "Policy data";
     newsExtras := false |}.

Definition RealEstateMarketDataSource : config :=
  {| type := u "realestate-market";
     listIdKey := u "REALESTATE_MARKET_LIST_ID";
     fetchPagesKey := u "REALESTATE_MARKET_FETCH_PAGES";
     defaultPages := u "1";
     feedTitle := u "市场数据";
     feedDescription := u "房地产市场行情数据";
     skipWarning := u "REALESTATE_MARKET_LIST_ID is not set. Skipping market data fetch.";
     fetchingName := u "Real Estate Market Data";
     failingName := u "Market data";
     newsExtras := false |}.

Definition RealEstateCityDataSource : config :=
  {| type := u "realestate-city";
     listIdKey := u "REALESTATE_CITY_LIST_ID";
     fetchPagesKey := u "REALESTATE_CITY_FETCH_PAGES";
     defaultPages := u "1";
     feedTitle := u "城市聚焦";
     feedDescription := u "重点城市楼市动态";
     skipWarning := u "REALESTATE_CITY_LIST_ID is not set. Skipping city data fetch.";
     fetchingName := u "Real Estate City Data";
     failingName := u "City data";
     newsExtras := false |}.

End Folo.

(** ** [dataFetchers.js]: the registry and the aggregator *)

Module DataFetchers.

(** The interface every data source offers to the aggregator. *)
Record dataSource := {
  raw : Type;
  type : str;
  fetch : Env -> option str -> M raw;
  transform : raw -> str -> list unified;
}.

Definition rssDataSource (H : Host) (c : RssFeed.config) : dataSource :=
  {| raw := RssFeed.raw;
     type := RssFeed.sourceType c;
     fetch := fun env _ => RssFeed.fetch H c env;
     transform := fun rawData sourceType =>
                    RssFeed.transform H c (Some rawData) sourceType |}.

Record category := {
  name : str;
  sources : list dataSource;
}.

(** The registry object literal: its own properties, in order. *)
Definition dataSources (H : Host) : list (str * category) :=
  [(u "news", {| name := u "楼市资讯";
                 sources := [rssDataSource H RssFeed.RealEstateNewsSource] |});
   (u "finance", {| name := u "财经资讯";
                    sources := [rssDataSource H RssFeed.FinanceNewsSource] |});
   (u "policy", {| name := u "政策动态";
                   sources := [rssDataSource H RssFeed.PolicyNewsSource] |});
   (u "general", {| name := u "综合资讯";
                    sources := [rssDataSource H RssFeed.GeneralNewsSource] |})].

(** The properties every object literal inherits from Object.prototype:
    functions, and the prototype itself under [__proto__]. *)
Definition Object_prototype : list str :=
  map u ["constructor"; "hasOwnProperty"; "isPrototypeOf";
         "propertyIsEnumerable"; "toLocaleString"; "toString"; "valueOf";
         "__proto__"; "__defineGetter__"; "__defineSetter__";
         "__lookupGetter__"; "__lookupSetter__"]%string.

(** What [obj[key]] finds on an object literal. *)
Inductive property (V : Type) :=
| Own (v : V)
| Inherited
| Undefined.
Arguments Own {V} v.
Arguments Inherited {V}.
Arguments Undefined {V}.

Fixpoint own_property {V} (obj : list (str * V)) (key : str) : option V :=
  match obj with
  | [] => None
  | (k, v) :: rest => if str_eqb k key then Some v else own_property rest key
  end.

Definition get {V} (obj : list (str * V)) (key : str) : property V :=
  match own_property obj key with
  | Some v => Own v
  | None => if existsb (str_eqb key) Object_prototype then Inherited
            else Undefined
  end.

(** [dataSources[sourceType].sources] when the registry has no such
    property. *)
Definition undefinedSources : exn :=
  TypeError (u "Cannot read properties of undefined (reading 'sources')").

(** The comparator of the aggregator's sort:
    [dateB.getTime() - dateA.getTime()]. *)
Definition byPublishedDateDesc (H : Host) (a b : unified) : option Z :=
  let time x := x ≫= Date_parse H in
  time_sub (time (u_published_date b)) (time (u_published_date a)).

Section WithHost.
Variable H : Host.

(** The loop over the sources of one type: the unified records
    concatenated, in order. *)
Fixpoint collect (srcs : list dataSource) (sourceType : str) (env : Env)
  (foloCookie : option str) : M (list unified) :=
  match srcs with
  | [] => mret []
  | dataSource :: rest =>
      unifiedData ←
        try_catch
          (rawData ← fetch dataSource env foloCookie;
           mret (transform dataSource rawData sourceType))
          (fun error =>
             console_error
               [u "Error fetching or transforming data from source "
                  ++ type dataSource ++ u " for type " ++ sourceType ++ u ":";
                exn_message error];;
             mret []);
      more ← collect rest sourceType env foloCookie;
      mret (unifiedData ++ more)
  end.

(** The body of [fetchAndTransformDataForType], over the registry object
    it reads its sources from. *)
Definition fetchAndTransformDataFrom (registry : list (str * category))
  (sourceType : str) (env : Env) (foloCookie : option str)
  : M (list unified) :=
  match get registry sourceType with
  | Undefined => throw undefinedSources
  | Inherited =>
      (* a function, or Object.prototype: its [sources] is undefined *)
      console_error [u "No data sources registered for type: "
                       ++ sourceType];;
      mret []
  | Own cat =>
      allUnifiedDataForType ← collect (sources cat) sourceType env foloCookie;
      mret (Array_sort (byPublishedDateDesc H) allUnifiedDataForType)
  end.

(** The function as the module has it: over the module's [dataSources]. *)
Definition fetchAndTransformDataForType
  : str -> Env -> option str -> M (list unified) :=
  fetchAndTransformDataFrom (dataSources H).

Definition fetchDataByCategory (env : Env) (category : str)
  (foloCookie : option str) : M (list unified) :=
  match get (dataSources H) category with
  | Undefined =>
      console_warn [u "Attempted to fetch data for unknown category: "
                      ++ category];;
      mret []
  | _ => fetchAndTransformDataForType category env foloCookie
  end.
End WithHost.

End DataFetchers.

(** ** A reference host

  One host on which the program can be run: enough of the engine and of
  [helpers.js] to evaluate examples.  The theorems below hold for every
  host; this one only supplies concrete runs. *)

Module Reference.

(** [n] decimal digits at the head of [s]: their value and the rest. *)
Fixpoint number (n : nat) (acc : Z) (s : str) : option (Z * str) :=
  match n with
  | O => Some (acc, s)
  | S n' =>
      match s with
      | c :: s' => if in_class false Digit c
                   then number n' (10 * acc + (Z.of_N c - 48)) s'
                   else None
      | [] => None
      end
  end.

Definition expect (p : string) (s : str) : option str :=
  lit_match false (u p) s.

Definition daysInMonth (y m : Z) : Z :=
  if m =? 2 then
    if ((y mod 4 =? 0) && negb (y mod 100 =? 0)) || (y mod 400 =? 0)
    then 29 else 28
  else if (m =? 4) || (m =? 6) || (m =? 9) || (m =? 11) then 30 else 31.

(** Date.parse restricted to the format the standard requires,
    [YYYY-MM-DDTHH:mm:ss.sssZ] (milliseconds optional); every other text
    is unrecognised here and gives NaN. *)
Definition Date_parse (s : str) : option Z :=
  '(y, s) ← number 4 0 s;
  s ← expect "-" s;
  '(m, s) ← number 2 0 s;
  s ← expect "-" s;
  '(d, s) ← number 2 0 s;
  s ← expect "T" s;
  '(hh, s) ← number 2 0 s;
  s ← expect ":" s;
  '(mm, s) ← number 2 0 s;
  s ← expect ":" s;
  '(ss, s) ← number 2 0 s;
  '(ms, s) ← match expect "." s with
             | Some s' => number 3 0 s'
             | None => Some (0, s)
             end;
  if str_eqb s (u "Z") && (1 <=? m) && (m <=? 12) && (1 <=? d)
     && (d <=? daysInMonth y m) && (hh <=? 23) && (mm <=? 59) && (ss <=? 59)
  then Some (days_from_civil y m d * msPerDay
             + hh * 3600000 + mm * 60000 + ss * 1000 + ms)
  else None.

(** The host name of an absolute URL: what stands between [://] and the
    next slash. *)
Fixpoint URL_hostname (s : str) : option str :=
  match expect "://" s with
  | Some rest => Some (takeWhile (fun c => negb (c =? 47)%N) rest)
  | None =>
      match s with
      | [] => None
      | _ :: s' => URL_hostname s'
      end
  end.

(** Modelled from the spec: [helpers.js] is not among the sources; the
    spec has the recency filter keep a date exactly when
    [now - publishedAt <= N days].  An unreadable date or day count is
    not kept. *)
Definition isDateWithinLastDays (now : Z) (dateString : option str)
  (days : option Z) : bool :=
  match dateString ≫= Date_parse, days with
  | Some t, Some n => now - t <=? n * msPerDay
  | _, _ => false
  end.

(** Tags removed, text kept. *)
Definition stripHtml (html : str) : str :=
  replace_all false (Lit (u "<") ⋅ Star (NoneOf (u ">")) ⋅ Lit (u ">"))
    (fun _ => []) html 0.

(** The host whose clock starts at [start] and gains a second at each
    reading, and whose network answers by [net]. *)
Definition host (start : Z) (net : nat -> request -> result response)
  : Host :=
  Build_Host Date_parse URL_hostname
    (fun n => start + 1000 * Z.of_nat n)
    net
    (fun _ => u "Mozilla/5.0")
    isDateWithinLastDays
    stripHtml.

Definition offline (n : nat) (r : request) : result response :=
  Throw (NetworkError (u "fetch failed")).

(** 2026-11-02T08:00:00.000Z *)
Definition morning : Z := 1793606400000.

(** A response carrying [body], successful or not by [code]. *)
Definition respond (code : Z) (body : str) : response :=
  {| ok := (200 <=? code) && (code <=? 299);
     status := code;
     statusText := if code =? 200 then u "OK" else u "Error";
     text := Ok body;
     json := Throw (SyntaxError (u "Unexpected token")) |}.

(** A successful response of the API carrying the entries [l]. *)
Definition page (l : list apiEntry) : response :=
  {| ok := true;
     status := 200;
     statusText := u "OK";
     text := Ok [];
     json := Ok (Some (Some l)) |}.

Definition start : World := {| trace := []; ticks := 0 |}.

End Reference.

(** ** Vocabulary of the properties *)

(** The world after one more reading of the clock. *)
Definition tick (w : World) : World :=
  {| trace := trace w; ticks := S (ticks w) |}.

(** The fields the parser reads off one block. *)
Module Block.
Import RssFeed.

Definition title (b : str) : str := extractTag b (u "title").

Definition rssLink (b : str) : str :=
  or_else (extractTag b (u "link")) (extractTag b (u "guid")).

Definition rssDate (b : str) : str :=
  or_else (extractTag b (u "pubDate")) (extractTag b (u "dc:date")).

Definition atomLink (b : str) : str := extractAtomLink b.

Definition atomDate (b : str) : str :=
  or_else (extractTag b (u "published")) (extractTag b (u "updated")).

(** The block has both a title and a link. *)
Definition rssComplete (b : str) : bool :=
  truthy (title b) && truthy (rssLink b).

Definition atomComplete (b : str) : bool :=
  truthy (title b) && truthy (atomLink b).

(** The article the first loop builds from a block, given the text of
    its date. *)
Definition rssItemOf (b date : str) : item :=
  {| RssFeed.title := decodeHTMLEntities (title b);
     link := rssLink b;
     description :=
       or_else (extractTag b (u "description"))
         (or_else (extractTag b (u "content:encoded")) []);
     pubDate := date;
     author :=
       decodeHTMLEntities
         (or_else (extractTag b (u "author"))
            (or_else (extractTag b (u "dc:creator")) []));
     source := None;
     id := None |}.

(** The article the second loop builds from a block. *)
Definition atomItemOf (b date : str) : item :=
  {| RssFeed.title := decodeHTMLEntities (title b);
     link := atomLink b;
     description :=
       or_else (extractTag b (u "summary"))
         (or_else (extractTag b (u "content")) []);
     pubDate := date;
     author := decodeHTMLEntities (or_else (extractTag b (u "name")) []);
     source := None;
     id := None |}.

(** The [<item>] and [<entry>] blocks of a document, in order. *)
Definition rssBlocks (xml : str) : list str :=
  exec_all true rssItemRegex xml 0.

Definition atomBlocks (xml : str) : list str :=
  exec_all true atomEntryRegex xml 0.

(** After [n] more readings both worlds see the same clock. *)
Definition sameClock (H : Host) (w1 w2 : World) : Prop :=
  forall n : nat, clock H (ticks w1 + n) = clock H (ticks w2 + n).

(** Every block of the document that has a title and a link has a
    date field as well. *)
Definition allDated (xml : str) : Prop :=
  Forall (fun b => rssComplete b = true -> truthy (rssDate b) = true)
    (rssBlocks xml)
  /\ Forall (fun b => atomComplete b = true -> truthy (atomDate b) = true)
       (atomBlocks xml).

(** A loop body that passes over the blocks failing [complete] and builds
    its articles by [build]. *)
Definition bodyOf (body : str -> M (option item)) (complete : str -> bool)
  (build : str -> str -> item) : Prop :=
  forall b w,
    (complete b = false /\ body b w = (Ok None, w))
    \/ (complete b = true /\
        ((exists date w', body b w = (Ok (Some (build b date)), w'))
         \/ (exists e, body b w = (Throw e, w)))).

(** A loop body whose result depends on the world through the clock
    only. *)
Definition clockOnly (H : Host) (body : str -> M (option item)) : Prop :=
  forall b w1 w2,
    sameClock H w1 w2 ->
    fst (body b w1) = fst (body b w2)
    /\ sameClock H (snd (body b w1)) (snd (body b w2)).
End Block.

(** Example documents. *)
Module Examples.

Definition unreadableDate : str :=
  u "<item><title>A</title><link>http://x/1</link><pubDate>not a date</pubDate></item>".

Definition unreadableDateBlock : str :=
  u "<title>A</title><link>http://x/1</link><pubDate>not a date</pubDate>".

Definition dateless : str :=
  u "<item><title>A</title><link>http://x/1</link></item>".

Definition datelessBlock : str :=
  u "<title>A</title><link>http://x/1</link>".

Definition datelessEntry : str :=
  u "<title>A</title><link href='http://x/1'/>".

Definition titleOnly : str :=
  u "<item><title>A</title></item>".

(** A feed whose second item has a date no host reads, after an item
    that is in order; and the same for an Atom feed. *)
Definition goodThenUnreadable : str :=
  u "<item><title>A</title><link>http://x/1</link><pubDate>2026-11-01T10:00:00Z</pubDate></item><item><title>B</title><link>http://x/2</link><pubDate>yesterday</pubDate></item>".

Definition yesterdayBlock : str :=
  u "<title>B</title><link>http://x/2</link><pubDate>yesterday</pubDate>".

Definition unreadableEntryFeed : str :=
  u "<feed><entry><title>A</title><link href='http://x/1'/><updated>2026-11-01T10:00:00Z</updated></entry><entry><title>B</title><link href='http://x/2'/><updated>yesterday</updated></entry></feed>".

Definition yesterdayEntry : str :=
  u "<title>B</title><link href='http://x/2'/><updated>yesterday</updated>".

Definition dated : str :=
  u "<item><title>A</title><link>http://x/1</link><pubDate>2026-11-01T10:00:00Z</pubDate></item><item><title>B</title></item><item><title>C</title><guid>http://x/3</guid><pubDate>2026-11-02T07:30:00Z</pubDate></item>".

Definition host : Host := Reference.host Reference.morning Reference.offline.

(** What the parser makes of [dated]: its first and third block. *)
Definition datedItems : list RssFeed.item :=
  [Block.rssItemOf
     (u "<title>A</title><link>http://x/1</link><pubDate>2026-11-01T10:00:00Z</pubDate>")
     (u "2026-11-01T10:00:00.000Z");
   Block.rssItemOf
     (u "<title>C</title><guid>http://x/3</guid><pubDate>2026-11-02T07:30:00Z</pubDate>")
     (u "2026-11-02T07:30:00.000Z")].

(** The same host with a clock that stands still. *)
Definition frozen : Host :=
  {| Date_parse := Reference.Date_parse;
     URL_hostname := Reference.URL_hostname;
     clock := fun _ => Reference.morning;
     network := Reference.offline;
     getRandomUserAgent := fun _ => u "Mozilla/5.0";
     isDateWithinLastDays := Reference.isDateWithinLastDays;
     stripHtml := Reference.stripHtml |}.
End Examples.

(** ** Vocabulary of the adapters *)

(** The world after one more event. *)
Definition logged (w : World) (e : event) : World :=
  {| trace := trace w ++ [e]; ticks := ticks w |}.

(** The adapters this program defines. *)
Definition rssSources : list RssFeed.config :=
  [RssFeed.RealEstateNewsSource; RssFeed.FinanceNewsSource;
   RssFeed.PolicyNewsSource; RssFeed.GeneralNewsSource].

Definition foloSources : list Folo.config :=
  [Folo.RealEstateNewsDataSource; Folo.RealEstatePolicyDataSource;
   Folo.RealEstateMarketDataSource; Folo.RealEstateCityDataSource].

(** The configuration key is unset, or set to the empty text. *)
Definition unset (env : Env) (key : str) : Prop :=
  env !! key = None \/ env !! key = Some [].

(** The warning the RSS adapter prints when it has no feed URLs. *)
Definition rssSkipWarning (c : RssFeed.config) : event :=
  Console LevelWarn
    [RssFeed.envKeyUrl c ++ u " is not set. Skipping "
       ++ RssFeed.sourceName c ++ u " fetch."].

(** The two lines an unknown category can cause to be printed. *)
Definition unknownCategoryWarning (category : str) : event :=
  Console LevelWarn
    [u "Attempted to fetch data for unknown category: " ++ category].

Definition noSourcesError (category : str) : event :=
  Console LevelError
    [u "No data sources registered for type: " ++ category].

(** The category is a key of the registry. *)
Definition registered (H : Host) (category : str) : bool :=
  match DataFetchers.own_property (DataFetchers.dataSources H) category with
  | Some _ => true
  | None => false
  end.

(** The category names a member of Object.prototype. *)
Definition inherited (category : str) : bool :=
  existsb (str_eqb category) DataFetchers.Object_prototype.

(** The time value of a record's [published_date], and of an article's
    [pubDate]. *)
Definition unifiedTime (H : Host) (x : unified) : option Z :=
  u_published_date x ≫= Date_parse H.

Definition itemTime (H : Host) (x : RssFeed.item) : option Z :=
  Date_parse H (RssFeed.pubDate x).

(** [a] is strictly newer than [b], both times being valid. *)
Definition newer (a b : option Z) : Prop :=
  match a, b with
  | Some x, Some y => (y < x)%Z
  | _, _ => False
  end.

(** [a] is at least as new as [b], both times being valid. *)
Definition notOlder (a b : option Z) : Prop :=
  match a, b with
  | Some x, Some y => (y <= x)%Z
  | _, _ => False
  end.

(** The address of a request. *)
Definition requestUrl (r : request) : str :=
  match r with
  | Get url _ => url
  | Post url _ _ => url
  end.

(** The addresses requested so far, oldest first. *)
Definition requested (w : World) : list str :=
  omap (fun e => match e with Fetch r => Some (requestUrl r) | _ => None end)
    (requests w).

(** A computation that leaves the trace alone. *)
Definition quiet {A} (m : M A) : Prop :=
  forall w, trace (snd (m w)) = trace w.

(** The request the RSS adapter issues for [rssUrl] from world [w], and
    the network's answer to it. *)
Definition rssRequest (H : Host) (w : World) (rssUrl : str) : request :=
  Get rssUrl
    [(u "User-Agent", getRandomUserAgent H (length (requests w)));
     (u "Accept", u "application/rss+xml, application/xml, text/xml, */*")].

Definition rssAnswer (H : Host) (w : World) (rssUrl : str)
  : result response :=
  network H (length (requests w)) (rssRequest H w rssUrl).

(** The request for [rssUrl] from world [w] meets a transport error or a
    status that is not a success. *)
Definition feedFails (H : Host) (w : World) (rssUrl : str) : Prop :=
  match rssAnswer H w rssUrl with
  | Throw _ => True
  | Ok r => ok r = false
  end.

(** The feed URLs and the recency window the RSS adapter reads from its
    configuration. *)
Definition urlList (c : RssFeed.config) (env : Env) : list str :=
  filter truthy (map trim (RssFeed.split_comma
                             (env_or env (RssFeed.envKeyUrl c) []))).

Definition rssFilterDays (env : Env) : option Z :=
  parseInt10 (env_or env (u "RSS_FILTER_DAYS") (u "2")).

(** A computation that issues no request. *)
Definition silent {A} (m : M A) : Prop :=
  forall w, requests (snd (m w)) = requests w.

(** What the RSS adapter does with a response, once it has one: the rest
    of the [try] block of [fetchFeed]. *)
Definition digest (H : Host) (filterDays : option Z) (rssUrl : str)
  (response : response) : M (option (list RssFeed.item)) :=
  if negb (ok response) then
    console_error [u "Failed to fetch RSS " ++ rssUrl ++ u ": "
                     ++ (if (status response <? 0)%Z then u "-" else [])
                     ++ Z_toString 10 (Z.abs (status response))];;
    mret None
  else
    xmlText ← await (text response);
    items ← RssFeed.parseRSSFeed H xmlText;
    feedTitle ←
      (if truthy (RssFeed.extractTag xmlText (u "title"))
       then mret (RssFeed.extractTag xmlText (u "title"))
       else match URL_hostname H rssUrl with
            | Some h => mret h
            | None => throw (TypeError (u "Invalid URL"))
            end);
    filteredItems ← RssFeed.filterRecent H filterDays items;
    let filteredItems :=
      map (fun it => {| RssFeed.title := RssFeed.title it;
                        RssFeed.link := RssFeed.link it;
                        RssFeed.description := RssFeed.description it;
                        RssFeed.pubDate := RssFeed.pubDate it;
                        RssFeed.author := RssFeed.author it;
                        RssFeed.source :=
                          Some (RssFeed.decodeHTMLEntities feedTitle);
                        RssFeed.id :=
                          Some (RssFeed.generateItemId (RssFeed.link it)) |})
          filteredItems in
    console_log [u "Fetched "
                   ++ Z_toString 10 (Z.of_nat (length filteredItems))
                   ++ u " items from " ++ feedTitle];;
    mret (Some filteredItems).

(** The [catch] clause of the RSS loop. *)
Definition rssOnError (rssUrl : str) (error : exn)
  : M (option (list RssFeed.item)) :=
  console_error [u "Error fetching RSS " ++ rssUrl ++ u ":";
                 exn_message error];;
  mret (Some []).

(** The request an API adapter issues to [api] from world [w], with the
    cursor [publishedAfter]. *)
Definition foloRequest (H : Host) (c : Folo.config) (api : str)
  (foloCookie : option str) (listId : str) (w : World)
  (publishedAfter : option str) : request :=
  Post api
    (Folo.headers c (getRandomUserAgent H (length (requests w))) foloCookie)
    {| body_listId := listId;
       body_view := 1;
       body_withContent := true;
       body_publishedAfter :=
         if Folo.truthy_opt publishedAfter then publishedAfter else None |}.

(** An answer that ends the pagination: a transport error, a status that
    is not a success, or a body without results (none at all, an empty
    [data], or no readable JSON). *)
Definition stops (answer : result response) : Prop :=
  match answer with
  | Throw _ => True
  | Ok r =>
      if ok r then
        match json r with
        | Ok (Some (Some (_ :: _))) => False
        | _ => True
        end
      else True
  end.

(** What an API adapter reads from its configuration. *)
Definition foloListId (c : Folo.config) (env : Env) : str :=
  env_or env (Folo.listIdKey c) [].

Definition foloFilterDays (env : Env) : option Z :=
  parseInt10 (env_or env (u "FOLO_FILTER_DAYS") (u "1")).

Definition pageLimit (c : Folo.config) (env : Env) : nat :=
  Z.to_nat (default 0%Z
              (parseInt10 (env_or env (Folo.fetchPagesKey c)
                             (Folo.defaultPages c)))).

(** [earlierPages H c env foloCookie k i after w items i' after' w']:
    from page [i], cursor [after] and world [w], [k] pages in a row are
    fetched with success, each followed by the pause between pages; they
    push [items] in all and leave the loop at page [i'], cursor [after']
    and world [w']. *)
Inductive earlierPages (H : Host) (c : Folo.config) (env : Env)
  (foloCookie : option str)
  : nat -> Z -> option str -> World -> list Folo.item
    -> Z -> option str -> World -> Prop :=
| earlier_none i after w :
    earlierPages H c env foloCookie 0 i after w [] i after w
| earlier_page k i after w pushed next w1 items i' after' w' :
    Folo.fetchPage H c env foloCookie (foloFilterDays env) (foloListId c env)
      i after w = (Ok (Folo.Next pushed next), w1) ->
    earlierPages H c env foloCookie k (i + 1)%Z next
      (logged w1 (Sleep 1000 4000)) items i' after' w' ->
    earlierPages H c env foloCookie (S k) i after w (pushed ++ items)
      i' after' w'.

(** What an API adapter does with a response, once it has one: the rest
    of the [try] block of [fetchPage]. *)
Definition foloDigest (H : Host) (c : Folo.config) (filterDays : option Z)
  (i : Z) (response : response) : M Folo.step :=
  if negb (ok response) then
    console_error [u "Failed to fetch " ++ Folo.failingName c ++ u ", page "
                     ++ Folo.pageNumber i ++ u ": " ++ statusText response];;
    mret (Folo.Break [])
  else
    data ← await (json response);
    match data with
    | Some (Some (first :: more)) =>
        filteredItems ← Folo.filterRecent H filterDays (first :: more);
        pushed ← await (Folo.mapItems c filteredItems);
        match Folo.publishedAt (List.last more first) with
        | Ok after => mret (Folo.Next pushed after)
        | Throw error => Folo.onError c i error;; mret (Folo.Break pushed)
        end
    | _ =>
        (if Folo.newsExtras c
         then console_log [u "No more data for " ++ Folo.fetchingName c
                             ++ u ", page " ++ Folo.pageNumber i ++ u "."]
         else mret tt);;
        mret (Folo.Break [])
    end.

(** The [catch] clause of the page loop, with its [break]. *)
Definition foloOnError (c : Folo.config) (i : Z) (error : exn) : M Folo.step :=
  Folo.onError c i error;; mret (Folo.Break []).


(** ** Scenarios *)

Module Scenario.

Definition urlA : str := u "https://a.example/rss".
Definition urlC : str := u "https://c.example/rss".

Definition feedA : str :=
  u "<rss><channel><title>Feed A</title><item><title>A1</title><link>https://a.example/1</link><pubDate>2026-11-02T07:00:00Z</pubDate></item><item><title>A2</title><link>https://a.example/2</link><pubDate>2026-11-01T09:00:00Z</pubDate></item></channel></rss>".

Definition feedC : str :=
  u "<rss><channel><title>Feed C</title><item><title>C1</title><link>https://c.example/1</link><pubDate>2026-11-02T07:30:00Z</pubDate></item></channel></rss>".

(** Three feeds are configured; the second one answers 500. *)
Definition rssNetwork (n : nat) (r : request) : result response :=
  match r with
  | Get url _ =>
      if str_eqb url urlA then Ok (Reference.respond 200 feedA)
      else if str_eqb url urlC then Ok (Reference.respond 200 feedC)
      else Ok (Reference.respond 500 [])
  | Post _ _ _ => Throw (NetworkError (u "fetch failed"))
  end.

Definition rssHost : Host := Reference.host Reference.morning rssNetwork.

Definition rssEnv : Env :=
  {[ u "RSS_REALESTATE_NEWS" :=
       u "https://a.example/rss, https://b.example/rss ,https://c.example/rss" ]}.



(** The run of the loop over all three. *)
Definition allFeeds : result (list RssFeed.item) * World :=
  RssFeed.fetchFeeds rssHost (rssFilterDays rssEnv)
    (urlList RssFeed.RealEstateNewsSource rssEnv) Reference.start.

Definition allFeedsItems : list RssFeed.item :=
  match fst allFeeds with Ok l => l | Throw _ => [] end.

(** What the aggregator collects for the type [news]. *)
Definition newsCategory : DataFetchers.category :=
  {| DataFetchers.name := u "楼市资讯";
     DataFetchers.sources :=
       [DataFetchers.rssDataSource rssHost RssFeed.RealEstateNewsSource] |}.

Definition collectedNews : result (list unified) * World :=
  DataFetchers.collect (DataFetchers.sources newsCategory) (u "news") rssEnv
    None Reference.start.

Definition collectedNewsItems : list unified :=
  match fst collectedNews with Ok l => l | Throw _ => [] end.

(** A registry whose one category is fed by two RSS sources, and a
    configuration that gives the first source the feed A and the second
    the feed C: what the aggregator collects, source after source, is
    then not in order of date. *)
Definition twoSources : DataFetchers.category :=
  {| DataFetchers.name := u "楼市资讯";
     DataFetchers.sources :=
       [DataFetchers.rssDataSource rssHost RssFeed.RealEstateNewsSource;
        DataFetchers.rssDataSource rssHost RssFeed.FinanceNewsSource] |}.

Definition twoRegistry : list (str * DataFetchers.category) :=
  [(u "news", twoSources)].

Definition twoEnv : Env :=
  <[ u "RSS_FINANCE_NEWS" := urlC ]> {[ u "RSS_REALESTATE_NEWS" := urlA ]}.

Definition collectedTwo : result (list unified) * World :=
  DataFetchers.collect (DataFetchers.sources twoSources) (u "news") twoEnv
    None Reference.start.

Definition collectedTwoItems : list unified :=
  match fst collectedTwo with Ok l => l | Throw _ => [] end.

(** The API has one page of two entries; asked for more, it answers
    with an empty [data]. *)
Definition entry (n : string) (date : string) : apiEntry :=
  {| entries := Some {| e_id := Some (u n);
                        e_url := Some (u "https://news.example/" ++ u n);
                        e_title := Some (u "Entry " ++ u n);
                        e_content := Some (u "<p>text</p>");
                        e_publishedAt := Some (u date);
                        e_author := None |};
     feeds := Some {| f_title := Some (u "News");
                      f_url := Some (u "https://news.example/feed") |} |}.

Definition apiNetwork (n : nat) (r : request) : result response :=
  match n with
  | O => Ok (Reference.page [entry "1" "2026-11-02T07:00:00Z";
                             entry "2" "2026-11-02T06:00:00Z"])
  | S _ => Ok (Reference.page [])
  end.

Definition apiHost : Host := Reference.host Reference.morning apiNetwork.

Definition api : str := u "https://api.example/entries".

Definition apiEnv : Env :=
  <[ u "FOLO_DATA_API" := api ]>
    {[ u "REALESTATE_NEWS_LIST_ID" := u "list-1" ]}.

(** The first turn of the page loop. *)
Definition firstPage : result Folo.step * World :=
  Folo.fetchPage apiHost Folo.RealEstateNewsDataSource apiEnv None
    (foloFilterDays apiEnv)
    (foloListId Folo.RealEstateNewsDataSource apiEnv) 0 None Reference.start.

Definition firstPageItems : list Folo.item :=
  match fst firstPage with
  | Ok (Folo.Next pushed _) => pushed
  | _ => []
  end.

Definition firstPageCursor : option str :=
  match fst firstPage with
  | Ok (Folo.Next _ after) => after
  | _ => None
  end.

End Scenario.

(** ** Vocabulary of the further properties *)

(** The character a match of the expression has to begin with, when the
    expression begins with a literal. *)
Fixpoint first_char (r : regex) : option N :=
  match r with
  | Lit (c :: _) => Some c
  | Group r1 => first_char r1
  | Cat r1 _ => first_char r1
  | _ => None
  end.

(** No code unit of [s] matches the pattern character [p]. *)
Definition without (ci : bool) (p : N) (s : str) : Prop :=
  Forall (fun c => chr_match ci p c = false) s.

(** The code unit [c] does not occur in [s]. *)
Definition free_of (c : N) (s : str) : Prop := Forall (fun x => x <> c) s.

(** ASCII text. *)
Definition ascii_text (s : str) : Prop := Forall (fun c => (c < 128)%N) s.

(** A plain name: letters, digits, colon, hyphen and underscore only.
    Such a name holds no character that is special in a regular
    expression, so the expression the source builds from it matches the
    name itself. *)
Definition plain_name (s : str) : Prop :=
  Forall (fun c => (48 <= c <= 57 \/ 65 <= c <= 90 \/ 97 <= c <= 122
                    \/ c = 58 \/ c = 45 \/ c = 95)%N) s.

(** A tag name: not empty, ASCII, and free of the characters that delimit
    tags. *)
Definition tag_name (s : str) : Prop :=
  s <> []
  /\ Forall (fun c => (c < 128)%N /\ c <> 60%N /\ c <> 62%N /\ c <> 47%N) s.

(** A text that neither begins nor ends with white space. *)
Definition trimmed (s : str) : Prop :=
  (forall c rest, s = c :: rest -> isWhiteSpace c = false)
  /\ (forall init c, s = init ++ [c] -> isWhiteSpace c = false).

(** An article as the RSS adapter hands it on: with a link, with the id
    derived from the link, and with a source. *)
Definition labelled (it : RssFeed.item) : Prop :=
  RssFeed.link it <> []
  /\ RssFeed.id it = Some (RssFeed.generateItemId (RssFeed.link it))
  /\ is_Some (RssFeed.source it).

(** A unified record as the aggregator hands it on. *)
Definition well_formed (sourceType : str) (x : unified) : Prop :=
  u_type x = sourceType
  /\ (length (u_description x) <= 500)%nat
  /\ u_authors x <> []
  /\ (exists link, u_url x = Some link /\ link <> []
                   /\ u_id x = Some (RssFeed.generateItemId link))
  /\ is_Some (u_published_date x).

(** Further runs of the scenario of the three feeds. *)
Module Runs.

Definition rssRun : result RssFeed.raw * World :=
  RssFeed.fetch Scenario.rssHost RssFeed.RealEstateNewsSource Scenario.rssEnv
    Reference.start.

Definition rssRunItems : list RssFeed.item :=
  match fst rssRun with
  | Ok r => default [] (RssFeed.raw_items r)
  | Throw _ => []
  end.

Definition rssRunRaw : RssFeed.raw :=
  {| RssFeed.raw_title :=
       Some (RssFeed.sourceName RssFeed.RealEstateNewsSource);
     RssFeed.raw_items := Some rssRunItems |}.

Definition newsRun : result (list unified) * World :=
  DataFetchers.fetchAndTransformDataForType Scenario.rssHost (u "news")
    Scenario.rssEnv None Reference.start.

Definition newsRunItems : list unified :=
  match fst newsRun with Ok l => l | Throw _ => [] end.

End Runs.

(** Every date the parser would have to read can be read by the host. *)
Definition readable (H : Host) (xml : str) : Prop :=
  Forall (fun b => Block.rssComplete b = true ->
                   truthy (Block.rssDate b) = true ->
                   is_Some (Date_parse H (Block.rssDate b)))
    (Block.rssBlocks xml)
  /\ Forall (fun b => Block.atomComplete b = true ->
                      truthy (Block.atomDate b) = true ->
                      is_Some (Date_parse H (Block.atomDate b)))
       (Block.atomBlocks xml).

(** A data source whose [fetch] rejects. *)
Definition brokenSource : DataFetchers.dataSource :=
  {| DataFetchers.raw := unit;
     DataFetchers.type := u "broken";
     DataFetchers.fetch := fun _ _ => throw (NetworkError (u "down"));
     DataFetchers.transform := fun _ _ => [] |}.

(** The line the aggregator prints for a source that failed. *)
Definition sourceFailure (d : DataFetchers.dataSource) (sourceType : str)
  (error : exn) : event :=
  Console LevelError
    [u "Error fetching or transforming data from source "
       ++ DataFetchers.type d ++ u " for type " ++ sourceType ++ u ":";
     exn_message error].

(** The label the RSS adapter gives to the articles of a feed: what
    [extractTag] finds for [title] in the whole document (a [title] in
    CDATA anywhere in it, else the first plain [title]) or, when that is
    empty, the host of the feed's URL. *)
Definition feedLabel (H : Host) (rssUrl xmlText : str) : str :=
  if truthy (RssFeed.extractTag xmlText (u "title"))
  then RssFeed.extractTag xmlText (u "title")
  else default [] (URL_hostname H rssUrl).

(** An article of the parser, with the source and id the adapter adds. *)
Definition withLabel (label : str) (it : RssFeed.item) : RssFeed.item :=
  {| RssFeed.title := RssFeed.title it;
     RssFeed.link := RssFeed.link it;
     RssFeed.description := RssFeed.description it;
     RssFeed.pubDate := RssFeed.pubDate it;
     RssFeed.author := RssFeed.author it;
     RssFeed.source := Some (RssFeed.decodeHTMLEntities label);
     RssFeed.id := Some (RssFeed.generateItemId (RssFeed.link it)) |}.

(** The run of the [try] block on the first feed of the scenario. *)
Definition firstFeedTurn : result (option (list RssFeed.item)) * World :=
  RssFeed.fetchFeed Scenario.rssHost (rssFilterDays Scenario.rssEnv)
    Scenario.urlA Reference.start.

(** The named entities [decodeHTMLEntities] knows besides [&amp;], each
    with the text that replaces it. *)
Definition namedEntities : list (str * str) :=
  [(u "&lt;", u "<"); (u "&gt;", u ">"); (u "&quot;", [34%N]);
   (u "&#39;", u "'"); (u "&nbsp;", u " ")].

(** A run of one or more decimal digits. *)
Definition decimal_digits (s : str) : Prop :=
  s <> [] /\ Forall (fun c => (48 <= c <= 57)%N) s.

(** The items a turn of the page loop pushed. *)
Definition pushedBy (s : Folo.step) : list Folo.item :=
  match s with
  | Folo.Break pushed => pushed
  | Folo.Next pushed _ => pushed
  end.

(** An item as the page loop builds it: with one author entry. *)
Definition oneAuthor (it : Folo.item) : Prop :=
  exists name, Folo.authors it = Some [name].

(** A record an API adapter makes of one of the items [l]: of the given
    type, with a description of at most 500 code units, a source that is
    not empty, and the item's one author as its author text. *)
Definition apiRecord (sourceType : str) (l : list Folo.item) (r : unified)
  : Prop :=
  u_type r = sourceType
  /\ (length (u_description r) <= 500)%nat
  /\ u_source r <> []
  /\ exists it name,
       In it l
       /\ Folo.authors it = Some [name]
       /\ u_authors r = default [] name
       /\ u_id r = Folo.id it
       /\ u_published_date r = Folo.date_published it.

(** A run of the news API adapter in the scenario. *)
Definition apiRun : result Folo.raw * World :=
  Folo.fetch Scenario.apiHost Folo.RealEstateNewsDataSource Scenario.apiEnv
    None Reference.start.

Definition apiRunRaw : Folo.raw :=
  match fst apiRun with
  | Ok r => r
  | Throw _ => Folo.feed Folo.RealEstateNewsDataSource []
  end.

(** What an expression consumes, and what it does to the capture: [pre]
    is a text the expression [r] matches as a whole, entered with the
    capture [cap] and left with the capture [cap']. *)
Fixpoint consumed (ci : bool) (r : regex) (pre : str)
  (cap cap' : option str) : Prop :=
  match r with
  | Lit p => cap' = cap /\ length pre = length p
  | OneOf l => cap' = cap /\ length pre = 1%nat
  | Star cl => cap' = cap /\ Forall (fun c => in_class ci cl c = true) pre
  | StarLazy cl => cap' = cap /\ Forall (fun c => in_class ci cl c = true) pre
  | Plus cl =>
      cap' = cap /\ pre <> []
      /\ Forall (fun c => in_class ci cl c = true) pre
  | Group r1 => cap' = Some pre /\ exists c0, consumed ci r1 pre cap c0
  | Cat r1 r2 =>
      exists p1 p2 mid,
        pre = p1 ++ p2 /\ consumed ci r1 p1 cap mid
        /\ consumed ci r2 p2 mid cap'
  end.

(** * Properties *)

(** Literals stay folded while the proofs simplify around them. *)
Opaque u.

(** ** The monad *)

Lemma bind_Ok {A B} (m : M A) (f : A -> M B) w a w' :
  m w = (Ok a, w') -> (m ≫= f) w = f a w'.
Proof. intros E. unfold mbind, M_bind. now rewrite E. Qed.

Lemma bind_Throw {A B} (m : M A) (f : A -> M B) w e w' :
  m w = (Throw e, w') -> (m ≫= f) w = (Throw e, w').
Proof. intros E. unfold mbind, M_bind. now rewrite E. Qed.

Lemma bind_ret {A B} (a : A) (f : A -> M B) w : (mret a ≫= f) w = f a w.
Proof. reflexivity. Qed.

Ltac monad := unfold mbind, M_bind, mret, M_ret, throw, await in *.

(** ** The parser, block by block *)

Section Blocks.
Variable H : Host.
Import RssFeed Block.

Lemma isoDateOrNow_dated x t w :
  truthy x = true -> Date_parse H x = Some t ->
  isoDateOrNow H x w = (Ok (toISOString t), w).
Proof. intros T E. unfold isoDateOrNow. now rewrite T, E. Qed.

Lemma isoDateOrNow_unreadable x w :
  truthy x = true -> Date_parse H x = None ->
  isoDateOrNow H x w = (Throw (RangeError (u "Invalid time value")), w).
Proof. intros T E. unfold isoDateOrNow. now rewrite T, E. Qed.

Lemma isoDateOrNow_absent x w :
  truthy x = false ->
  isoDateOrNow H x w = (Ok (toISOString (clock H (ticks w))), tick w).
Proof. intros T. unfold isoDateOrNow. now rewrite T. Qed.

(** The first loop's body in terms of the block's fields. *)
Lemma rssItem_eq b :
  rssItem H b =
  if rssComplete b
  then date ← isoDateOrNow H (rssDate b); mret (Some (rssItemOf b date))
  else mret None.
Proof. reflexivity. Qed.

Lemma atomEntry_eq b :
  atomEntry H b =
  if atomComplete b
  then date ← isoDateOrNow H (atomDate b); mret (Some (atomItemOf b date))
  else mret None.
Proof. reflexivity. Qed.

(** What a loop body can do: pass over the block, push an article, or
    throw; the trace is never touched. *)
Lemma rssItem_cases b w :
  (rssComplete b = false /\ rssItem H b w = (Ok None, w))
  \/ (rssComplete b = true /\
      ((exists date w', rssItem H b w = (Ok (Some (rssItemOf b date)), w'))
       \/ (exists e, rssItem H b w = (Throw e, w)))).
Proof.
  rewrite rssItem_eq. destruct (rssComplete b); [right | left]; split; trivial.
  unfold isoDateOrNow. destruct (truthy (rssDate b)).
  - destruct (Date_parse H (rssDate b)); [left | right]; eexists; try eexists;
      reflexivity.
  - left. do 2 eexists. reflexivity.
Qed.

Lemma atomEntry_cases b w :
  (atomComplete b = false /\ atomEntry H b w = (Ok None, w))
  \/ (atomComplete b = true /\
      ((exists date w', atomEntry H b w = (Ok (Some (atomItemOf b date)), w'))
       \/ (exists e, atomEntry H b w = (Throw e, w)))).
Proof.
  rewrite atomEntry_eq. destruct (atomComplete b); [right | left]; split; trivial.
  unfold isoDateOrNow. destruct (truthy (atomDate b)).
  - destruct (Date_parse H (atomDate b)); [left | right]; eexists; try eexists;
      reflexivity.
  - left. do 2 eexists. reflexivity.
Qed.
End Blocks.

(** ** The parser, loop by loop *)

Section Loops.
Variable H : Host.
Import RssFeed Block.

Lemma pushItems_cons body b rest w :
  pushItems body (b :: rest) w =
  match body b w with
  | (Ok o, w1) =>
      match pushItems body rest w1 with
      | (Ok items, w2) =>
          (Ok (match o with Some it => it :: items | None => items end), w2)
      | (Throw e, w2) => (Throw e, w2)
      end
  | (Throw e, w1) => (Throw e, w1)
  end.
Proof.
  simpl. monad. destruct (body b w) as [[o|e] w1]; trivial.
Qed.

Lemma pushItems_emitted body complete build :
  bodyOf body complete build ->
  forall blocks w items w',
    pushItems body blocks w = (Ok items, w') ->
    Forall2 (fun b it => exists date, it = build b date)
      (filter complete blocks) items.
Proof.
  intros B. induction blocks as [|b rest IH]; intros w items w' E.
  - inversion E. constructor.
  - rewrite pushItems_cons in E.
    destruct (B b w) as [[C Eb]|[C [(date & w1 & Eb)|[e Eb]]]]; rewrite Eb in E.
    + destruct (pushItems body rest w) as [[l|e] w2] eqn:Er; inversion E; subst.
      rewrite filter_cons_False by (rewrite C; tauto). eauto.
    + destruct (pushItems body rest w1) as [[l|e] w2] eqn:Er; inversion E; subst.
      rewrite filter_cons_True by (rewrite C; exact I).
      constructor; eauto.
    + discriminate.
Qed.

Lemma parseRSSFeed_eq xml w :
  parseRSSFeed H xml w =
  match pushItems (rssItem H) (rssBlocks xml) w with
  | (Ok items, w1) =>
      if (length items =? 0)%nat
      then pushItems (atomEntry H) (atomBlocks xml) w1
      else (Ok items, w1)
  | (Throw e, w1) => (Throw e, w1)
  end.
Proof.
  unfold parseRSSFeed, rssBlocks, atomBlocks. monad.
  destruct (pushItems _ _ w) as [[items|e] w1]; trivial.
  destruct (length items =? 0)%nat; trivial.
Qed.

(** Worlds that see the same clock give the same articles. *)
Lemma isoDateOrNow_sameClock x w1 w2 :
  sameClock H w1 w2 ->
  fst (isoDateOrNow H x w1) = fst (isoDateOrNow H x w2)
  /\ sameClock H (snd (isoDateOrNow H x w1)) (snd (isoDateOrNow H x w2)).
Proof.
  intros S. unfold isoDateOrNow. destruct (truthy x).
  - destruct (Date_parse H x); simpl; auto.
  - simpl. split.
    + specialize (S 0%nat). rewrite !Nat.add_0_r in S. now rewrite S.
    + intros n. specialize (S (Datatypes.S n)).
      now rewrite !Nat.add_succ_r in S.
Qed.

Lemma clockOnly_if (complete : str -> bool) (date : str -> str)
  (build : str -> str -> item) :
  clockOnly H (fun b => if complete b
                      then d ← isoDateOrNow H (date b); mret (Some (build b d))
                      else mret None).
Proof.
  intros b w1 w2 S. destruct (complete b); [|simpl; auto].
  destruct (isoDateOrNow_sameClock (date b) w1 w2 S) as [E1 E2].
  monad.
  destruct (isoDateOrNow H (date b) w1) as [[d1|e1] v1],
           (isoDateOrNow H (date b) w2) as [[d2|e2] v2];
    simpl in *; try discriminate; split; trivial; congruence.
Qed.

Lemma pushItems_sameClock body :
  clockOnly H body ->
  forall blocks w1 w2,
    sameClock H w1 w2 ->
    fst (pushItems body blocks w1) = fst (pushItems body blocks w2)
    /\ sameClock H (snd (pushItems body blocks w1))
         (snd (pushItems body blocks w2)).
Proof.
  intros B. induction blocks as [|b rest IH]; intros w1 w2 S.
  - simpl. auto.
  - rewrite !pushItems_cons.
    destruct (B b w1 w2 S) as [E1 E2].
    destruct (body b w1) as [[o1|e1] v1], (body b w2) as [[o2|e2] v2];
      simpl in *; try discriminate; [|split; [congruence|assumption]].
    injection E1 as ->.
    destruct (IH v1 v2 E2) as [F1 F2].
    destruct (pushItems body rest v1) as [[l1|e1] u1],
             (pushItems body rest v2) as [[l2|e2] u2];
      simpl in *; try discriminate; [|split; [congruence|assumption]].
    injection F1 as ->. now split.
Qed.

Lemma parseRSSFeed_sameClock xml w1 w2 :
  sameClock H w1 w2 ->
  fst (parseRSSFeed H xml w1) = fst (parseRSSFeed H xml w2).
Proof.
  intros S. rewrite !parseRSSFeed_eq.
  destruct (pushItems_sameClock (rssItem H)
              (clockOnly_if rssComplete rssDate rssItemOf) (rssBlocks xml) w1 w2 S)
    as [E1 E2].
  destruct (pushItems (rssItem H) (rssBlocks xml) w1) as [[l1|e1] v1],
           (pushItems (rssItem H) (rssBlocks xml) w2) as [[l2|e2] v2];
    simpl in *; try discriminate; trivial.
  assert (l1 = l2) by congruence. subst l2.
  destruct (length l1 =? 0)%nat; trivial.
  apply (pushItems_sameClock (atomEntry H)
           (clockOnly_if atomComplete atomDate atomItemOf)); trivial.
Qed.

(** A loop over blocks that all carry their date reads no clock. *)
Lemma pushItems_dated (complete : str -> bool) (date : str -> str)
  (build : str -> str -> item) blocks :
  Forall (fun b => complete b = true -> truthy (date b) = true) blocks ->
  exists r, forall w,
    pushItems (fun b => if complete b
                        then d ← isoDateOrNow H (date b); mret (Some (build b d))
                        else mret None) blocks w = (r, w).
Proof.
  induction 1 as [|b rest D _ [r IH]].
  - eexists. intros w. reflexivity.
  - destruct (complete b) eqn:C.
    + destruct (Date_parse H (date b)) as [t|] eqn:P.
      * exists (match r with
                | Ok items => Ok (build b (toISOString t) :: items)
                | Throw e => Throw e
                end).
        intros w. rewrite pushItems_cons, C. monad.
        rewrite (isoDateOrNow_dated H _ t w (D eq_refl) P), IH.
        now destruct r.
      * exists (Throw (RangeError (u "Invalid time value"))).
        intros w. rewrite pushItems_cons, C. monad.
        now rewrite (isoDateOrNow_unreadable H _ w (D eq_refl) P).
    + exists r. intros w. rewrite pushItems_cons, C. simpl. rewrite IH.
      now destruct r.
Qed.

Lemma parseRSSFeed_dated xml w1 w2 :
  allDated xml ->
  fst (parseRSSFeed H xml w1) = fst (parseRSSFeed H xml w2).
Proof.
  intros [D1 D2]. rewrite !parseRSSFeed_eq.
  destruct (pushItems_dated rssComplete rssDate rssItemOf _ D1) as [r1 E1].
  destruct (pushItems_dated atomComplete atomDate atomItemOf _ D2) as [r2 E2].
  change (pushItems (rssItem H)) with
    (pushItems (fun b => if rssComplete b
                         then d ← isoDateOrNow H (rssDate b);
                              mret (Some (rssItemOf b d))
                         else mret None)).
  change (pushItems (atomEntry H)) with
    (pushItems (fun b => if atomComplete b
                         then d ← isoDateOrNow H (atomDate b);
                              mret (Some (atomItemOf b d))
                         else mret None)).
  rewrite !E1. destruct r1 as [items|e]; trivial.
  destruct (length items =? 0)%nat; trivial. now rewrite !E2.
Qed.
End Loops.

(** ** The parser: what the specification says of it *)

Section ParserClaims.
Import RssFeed Block.

Lemma rssBodyOf H : bodyOf (rssItem H) rssComplete rssItemOf.
Proof. intros b w. apply rssItem_cases. Qed.

Lemma atomBodyOf H : bodyOf (atomEntry H) atomComplete atomItemOf.
Proof. intros b w. apply atomEntry_cases. Qed.

(** An [<item>] block with title, link and a date the host cannot read
    makes the first loop's body throw. *)
Lemma rssItem_unreadable H b w :
  rssComplete b = true -> truthy (rssDate b) = true ->
  Date_parse H (rssDate b) = None ->
  rssItem H b w = (Throw (RangeError (u "Invalid time value")), w).
Proof.
  intros C T P. rewrite rssItem_eq, C. monad.
  now rewrite (isoDateOrNow_unreadable H _ w T P).
Qed.

(** C1, as the code has it: the parser does throw.  On the one-item feed
    whose [pubDate] reads [not a date], on every host whose Date.parse
    does not recognise that text, [toISOString] raises a RangeError and
    [parseRSSFeed] lets it escape instead of passing over the block. *)
Theorem parseRSSFeed_throws_on_unreadable_date (H : Host) (w : World) :
  Date_parse H (u "not a date") = None ->
  parseRSSFeed H Examples.unreadableDate w
  = (Throw (RangeError (u "Invalid time value")), w).
Proof.
  intros P. rewrite parseRSSFeed_eq.
  replace (rssBlocks Examples.unreadableDate)
    with [Examples.unreadableDateBlock] by (vm_compute; reflexivity).
  rewrite pushItems_cons, (rssItem_unreadable H _ w); trivial;
    vm_compute; reflexivity.
Qed.

Lemma parseRSSFeed_throws_on_unreadable_date_witness :
  Date_parse Examples.host (u "not a date") = None
  /\ parseRSSFeed Examples.host Examples.unreadableDate Reference.start
     = (Throw (RangeError (u "Invalid time value")), Reference.start).
Proof.
  split; [reflexivity|].
  apply (parseRSSFeed_throws_on_unreadable_date Examples.host Reference.start).
  reflexivity.
Defined.

(** A loop body throws nothing but the RangeError of [toISOString]. *)
Lemma isoDateOrNow_throws H x w e w' :
  isoDateOrNow H x w = (Throw e, w') ->
  e = RangeError (u "Invalid time value").
Proof.
  unfold isoDateOrNow. destruct (truthy x).
  - destruct (Date_parse H x); intros E; inversion E; reflexivity.
  - intros E. inversion E.
Qed.

Lemma rssItem_throws H b w e w' :
  rssItem H b w = (Throw e, w') -> e = RangeError (u "Invalid time value").
Proof.
  rewrite rssItem_eq. destruct (rssComplete b); [|discriminate]. monad.
  destruct (isoDateOrNow H (rssDate b) w) as [[d|e0] w1] eqn:E;
    [discriminate|].
  intros T. inversion T; subst. exact (isoDateOrNow_throws _ _ _ _ _ E).
Qed.

Lemma atomEntry_unreadable H b w :
  atomComplete b = true -> truthy (atomDate b) = true ->
  Date_parse H (atomDate b) = None ->
  atomEntry H b w = (Throw (RangeError (u "Invalid time value")), w).
Proof.
  intros C T P. rewrite atomEntry_eq, C. monad.
  now rewrite (isoDateOrNow_unreadable H _ w T P).
Qed.

Lemma atomEntry_throws H b w e w' :
  atomEntry H b w = (Throw e, w') -> e = RangeError (u "Invalid time value").
Proof.
  rewrite atomEntry_eq. destruct (atomComplete b); [|discriminate]. monad.
  destruct (isoDateOrNow H (atomDate b) w) as [[d|e0] w1] eqn:E;
    [discriminate|].
  intros T. inversion T; subst. exact (isoDateOrNow_throws _ _ _ _ _ E).
Qed.

(** A loop that has a throwing block among its blocks throws: nothing in
    the loop catches, and the blocks before it either go through or
    throw the same error themselves. *)
Lemma pushItems_reaches_throw (body : str -> M (option item)) b blocks :
  (forall p v e v',
     body p v = (Throw e, v') -> e = RangeError (u "Invalid time value")) ->
  (forall v, body b v = (Throw (RangeError (u "Invalid time value")), v)) ->
  In b blocks ->
  forall w,
    exists w',
      pushItems body blocks w
      = (Throw (RangeError (u "Invalid time value")), w').
Proof.
  intros Only Bad. induction blocks as [|p rest IH]; intros I w.
  - destruct I.
  - rewrite pushItems_cons. destruct I as [->|I].
    + rewrite Bad. eauto.
    + destruct (body p w) as [[o|e] w1] eqn:E.
      * destruct (IH I w1) as [w' E']. rewrite E'. eauto.
      * rewrite (Only _ _ _ _ E). eauto.
Qed.

(** A loop over blocks that all lack a title or a link pushes nothing. *)
Lemma pushItems_incomplete H blocks w :
  Forall (fun p => rssComplete p = false) blocks ->
  pushItems (rssItem H) blocks w = (Ok [], w).
Proof.
  intros F. induction F as [|p rest C F IH]; [reflexivity|].
  rewrite pushItems_cons, rssItem_eq, C. simpl. now rewrite IH.
Qed.

(** C2, as the code has it: a date that is present and cannot be read is
    not replaced by the current time.  Wherever a document has an
    [<item>] block with a title, a link and such a date, the parser
    emits nothing at all: [toISOString] raises a RangeError, nothing
    catches it, and [parseRSSFeed] throws.  The same holds of an
    [<entry>] block, in a document whose items, if any, all lack a title
    or a link, so that the second loop runs. *)
Theorem unreadable_date_stops_the_parser (H : Host) (xml b : str) (w : World) :
  (In b (rssBlocks xml) ->
   rssComplete b = true -> truthy (rssDate b) = true ->
   Date_parse H (rssDate b) = None ->
   exists w',
     parseRSSFeed H xml w
     = (Throw (RangeError (u "Invalid time value")), w'))
  /\ (Forall (fun p => rssComplete p = false) (rssBlocks xml) ->
      In b (atomBlocks xml) ->
      atomComplete b = true -> truthy (atomDate b) = true ->
      Date_parse H (atomDate b) = None ->
      exists w',
        parseRSSFeed H xml w
        = (Throw (RangeError (u "Invalid time value")), w')).
Proof.
  split.
  - intros I C T P. rewrite parseRSSFeed_eq.
    destruct (pushItems_reaches_throw (rssItem H) b (rssBlocks xml)
                (rssItem_throws H)
                (fun v => rssItem_unreadable H b v C T P) I w) as [w' E].
    rewrite E. eauto.
  - intros F I C T P. rewrite parseRSSFeed_eq.
    rewrite (pushItems_incomplete H _ w F). simpl.
    exact (pushItems_reaches_throw (atomEntry H) b (atomBlocks xml)
             (atomEntry_throws H)
             (fun v => atomEntry_unreadable H b v C T P) I w).
Qed.

Lemma unreadable_date_stops_the_parser_witness :
  (exists w',
     parseRSSFeed Examples.host Examples.goodThenUnreadable Reference.start
     = (Throw (RangeError (u "Invalid time value")), w'))
  /\ (exists w',
        parseRSSFeed Examples.host Examples.unreadableEntryFeed
          Reference.start
        = (Throw (RangeError (u "Invalid time value")), w')).
Proof.
  split.
  - apply (proj1 (unreadable_date_stops_the_parser Examples.host
                    Examples.goodThenUnreadable Examples.yesterdayBlock
                    Reference.start)).
    + vm_compute. right. left. reflexivity.
    + vm_compute. reflexivity.
    + vm_compute. reflexivity.
    + vm_compute. reflexivity.
  - apply (proj2 (unreadable_date_stops_the_parser Examples.host
                    Examples.unreadableEntryFeed Examples.yesterdayEntry
                    Reference.start)).
    + replace (rssBlocks Examples.unreadableEntryFeed) with (@nil str)
        by (vm_compute; reflexivity).
      constructor.
    + vm_compute. right. left. reflexivity.
    + vm_compute. reflexivity.
    + vm_compute. reflexivity.
    + vm_compute. reflexivity.
Defined.

(** The branch next to it, for a date field that is absent or empty: a
    block with a title and a link is then emitted with the current time,
    one reading of the clock, as its publish timestamp; in both loops. *)
Lemma absent_date_gets_current_time (H : Host) (b : str) (w : World) :
  (rssComplete b = true -> truthy (rssDate b) = false ->
   rssItem H b w
   = (Ok (Some (rssItemOf b (toISOString (clock H (ticks w))))), tick w))
  /\ (atomComplete b = true -> truthy (atomDate b) = false ->
      atomEntry H b w
      = (Ok (Some (atomItemOf b (toISOString (clock H (ticks w))))), tick w)).
Proof.
  split; intros C T.
  - rewrite rssItem_eq, C. monad. now rewrite (isoDateOrNow_absent H _ w T).
  - rewrite atomEntry_eq, C. monad. now rewrite (isoDateOrNow_absent H _ w T).
Qed.

(** The two branches side by side, on two one-block documents. *)
Example absent_date_and_unreadable_date :
  parseRSSFeed Examples.host Examples.dateless Reference.start
  = (Ok [rssItemOf Examples.datelessBlock (u "2026-11-02T08:00:00.000Z")],
     tick Reference.start)
  /\ parseRSSFeed Examples.host Examples.unreadableDate Reference.start
     = (Throw (RangeError (u "Invalid time value")), Reference.start).
Proof. split; vm_compute; reflexivity. Qed.

(** C3 fails as stated: a block that has a title and no link is passed
    over, not emitted. *)
Lemma title_without_link_is_skipped :
  rssBlocks Examples.titleOnly = [u "<title>A</title>"]
  /\ title (u "<title>A</title>") = u "A"
  /\ rssLink (u "<title>A</title>") = []
  /\ parseRSSFeed Examples.host Examples.titleOnly Reference.start
     = (Ok [], Reference.start).
Proof. repeat split; vm_compute; reflexivity. Qed.

(** C3, amended: the parser passes over a block exactly when the block
    lacks a title or lacks a link.  Whenever it returns, the articles it
    returns are, in order, those of the [<item>] blocks that have both,
    or, when no [<item>] block has both, those of the [<entry>] blocks
    that have both. *)
Theorem emitted_iff_title_and_link (H : Host) (xml : str) (w w' : World)
  (items : list item) :
  parseRSSFeed H xml w = (Ok items, w') ->
  match filter rssComplete (rssBlocks xml) with
  | [] =>
      Forall2 (fun b it => exists date, it = atomItemOf b date)
        (filter atomComplete (atomBlocks xml)) items
  | complete =>
      Forall2 (fun b it => exists date, it = rssItemOf b date) complete items
  end.
Proof.
  rewrite parseRSSFeed_eq. intros E.
  destruct (pushItems (rssItem H) (rssBlocks xml) w) as [[l|e] w1] eqn:E1;
    [|discriminate].
  pose proof (pushItems_emitted _ _ _ (rssBodyOf H) _ _ _ _ E1) as F1.
  destruct l as [|it l]; simpl in E.
  - inversion F1 as [E0|]. 
    exact (pushItems_emitted _ _ _ (atomBodyOf H) _ _ _ _ E).
  - inversion E; subst. inversion F1; subst. constructor; trivial.
Qed.

Lemma emitted_iff_title_and_link_witness :
  parseRSSFeed Examples.host Examples.dated Reference.start
  = (Ok Examples.datedItems, Reference.start)
  /\ match filter rssComplete (rssBlocks Examples.dated) with
     | [] =>
         Forall2 (fun b it => exists date, it = atomItemOf b date)
           (filter atomComplete (atomBlocks Examples.dated))
           Examples.datedItems
     | complete =>
         Forall2 (fun b it => exists date, it = rssItemOf b date) complete
           Examples.datedItems
     end.
Proof.
  assert (E : parseRSSFeed Examples.host Examples.dated Reference.start
              = (Ok Examples.datedItems, Reference.start))
    by (vm_compute; reflexivity).
  split; [exact E|].
  exact (emitted_iff_title_and_link Examples.host Examples.dated
           Reference.start Reference.start Examples.datedItems E).
Defined.

(** A test that decides [allDated]. *)
Lemma allDated_check xml :
  forallb (fun b => implb (rssComplete b) (truthy (rssDate b)))
    (rssBlocks xml)
  && forallb (fun b => implb (atomComplete b) (truthy (atomDate b)))
       (atomBlocks xml) = true ->
  allDated xml.
Proof.
  intros E. apply andb_true_iff in E as [E1 E2].
  rewrite forallb_forall in E1, E2.
  split; apply Forall_forall; intros b I C.
  - specialize (E1 b (proj1 (list_elem_of_In _ _) I)). now rewrite C in E1.
  - specialize (E2 b (proj1 (list_elem_of_In _ _) I)). now rewrite C in E2.
Qed.

(** C4 fails as stated: an article without a date takes the time of the
    invocation, so a second invocation on the same text, a moment later,
    returns another list. *)
Lemma second_parse_differs :
  fst (parseRSSFeed Examples.host Examples.dateless Reference.start)
  <> fst (parseRSSFeed Examples.host Examples.dateless
            (snd (parseRSSFeed Examples.host Examples.dateless
                    Reference.start))).
Proof. vm_compute. discriminate. Qed.

(** C4, amended: two invocations on the same text return the same
    ordered list whenever they read the same values off the clock, and
    in particular, whatever the clock, whenever every block that has a
    title and a link has a date field too. *)
Theorem parse_deterministic_up_to_clock (H : Host) (xml : str)
  (w1 w2 : World) :
  (sameClock H w1 w2 ->
   fst (parseRSSFeed H xml w1) = fst (parseRSSFeed H xml w2))
  /\ (allDated xml ->
      fst (parseRSSFeed H xml w1) = fst (parseRSSFeed H xml w2)).
Proof.
  split.
  - apply parseRSSFeed_sameClock.
  - apply parseRSSFeed_dated.
Qed.

Lemma parse_deterministic_up_to_clock_witness :
  (sameClock Examples.frozen Reference.start (tick Reference.start)
   /\ fst (parseRSSFeed Examples.frozen Examples.dateless Reference.start)
      = fst (parseRSSFeed Examples.frozen Examples.dateless
               (tick Reference.start)))
  /\ (allDated Examples.dated
      /\ fst (parseRSSFeed Examples.host Examples.dated Reference.start)
         = fst (parseRSSFeed Examples.host Examples.dated
                  (tick Reference.start))).
Proof.
  assert (S : sameClock Examples.frozen Reference.start (tick Reference.start))
    by (intros n; reflexivity).
  assert (D : allDated Examples.dated)
    by (apply allDated_check; vm_compute; reflexivity).
  split; (split; [assumption|]).
  - exact (proj1 (parse_deterministic_up_to_clock Examples.frozen
                    Examples.dateless Reference.start (tick Reference.start)) S).
  - exact (proj2 (parse_deterministic_up_to_clock Examples.host
                    Examples.dated Reference.start (tick Reference.start)) D).
Defined.
End ParserClaims.

(** ** Configuration that is not there *)

Section Unset.
Variable H : Host.

Lemma env_or_unset env key d : unset env key -> env_or env key d = d.
Proof. unfold unset, env_or. now intros [-> | ->]. Qed.

Lemma requests_logged_console w l args :
  requests (logged w (Console l args)) = requests w.
Proof.
  unfold requests, logged. simpl. rewrite filter_app. simpl.
  rewrite filter_cons_False by (simpl; tauto).
  now rewrite filter_nil, app_nil_r.
Qed.

Lemma requests_logged_sleep w lo hi :
  requests (logged w (Sleep lo hi)) = requests w.
Proof.
  unfold requests, logged. simpl. rewrite filter_app. simpl.
  rewrite filter_cons_False by (simpl; tauto).
  now rewrite filter_nil, app_nil_r.
Qed.

Lemma requests_logged_fetch w r :
  requests (logged w (Fetch r)) = requests w ++ [Fetch r].
Proof.
  unfold requests, logged. simpl. rewrite filter_app. simpl.
  now rewrite filter_cons_True by (simpl; tauto).
Qed.

Lemma rss_fetch_unset c env w :
  unset env (RssFeed.envKeyUrl c) ->
  RssFeed.fetch H c env w
  = (Ok {| RssFeed.raw_title := None; RssFeed.raw_items := Some [] |},
     logged w (rssSkipWarning c)).
Proof.
  intros U. unfold RssFeed.fetch. now rewrite (env_or_unset _ _ _ U).
Qed.

Lemma folo_fetch_unset c env foloCookie w :
  unset env (Folo.listIdKey c) ->
  Folo.fetch H c env foloCookie w
  = (Ok (Folo.feed c []),
     logged w (Console LevelWarn [Folo.skipWarning c])).
Proof.
  intros U. unfold Folo.fetch. now rewrite (env_or_unset _ _ _ U).
Qed.

(** C6: when the key holding its feed URLs (RSS adapters) or its list id
    (API adapters) is unset, an adapter's [fetch] resolves at once to a
    result whose [items] is the empty array; all it does is print one
    warning, and no request is issued. *)
Theorem unset_configuration_fetches_nothing (env : Env)
  (foloCookie : option str) (w : World) :
  (forall c, In c rssSources -> unset env (RssFeed.envKeyUrl c) ->
     exists r w',
       RssFeed.fetch H c env w = (Ok r, w')
       /\ RssFeed.raw_items r = Some []
       /\ w' = logged w (rssSkipWarning c)
       /\ requests w' = requests w)
  /\ (forall c, In c foloSources -> unset env (Folo.listIdKey c) ->
        exists r w',
          Folo.fetch H c env foloCookie w = (Ok r, w')
          /\ Folo.items r = Some []
          /\ w' = logged w (Console LevelWarn [Folo.skipWarning c])
          /\ requests w' = requests w).
Proof.
  split; intros c _ U; do 2 eexists.
  - split; [apply rss_fetch_unset, U|].
    repeat split. apply requests_logged_console.
  - split; [apply folo_fetch_unset, U|].
    repeat split. apply requests_logged_console.
Qed.
End Unset.

Lemma unset_configuration_fetches_nothing_witness :
  (In RssFeed.RealEstateNewsSource rssSources
   /\ unset (∅ : Env) (RssFeed.envKeyUrl RssFeed.RealEstateNewsSource)
   /\ exists r w',
        RssFeed.fetch Examples.host RssFeed.RealEstateNewsSource ∅
          Reference.start = (Ok r, w')
        /\ RssFeed.raw_items r = Some []
        /\ w' = logged Reference.start
                  (rssSkipWarning RssFeed.RealEstateNewsSource)
        /\ requests w' = requests Reference.start)
  /\ (In Folo.RealEstateMarketDataSource foloSources
      /\ unset (∅ : Env) (Folo.listIdKey Folo.RealEstateMarketDataSource)
      /\ exists r w',
           Folo.fetch Examples.host Folo.RealEstateMarketDataSource ∅ None
             Reference.start = (Ok r, w')
           /\ Folo.items r = Some []
           /\ w' = logged Reference.start
                     (Console LevelWarn
                        [Folo.skipWarning Folo.RealEstateMarketDataSource])
           /\ requests w' = requests Reference.start).
Proof.
  assert (I1 : In RssFeed.RealEstateNewsSource rssSources)
    by (simpl; auto).
  assert (I2 : In Folo.RealEstateMarketDataSource foloSources)
    by (simpl; auto).
  assert (U1 : unset (∅ : Env) (RssFeed.envKeyUrl RssFeed.RealEstateNewsSource))
    by (left; reflexivity).
  assert (U2 : unset (∅ : Env) (Folo.listIdKey Folo.RealEstateMarketDataSource))
    by (left; reflexivity).
  split; (split; [assumption|split; [assumption|]]).
  - exact (proj1 (unset_configuration_fetches_nothing Examples.host ∅ None
                    Reference.start) _ I1 U1).
  - exact (proj2 (unset_configuration_fetches_nothing Examples.host ∅ None
                    Reference.start) _ I2 U2).
Defined.

(** ** Transform *)

(** C10: [transform] of a null or undefined payload, or of a payload
    without an [items] property, is the empty array, for the RSS adapters
    and for the API adapters alike; and a payload with [items] gives one
    record per item, no more. *)
Theorem transform_of_nothing_is_empty (H : Host) (sourceType : str) :
  (forall c,
     RssFeed.transform H c None sourceType = []
     /\ (forall r, RssFeed.raw_items r = None ->
           RssFeed.transform H c (Some r) sourceType = [])
     /\ (forall r l, RssFeed.raw_items r = Some l ->
           length (RssFeed.transform H c (Some r) sourceType) = length l))
  /\ (forall c,
        Folo.transform H c None sourceType = []
        /\ (forall r, Folo.items r = None ->
              Folo.transform H c (Some r) sourceType = [])
        /\ (forall r l, Folo.items r = Some l ->
              length (Folo.transform H c (Some r) sourceType) = length l)).
Proof.
  split; intros c; (split; [reflexivity|split]).
  - intros r E. unfold RssFeed.transform. now rewrite E.
  - intros r l E. unfold RssFeed.transform. rewrite E. apply length_map.
  - intros r E. unfold Folo.transform. now rewrite E.
  - intros r l E. unfold Folo.transform. rewrite E. apply length_map.
Qed.

Lemma transform_of_nothing_is_empty_witness :
  RssFeed.transform Examples.host RssFeed.RealEstateNewsSource
    (Some {| RssFeed.raw_title := Some (u "x"); RssFeed.raw_items := None |})
    (u "news") = []
  /\ Folo.transform Examples.host Folo.RealEstateCityDataSource
       (Some {| Folo.version := []; Folo.raw_title := [];
                Folo.description := []; Folo.language := [];
                Folo.items := None |})
       (u "news") = [].
Proof.
  split.
  - exact (proj1 (proj2 (proj1 (transform_of_nothing_is_empty Examples.host
             (u "news")) RssFeed.RealEstateNewsSource))
             {| RssFeed.raw_title := Some (u "x"); RssFeed.raw_items := None |}
             eq_refl).
  - exact (proj1 (proj2 (proj2 (transform_of_nothing_is_empty Examples.host
             (u "news")) Folo.RealEstateCityDataSource))
             {| Folo.version := []; Folo.raw_title := [];
                Folo.description := []; Folo.language := [];
                Folo.items := None |} eq_refl).
Defined.

(** ** Categories the registry does not have *)

(** C5: for a category that is no key of the registry,
    [fetchDataByCategory] resolves to the empty array and never throws;
    all it does is print one line, without any request.  The line is the
    warning of [fetchDataByCategory] itself, except for a name that every
    object inherits (such as [constructor]): the registry lookup finds the
    inherited member, and the line is the one [fetchAndTransformDataForType]
    prints through [console.error] for a type without sources. *)
Theorem unknown_category_gives_empty_array (H : Host) (env : Env)
  (category : str) (foloCookie : option str) (w : World) :
  registered H category = false ->
  exists w',
    DataFetchers.fetchDataByCategory H env category foloCookie w = (Ok [], w')
    /\ w' = logged w (if inherited category then noSourcesError category
                      else unknownCategoryWarning category)
    /\ requests w' = requests w.
Proof.
  unfold registered, inherited. intros R.
  unfold DataFetchers.fetchDataByCategory,
    DataFetchers.fetchAndTransformDataForType, DataFetchers.fetchAndTransformDataFrom, DataFetchers.get.
  destruct (DataFetchers.own_property _ category); [discriminate|].
  destruct (existsb _ _); eexists; (split; [reflexivity|split; [reflexivity|]]);
    apply requests_logged_console.
Qed.

Lemma unknown_category_gives_empty_array_witness :
  registered Examples.host (u "sports") = false
  /\ exists w',
       DataFetchers.fetchDataByCategory Examples.host ∅ (u "sports") None
         Reference.start = (Ok [], w')
       /\ w' = logged Reference.start
                 (if inherited (u "sports") then noSourcesError (u "sports")
                  else unknownCategoryWarning (u "sports"))
       /\ requests w' = requests Reference.start.
Proof.
  split; [reflexivity|].
  apply (unknown_category_gives_empty_array Examples.host ∅ (u "sports") None
           Reference.start).
  reflexivity.
Defined.

(** The same lookup with a name every object inherits. *)
Example inherited_name_gives_empty_array :
  registered Examples.host (u "constructor") = false
  /\ DataFetchers.fetchDataByCategory Examples.host ∅ (u "constructor") None
       Reference.start
     = (Ok [], logged Reference.start (noSourcesError (u "constructor"))).
Proof. split; vm_compute; reflexivity. Qed.

(** Outside [fetchDataByCategory], the lookup of a name the registry does
    not have at all throws. *)
Example unguarded_lookup_throws :
  fst (DataFetchers.fetchAndTransformDataForType Examples.host (u "sports")
         ∅ None Reference.start)
  = Throw DataFetchers.undefinedSources.
Proof. reflexivity. Qed.

(** ** Sorting *)

Section SortProps.
Context {A : Type}.
Variable comparefn : A -> A -> option Z.
Variable time : A -> option Z.
Hypothesis comparefn_time :
  forall x y, comparefn x y = time_sub (time y) (time x).

Lemma sort_insert_Permutation x l :
  Permutation (sort_insert comparefn x l) (x :: l).
Proof.
  induction l as [|y l IH]; simpl; [reflexivity|].
  destruct (sortCompare comparefn x y <=? 0)%Z; [reflexivity|].
  rewrite IH. apply perm_swap.
Qed.

Lemma Array_sort_Permutation l : Permutation (Array_sort comparefn l) l.
Proof.
  induction l as [|x l IH]; simpl; [reflexivity|].
  rewrite sort_insert_Permutation. now constructor.
Qed.

Lemma sortCompare_valid x y tx ty :
  time x = Some tx -> time y = Some ty ->
  sortCompare comparefn x y = (ty - tx)%Z.
Proof.
  intros Ex Ey. unfold sortCompare. now rewrite comparefn_time, Ex, Ey.
Qed.

Lemma sort_insert_sorted x l :
  is_Some (time x) -> Forall (fun y => is_Some (time y)) l ->
  StronglySorted (fun a b => notOlder (time a) (time b)) l ->
  StronglySorted (fun a b => notOlder (time a) (time b))
    (sort_insert comparefn x l).
Proof.
  intros [tx Ex] V S. induction S as [|y l S IH F]; simpl.
  - repeat constructor.
  - apply Forall_cons in V as [[ty Ey] V].
    rewrite (sortCompare_valid x y tx ty Ex Ey).
    destruct (ty - tx <=? 0)%Z eqn:C.
    + apply Z.leb_le in C. constructor; [now constructor|].
      constructor.
      * unfold notOlder. rewrite Ex, Ey. lia.
      * eapply Forall_impl; [exact F|]. intros z. unfold notOlder.
        rewrite Ex, Ey. destruct (time z); [lia|tauto].
    + apply Z.leb_gt in C. constructor; [auto|].
      eapply Permutation_Forall; [symmetry; apply sort_insert_Permutation|].
      constructor; trivial.
      unfold notOlder. rewrite Ex, Ey. lia.
Qed.

Lemma Array_sort_sorted l :
  Forall (fun y => is_Some (time y)) l ->
  StronglySorted (fun a b => notOlder (time a) (time b))
    (Array_sort comparefn l).
Proof.
  induction 1 as [|x l Vx V IH]; simpl; [constructor|].
  apply sort_insert_sorted; trivial.
  eapply Permutation_Forall; [symmetry; apply Array_sort_Permutation|trivial].
Qed.

Lemma sorted_distinct_strict l :
  NoDup (map time l) ->
  StronglySorted (fun a b => notOlder (time a) (time b)) l ->
  StronglySorted (fun a b => newer (time a) (time b)) l.
Proof.
  intros N S. induction S as [|x l S IH F]; [constructor|].
  simpl in N. apply NoDup_cons in N as [Nx N].
  constructor; [auto|].
  apply Forall_forall. intros y Iy.
  rewrite Forall_forall in F. specialize (F y Iy).
  assert (time x <> time y).
  { intros E. apply Nx. rewrite E. apply list_elem_of_In, in_map.
    now apply list_elem_of_In. }
  unfold notOlder, newer in *.
  destruct (time x), (time y); try tauto.
  assert (z <> z0) by congruence. lia.
Qed.

(** The sort puts an array whose times are valid and pairwise distinct
    in strictly descending order of time, keeping its elements. *)
Lemma Array_sort_descending l :
  Forall (fun y => is_Some (time y)) l ->
  NoDup (map time l) ->
  Permutation (Array_sort comparefn l) l
  /\ StronglySorted (fun a b => newer (time a) (time b))
       (Array_sort comparefn l).
Proof.
  intros V N. split; [apply Array_sort_Permutation|].
  apply sorted_distinct_strict; [|now apply Array_sort_sorted].
  assert (P : Permutation (map time (Array_sort comparefn l)) (map time l))
    by apply Permutation_map, Array_sort_Permutation.
  now rewrite P.
Qed.
End SortProps.

(** ** Loops that survive their failures *)

Section Survive.
Variable H : Host.

Lemma try_catch_total {A} (m : M A) (h : exn -> M A) :
  (forall e w, exists a w', h e w = (Ok a, w')) ->
  forall w, exists a w', try_catch m h w = (Ok a, w').
Proof.
  intros T w. unfold try_catch. destruct (m w) as [[a|e] w1]; eauto.
Qed.

Lemma collect_total srcs sourceType env foloCookie w :
  exists l w',
    DataFetchers.collect srcs sourceType env foloCookie w = (Ok l, w').
Proof.
  revert w. induction srcs as [|d rest IH]; intros w; simpl.
  - do 2 eexists. reflexivity.
  - monad.
    match goal with
    | |- context [try_catch ?m ?h w] =>
        destruct (try_catch_total m h) with (w := w) as (a & w1 & E)
    end.
    { intros e v. do 2 eexists. reflexivity. }
    rewrite E. destruct (IH w1) as (l & w2 & E2). rewrite E2.
    do 2 eexists. reflexivity.
Qed.

Lemma fetchFeeds_cons filterDays rssUrl rest w :
  RssFeed.fetchFeeds H filterDays (rssUrl :: rest) w =
  match try_catch (RssFeed.fetchFeed H filterDays rssUrl)
          (fun error =>
             console_error [u "Error fetching RSS " ++ rssUrl ++ u ":";
                            exn_message error];;
             mret (Some [])) w with
  | (Ok pushed, w1) =>
      match RssFeed.fetchFeeds H filterDays rest
              (match pushed with
               | None => w1
               | Some _ => logged w1 (Sleep 500 1500)
               end) with
      | (Ok more, w2) => (Ok (default [] pushed ++ more), w2)
      | (Throw e, w2) => (Throw e, w2)
      end
  | (Throw e, w1) => (Throw e, w1)
  end.
Proof.
  simpl. monad.
  destruct (try_catch _ _ w) as [[[l|]|e] w1]; trivial.
Qed.

Lemma fetchFeeds_total filterDays urls w :
  exists l w', RssFeed.fetchFeeds H filterDays urls w = (Ok l, w').
Proof.
  revert w. induction urls as [|rssUrl rest IH]; intros w.
  - do 2 eexists. reflexivity.
  - rewrite fetchFeeds_cons.
    match goal with
    | |- context [try_catch ?m ?h w] =>
        destruct (try_catch_total m h) with (w := w) as (a & w1 & E)
    end.
    { intros e v. do 2 eexists. reflexivity. }
    rewrite E.
    match goal with
    | |- context [RssFeed.fetchFeeds H filterDays rest ?v] =>
        destruct (IH v) as (l & w2 & E2)
    end.
    rewrite E2. do 2 eexists. reflexivity.
Qed.

End Survive.

(** ** Who talks to the network *)

Section Silent.
Variable H : Host.

Lemma silent_ret {A} (a : A) : silent (mret a).
Proof. intros w. reflexivity. Qed.

Lemma silent_throw {A} e : silent (@throw A e).
Proof. intros w. reflexivity. Qed.

Lemma silent_await {A} (r : result A) : silent (await r).
Proof. intros w. reflexivity. Qed.

Lemma silent_bind {A B} (m : M A) (f : A -> M B) :
  silent m -> (forall a, silent (f a)) -> silent (m ≫= f).
Proof.
  intros Sm Sf w. monad. specialize (Sm w).
  destruct (m w) as [[a|e] w1]; simpl in *; [|trivial].
  now rewrite Sf.
Qed.

Lemma silent_try_catch {A} (m : M A) (h : exn -> M A) :
  silent m -> (forall e, silent (h e)) -> silent (try_catch m h).
Proof.
  intros Sm Sh w. unfold try_catch. specialize (Sm w).
  destruct (m w) as [[a|e] w1]; simpl in *; [trivial|].
  now rewrite Sh.
Qed.

Lemma silent_console l args : silent (emit (Console l args)).
Proof. intros w. apply requests_logged_console. Qed.

Lemma silent_sleep lo hi : silent (sleep lo hi).
Proof. intros w. apply requests_logged_sleep. Qed.

Lemma silent_Date_now : silent (Date_now H).
Proof. intros w. reflexivity. Qed.

Lemma silent_isoDateOrNow x : silent (RssFeed.isoDateOrNow H x).
Proof.
  unfold RssFeed.isoDateOrNow. destruct (truthy x).
  - unfold Date_toISOString. destruct (Date_parse H x);
      [apply silent_ret|apply silent_throw].
  - apply silent_bind; [apply silent_Date_now|]. intros t. apply silent_ret.
Qed.

Lemma silent_pushItems body blocks :
  (forall b, silent (body b)) -> silent (RssFeed.pushItems body blocks).
Proof.
  intros B. induction blocks as [|b rest IH]; simpl.
  - apply silent_ret.
  - apply silent_bind; [apply B|]. intros o.
    apply silent_bind; [apply IH|]. intros l. apply silent_ret.
Qed.

Lemma silent_parseRSSFeed xml : silent (RssFeed.parseRSSFeed H xml).
Proof.
  unfold RssFeed.parseRSSFeed.
  apply silent_bind.
  - apply silent_pushItems. intros b. rewrite rssItem_eq.
    destruct (Block.rssComplete b); [|apply silent_ret].
    apply silent_bind; [apply silent_isoDateOrNow|]. intros d. apply silent_ret.
  - intros items. destruct (length items =? 0)%nat; [|apply silent_ret].
    apply silent_pushItems. intros b. rewrite atomEntry_eq.
    destruct (Block.atomComplete b); [|apply silent_ret].
    apply silent_bind; [apply silent_isoDateOrNow|]. intros d. apply silent_ret.
Qed.

Lemma silent_filterRecent filterDays items :
  silent (RssFeed.filterRecent H filterDays items).
Proof.
  induction items as [|it rest IH]; simpl.
  - apply silent_ret.
  - apply silent_bind; [apply silent_Date_now|]. intros t.
    apply silent_bind; [apply IH|]. intros l. apply silent_ret.
Qed.

Lemma silent_digest filterDays rssUrl response :
  silent (digest H filterDays rssUrl response).
Proof.
  unfold digest. destruct (negb (ok response)).
  - apply silent_bind; [apply silent_console|]. intros _. apply silent_ret.
  - apply silent_bind; [apply silent_await|]. intros xml.
    apply silent_bind; [apply silent_parseRSSFeed|]. intros items.
    apply silent_bind.
    { destruct (truthy _); [apply silent_ret|].
      destruct (URL_hostname H rssUrl); [apply silent_ret|apply silent_throw]. }
    intros feedTitle.
    apply silent_bind; [apply silent_filterRecent|]. intros l.
    apply silent_bind; [apply silent_console|]. intros _. apply silent_ret.
Qed.

(** The [try] block of the RSS loop: one line, one request, and then
    whatever the response is worth. *)
Lemma fetchFeed_eq filterDays rssUrl w :
  RssFeed.fetchFeed H filterDays rssUrl w =
  let w1 := logged (logged w (Console LevelLog [u "Fetching RSS: " ++ rssUrl]))
              (Fetch (rssRequest H w rssUrl)) in
  match rssAnswer H w rssUrl with
  | Ok response => digest H filterDays rssUrl response w1
  | Throw e => (Throw e, w1)
  end.
Proof.
  unfold RssFeed.fetchFeed, rssAnswer, rssRequest. monad. simpl.
  unfold randomUserAgent, fetch. simpl.
  change {| trace := trace w ++ [Console LevelLog [u "Fetching RSS: " ++ rssUrl]];
            ticks := ticks w |}
    with (logged w (Console LevelLog [u "Fetching RSS: " ++ rssUrl])).
  rewrite requests_logged_console.
  destruct (network H _ _) as [response|e]; reflexivity.
Qed.
End Silent.

(** ** The RSS adapter, feed by feed *)

Section RssTurns.
Variable H : Host.

Lemma requested_snoc w w' r :
  requests w' = requests w ++ [Fetch r] ->
  requested w' = requested w ++ [requestUrl r].
Proof. intros E. unfold requested. rewrite E, omap_app. reflexivity. Qed.

Lemma silent_rssOnError rssUrl error : silent (rssOnError rssUrl error).
Proof.
  apply silent_bind; [apply silent_console|]. intros _. apply silent_ret.
Qed.

(** One turn of the loop never throws and issues exactly one request, the
    one for its URL; a turn whose request fails pushes nothing. *)
Lemma rss_turn filterDays rssUrl w :
  exists pushed w',
    try_catch (RssFeed.fetchFeed H filterDays rssUrl) (rssOnError rssUrl) w
    = (Ok pushed, w')
    /\ requests w' = requests w ++ [Fetch (rssRequest H w rssUrl)]
    /\ (feedFails H w rssUrl -> default [] pushed = []).
Proof.
  unfold try_catch, feedFails. rewrite fetchFeed_eq. simpl.
  set (w1 := logged (logged w _) _).
  assert (R1 : requests w1 = requests w ++ [Fetch (rssRequest H w rssUrl)]).
  { unfold w1. now rewrite requests_logged_fetch, requests_logged_console. }
  destruct (rssAnswer H w rssUrl) as [response|e].
  - pose proof (silent_digest H filterDays rssUrl response w1) as S.
    destruct (digest H filterDays rssUrl response w1) as [[pushed|e] w2] eqn:D;
      simpl in S.
    + exists pushed, w2. split; [reflexivity|]. split; [congruence|].
      intros F. unfold digest in D. rewrite F in D. simpl in D.
      now inversion D.
    + exists (Some []), (snd (rssOnError rssUrl e w2)).
      split; [reflexivity|]. split; [|reflexivity].
      rewrite silent_rssOnError. congruence.
  - exists (Some []), (snd (rssOnError rssUrl e w1)).
    split; [reflexivity|]. split; [|reflexivity].
    now rewrite silent_rssOnError.
Qed.

Lemma fetchFeeds_step filterDays rssUrl rest w :
  exists pushed w1,
    requests w1 = requests w ++ [Fetch (rssRequest H w rssUrl)]
    /\ (feedFails H w rssUrl -> pushed = [])
    /\ forall more w2,
         RssFeed.fetchFeeds H filterDays rest w1 = (Ok more, w2) ->
         RssFeed.fetchFeeds H filterDays (rssUrl :: rest) w
         = (Ok (pushed ++ more), w2).
Proof.
  destruct (rss_turn filterDays rssUrl w) as (pushed & w1 & E & R & F).
  exists (default [] pushed).
  exists (match pushed with
          | None => w1
          | Some _ => logged w1 (Sleep 500 1500)
          end).
  split; [|split; [exact F|]].
  - destruct pushed; [rewrite requests_logged_sleep|]; exact R.
  - intros more w2 E2. rewrite fetchFeeds_cons.
    change (fun error => _) with (rssOnError rssUrl). rewrite E.
    now rewrite E2.
Qed.

(** Every URL of the list is requested, in order, whatever becomes of
    the requests. *)
Lemma fetchFeeds_requested filterDays urls w l w' :
  RssFeed.fetchFeeds H filterDays urls w = (Ok l, w') ->
  requested w' = requested w ++ urls.
Proof.
  revert w l. induction urls as [|rssUrl rest IH]; intros w l E.
  - inversion E; subst. now rewrite app_nil_r.
  - destruct (fetchFeeds_step filterDays rssUrl rest w)
      as (pushed & w1 & R & _ & St).
    destruct (fetchFeeds_total H filterDays rest w1) as (more & w2 & E2).
    rewrite (St _ _ E2) in E. inversion E; subst.
    rewrite (IH _ _ E2), (requested_snoc _ _ _ R). simpl.
    now rewrite <- app_assoc.
Qed.




End RssTurns.

(** ** Newest first *)

Section Newest.
Variable H : Host.

Lemma byPublishedDateDesc_time x y :
  DataFetchers.byPublishedDateDesc H x y
  = time_sub (unifiedTime H y) (unifiedTime H x).
Proof. reflexivity. Qed.

Lemma byPubDateDesc_time x y :
  RssFeed.byPubDateDesc H x y = time_sub (itemTime H y) (itemTime H x).
Proof. reflexivity. Qed.

(** The aggregator, for a registered type, resolves to the sort of what
    its sources gave. *)
Lemma aggregator_sorts sourceType env foloCookie w :
  registered H sourceType = true ->
  exists cat collected w',
    DataFetchers.own_property (DataFetchers.dataSources H) sourceType
    = Some cat
    /\ DataFetchers.collect (DataFetchers.sources cat) sourceType env
         foloCookie w = (Ok collected, w')
    /\ DataFetchers.fetchAndTransformDataForType H sourceType env foloCookie w
       = (Ok (Array_sort (DataFetchers.byPublishedDateDesc H) collected), w').
Proof.
  unfold registered, DataFetchers.fetchAndTransformDataForType,
    DataFetchers.fetchAndTransformDataFrom, DataFetchers.get.
  destruct (DataFetchers.own_property _ sourceType) as [cat|]; [|discriminate].
  intros _.
  destruct (collect_total (DataFetchers.sources cat) sourceType env
              foloCookie w) as (l & w' & E).
  exists cat, l, w'. split; [reflexivity|]. split; [exact E|].
  monad. now rewrite E.
Qed.

(** The RSS adapter always resolves, and to the sort of what its feeds
    gave. *)
Lemma rss_adapter_sorts c env w :
  exists title allItems w',
    RssFeed.fetch H c env w
    = (Ok {| RssFeed.raw_title := title;
             RssFeed.raw_items :=
               Some (Array_sort (RssFeed.byPubDateDesc H) allItems) |}, w').
Proof.
  unfold RssFeed.fetch.
  destruct (truthy (env_or env (RssFeed.envKeyUrl c) [])); simpl.
  - match goal with
    | |- context [RssFeed.fetchFeeds H ?fd ?l] =>
        destruct (fetchFeeds_total H fd l w) as (allItems & w' & E)
    end.
    exists (Some (RssFeed.sourceName c)), allItems, w'. monad. now rewrite E.
  - exists None, [], (logged w (rssSkipWarning c)). reflexivity.
Qed.

(** C9: both sorts put newest first.  Whatever the registry and the
    sources of the type, whenever the array the aggregator collected from
    them, source after source, has valid and pairwise distinct
    timestamps, the aggregator resolves to the same records in strictly
    descending order of timestamp; the module's own function is the case
    of the module's registry.  Likewise, whenever the array of articles
    the RSS adapter collected from its feeds has valid and pairwise
    distinct timestamps, the adapter resolves to the same articles in
    strictly descending order.  (Both loops always deliver such an
    array: [collect_total], [fetchFeeds_total].) *)
Theorem outputs_sorted_newest_first :
  (forall registry sourceType cat env foloCookie w collected w',
     DataFetchers.own_property registry sourceType = Some cat ->
     DataFetchers.collect (DataFetchers.sources cat) sourceType env
       foloCookie w = (Ok collected, w') ->
     Forall (fun x => is_Some (unifiedTime H x)) collected ->
     NoDup (map (unifiedTime H) collected) ->
     exists out,
       DataFetchers.fetchAndTransformDataFrom H registry sourceType env
         foloCookie w = (Ok out, w')
       /\ Permutation out collected
       /\ StronglySorted
            (fun a b => newer (unifiedTime H a) (unifiedTime H b)) out)
  /\ (forall c env w allItems w',
        truthy (env_or env (RssFeed.envKeyUrl c) []) = true ->
        RssFeed.fetchFeeds H (rssFilterDays env) (urlList c env) w
        = (Ok allItems, w') ->
        Forall (fun x => is_Some (itemTime H x)) allItems ->
        NoDup (map (itemTime H) allItems) ->
        exists out,
          RssFeed.fetch H c env w
          = (Ok {| RssFeed.raw_title := Some (RssFeed.sourceName c);
                   RssFeed.raw_items := Some out |}, w')
          /\ Permutation out allItems
          /\ StronglySorted
               (fun a b => newer (itemTime H a) (itemTime H b)) out).
Proof.
  split.
  - intros registry sourceType cat env foloCookie w collected w' O E V N.
    exists (Array_sort (DataFetchers.byPublishedDateDesc H) collected).
    split.
    + unfold DataFetchers.fetchAndTransformDataFrom, DataFetchers.get.
      rewrite O. monad. now rewrite E.
    + now apply Array_sort_descending.
  - intros c env w allItems w' T E V N.
    exists (Array_sort (RssFeed.byPubDateDesc H) allItems).
    split.
    + unfold RssFeed.fetch. rewrite T. simpl. monad.
      unfold urlList, rssFilterDays in E. now rewrite E.
    + now apply Array_sort_descending.
Qed.
End Newest.

(** ** The API adapters, page by page *)

Section Pages.
Variable H : Host.
Variable c : Folo.config.
Variable env : Env.
Variable foloCookie : option str.

Lemma silent_folo_filterRecent filterDays l :
  silent (Folo.filterRecent H filterDays l).
Proof.
  induction l as [|entry rest IH]; simpl.
  - apply silent_ret.
  - apply silent_bind; [apply silent_await|]. intros d.
    apply silent_bind; [apply silent_Date_now|]. intros t.
    apply silent_bind; [apply IH|]. intros k. apply silent_ret.
Qed.

Lemma silent_onError i error : silent (Folo.onError c i error).
Proof. apply silent_console. Qed.

Lemma silent_foloDigest filterDays i response :
  silent (foloDigest H c filterDays i response).
Proof.
  unfold foloDigest. destruct (negb (ok response)).
  - apply silent_bind; [apply silent_console|]. intros _. apply silent_ret.
  - apply silent_bind; [apply silent_await|]. intros data.
    assert (N : silent ((if Folo.newsExtras c
                         then console_log
                                [u "No more data for " ++ Folo.fetchingName c
                                   ++ u ", page " ++ Folo.pageNumber i ++ u "."]
                         else mret tt);; mret (Folo.Break []))).
    { apply silent_bind; [|intros _; apply silent_ret].
      destruct (Folo.newsExtras c); [apply silent_console|apply silent_ret]. }
    destruct data as [[[|first more]|]|]; trivial.
    apply silent_bind; [apply silent_folo_filterRecent|]. intros l.
    apply silent_bind; [apply silent_await|]. intros pushed.
    destruct (Folo.publishedAt _); [apply silent_ret|].
    apply silent_bind; [apply silent_onError|]. intros _. apply silent_ret.
Qed.

Lemma silent_foloOnError i error : silent (foloOnError c i error).
Proof.
  apply silent_bind; [apply silent_onError|]. intros _. apply silent_ret.
Qed.

(** The [try] block of the page loop: one line, one request, and then
    whatever the response is worth; or no request at all when the API's
    address is not configured. *)
Lemma fetchPage_eq filterDays listId i after w :
  Folo.fetchPage H c env foloCookie filterDays listId i after w =
  let w0 := logged w (Console LevelLog
                        [u "Fetching " ++ Folo.fetchingName c ++ u ", page "
                           ++ Folo.pageNumber i ++ u "..."]) in
  match env !! u "FOLO_DATA_API" with
  | Some api =>
      let r := foloRequest H c api foloCookie listId w after in
      match network H (length (requests w)) r with
      | Ok response =>
          foloDigest H c filterDays i response (logged w0 (Fetch r))
      | Throw e => (Throw e, logged w0 (Fetch r))
      end
  | None => (Throw (TypeError (u "Invalid URL")), w0)
  end.
Proof.
  unfold Folo.fetchPage, foloRequest. monad. simpl.
  destruct (env !! u "FOLO_DATA_API") as [api|]; [|reflexivity].
  unfold fetch. simpl.
  change {| trace := trace w ++ [?e]; ticks := ticks w |} with (logged w e).
  rewrite requests_logged_console.
  destruct (network H _ _) as [response|e]; reflexivity.
Qed.

(** A turn whose request gets an answer that stops the pagination ends
    the loop with nothing pushed, having issued that one request. *)
Lemma stopping_turn filterDays listId i after w api :
  env !! u "FOLO_DATA_API" = Some api ->
  stops (network H (length (requests w))
           (foloRequest H c api foloCookie listId w after)) ->
  exists w',
    try_catch (Folo.fetchPage H c env foloCookie filterDays listId i after)
      (foloOnError c i) w = (Ok (Folo.Break []), w')
    /\ requests w'
       = requests w ++ [Fetch (foloRequest H c api foloCookie listId w after)].
Proof.
  intros A S. unfold try_catch. rewrite fetchPage_eq, A. simpl.
  set (r := foloRequest H c api foloCookie listId w after) in *.
  set (w1 := logged (logged w _) (Fetch r)).
  assert (R1 : requests w1 = requests w ++ [Fetch r]).
  { unfold w1. now rewrite requests_logged_fetch, requests_logged_console. }
  destruct (network H (length (requests w)) r) as [response|e]; simpl in S.
  - pose proof (silent_foloDigest filterDays i response w1) as Q.
    destruct (foloDigest H c filterDays i response w1) as [[s|e] w2] eqn:D;
      simpl in Q.
    + exists w2. split; [|congruence].
      unfold foloDigest in D. destruct (ok response); simpl in D.
      * monad. simpl in D.
        destruct (json response) as [[[[|first more]|]|]|e]; try tauto;
          destruct (Folo.newsExtras c); simpl in D; inversion D; reflexivity.
      * inversion D; reflexivity.
    + exists (snd (foloOnError c i e w2)). split; [reflexivity|].
      rewrite silent_foloOnError. congruence.
  - exists (snd (foloOnError c i e w1)). split; [reflexivity|].
    now rewrite silent_foloOnError.
Qed.

Lemma fetchPages_S filterDays listId n i after w :
  Folo.fetchPages H c env foloCookie filterDays listId (S n) i after w =
  match try_catch (Folo.fetchPage H c env foloCookie filterDays listId i after)
          (foloOnError c i) w with
  | (Ok (Folo.Break pushed), w1) => (Ok pushed, w1)
  | (Ok (Folo.Next pushed next), w1) =>
      match Folo.fetchPages H c env foloCookie filterDays listId n (i + 1)
              next (logged w1 (Sleep 1000 4000)) with
      | (Ok more, w2) => (Ok (pushed ++ more), w2)
      | (Throw e, w2) => (Throw e, w2)
      end
  | (Throw e, w1) => (Throw e, w1)
  end.
Proof.
  unfold foloOnError. simpl. monad.
  destruct (try_catch _ _ w) as [[[pushed|pushed next]|e] w1]; trivial.
Qed.

(** The page loop itself, after any number of good pages. *)
Lemma pagination_stops k i after w items i' after' w' n api :
  earlierPages H c env foloCookie k i after w items i' after' w' ->
  (k < n)%nat ->
  env !! u "FOLO_DATA_API" = Some api ->
  stops (network H (length (requests w'))
           (foloRequest H c api foloCookie (foloListId c env) w' after')) ->
  exists w'',
    Folo.fetchPages H c env foloCookie (foloFilterDays env) (foloListId c env)
      n i after w = (Ok items, w'')
    /\ requests w''
       = requests w'
           ++ [Fetch (foloRequest H c api foloCookie (foloListId c env)
                        w' after')].
Proof.
  intros E. revert n. induction E as [i after w|k i after w pushed next w1
    items i' after' w' P E IH]; intros n L A S.
  - destruct n as [|n]; [lia|]. rewrite fetchPages_S.
    destruct (stopping_turn (foloFilterDays env) (foloListId c env) i after w
                api A S) as (w'' & T & R).
    rewrite T. eauto.
  - destruct n as [|n]; [lia|]. rewrite fetchPages_S.
    unfold try_catch. rewrite P.
    destruct (IH n ltac:(lia) A S) as (w'' & T & R).
    rewrite T. eauto.
Qed.

(** C7: when, after any number of pages fetched with success, the
    request for the next page (one the page limit still allows) meets a
    transport error, a status that is not a success, or a body without
    results, the API adapter stops paginating at that page, its request
    being the last one issued, and resolves to a feed holding all the
    items the earlier pages pushed. *)
Theorem failing_page_keeps_earlier_items (w : World) (k : nat)
  (items : list Folo.item) (i' : Z) (after' : option str) (w' : World)
  (api : str) :
  truthy (foloListId c env) = true ->
  env !! u "FOLO_DATA_API" = Some api ->
  earlierPages H c env foloCookie k 0 None w items i' after' w' ->
  (k < pageLimit c env)%nat ->
  stops (network H (length (requests w'))
           (foloRequest H c api foloCookie (foloListId c env) w' after')) ->
  exists w'',
    Folo.fetch H c env foloCookie w = (Ok (Folo.feed c items), w'')
    /\ requests w''
       = requests w'
           ++ [Fetch (foloRequest H c api foloCookie (foloListId c env)
                        w' after')].
Proof.
  intros T A E L S.
  destruct (pagination_stops _ _ _ _ _ _ _ _ _ api E L A S) as (w'' & P & R).
  exists w''. split; [|exact R].
  unfold Folo.fetch. unfold foloListId in T. rewrite T. simpl. monad.
  unfold pageLimit, foloFilterDays, foloListId in P. now rewrite P.
Qed.
End Pages.

(** ** The scenarios, run *)

Section Runs.
Import Scenario.

Lemma Forall_is_Some_check {A B} (f : A -> option B) (l : list A) :
  forallb (fun x => match f x with Some _ => true | None => false end) l
  = true ->
  Forall (fun x => is_Some (f x)) l.
Proof.
  rewrite forallb_forall. intros E. apply Forall_forall. intros x I.
  specialize (E x (proj1 (list_elem_of_In _ _) I)).
  destruct (f x); [eauto|discriminate].
Qed.


(** The scenario of the three feeds, end to end: the articles of the
    first and the third feed come out, newest first. *)
Example three_feeds_one_down :
  match fst (RssFeed.fetch rssHost RssFeed.RealEstateNewsSource rssEnv
               Reference.start) with
  | Ok r => option_map (map RssFeed.link) (RssFeed.raw_items r)
  | Throw _ => None
  end
  = Some [u "https://c.example/1"; u "https://a.example/1";
          u "https://a.example/2"].
Proof. vm_compute. reflexivity. Qed.

(** What the aggregator collects from the two sources of [twoRegistry]
    is not in order of date: the article of the second source is the
    newest. *)
Example two_sources_collected :
  map u_title collectedTwoItems
  = [Some (u "A1"); Some (u "A2"); Some (u "C1")]
  /\ map (unifiedTime rssHost) collectedTwoItems
     = map Reference.Date_parse
         [u "2026-11-02T07:00:00Z"; u "2026-11-01T09:00:00Z";
          u "2026-11-02T07:30:00Z"].
Proof. split; vm_compute; reflexivity. Qed.

Lemma outputs_sorted_newest_first_witness :
  (exists out,
     DataFetchers.fetchAndTransformDataFrom rssHost twoRegistry (u "news")
       twoEnv None Reference.start = (Ok out, snd collectedTwo)
     /\ Permutation out collectedTwoItems
     /\ StronglySorted
          (fun a b => newer (unifiedTime rssHost a) (unifiedTime rssHost b))
          out)
  /\ (exists out,
        DataFetchers.fetchAndTransformDataForType rssHost (u "news") rssEnv
          None Reference.start = (Ok out, snd collectedNews)
        /\ Permutation out collectedNewsItems
        /\ StronglySorted
             (fun a b => newer (unifiedTime rssHost a) (unifiedTime rssHost b))
             out)
  /\ (exists out,
        RssFeed.fetch rssHost RssFeed.RealEstateNewsSource rssEnv
          Reference.start
        = (Ok {| RssFeed.raw_title :=
                   Some (RssFeed.sourceName RssFeed.RealEstateNewsSource);
                 RssFeed.raw_items := Some out |}, snd allFeeds)
        /\ Permutation out allFeedsItems
        /\ StronglySorted
             (fun a b => newer (itemTime rssHost a) (itemTime rssHost b))
             out).
Proof.
  split; [|split].
  - assert (O : DataFetchers.own_property twoRegistry (u "news")
                = Some twoSources)
      by reflexivity.
    assert (E : DataFetchers.collect (DataFetchers.sources twoSources)
                  (u "news") twoEnv None Reference.start
                = (Ok collectedTwoItems, snd collectedTwo))
      by (vm_compute; reflexivity).
    assert (V : Forall (fun x => is_Some (unifiedTime rssHost x))
                  collectedTwoItems)
      by (apply Forall_is_Some_check; vm_compute; reflexivity).
    assert (N : NoDup (map (unifiedTime rssHost) collectedTwoItems))
      by (apply (bool_decide_unpack _); vm_compute; exact I).
    exact (proj1 (outputs_sorted_newest_first rssHost) twoRegistry (u "news")
             twoSources twoEnv None Reference.start collectedTwoItems
             (snd collectedTwo) O E V N).
  - assert (O : DataFetchers.own_property (DataFetchers.dataSources rssHost)
                  (u "news") = Some newsCategory)
      by reflexivity.
    assert (E : DataFetchers.collect (DataFetchers.sources newsCategory)
                  (u "news") rssEnv None Reference.start
                = (Ok collectedNewsItems, snd collectedNews))
      by (vm_compute; reflexivity).
    assert (V : Forall (fun x => is_Some (unifiedTime rssHost x))
                  collectedNewsItems)
      by (apply Forall_is_Some_check; vm_compute; reflexivity).
    assert (N : NoDup (map (unifiedTime rssHost) collectedNewsItems))
      by (apply (bool_decide_unpack _); vm_compute; exact I).
    exact (proj1 (outputs_sorted_newest_first rssHost)
             (DataFetchers.dataSources rssHost) (u "news")
             newsCategory rssEnv None Reference.start collectedNewsItems
             (snd collectedNews) O E V N).
  - assert (T : truthy (env_or rssEnv
                          (RssFeed.envKeyUrl RssFeed.RealEstateNewsSource) [])
                = true) by (vm_compute; reflexivity).
    assert (E : RssFeed.fetchFeeds rssHost (rssFilterDays rssEnv)
                  (urlList RssFeed.RealEstateNewsSource rssEnv)
                  Reference.start = (Ok allFeedsItems, snd allFeeds))
      by (vm_compute; reflexivity).
    assert (V : Forall (fun x => is_Some (itemTime rssHost x)) allFeedsItems)
      by (apply Forall_is_Some_check; vm_compute; reflexivity).
    assert (N : NoDup (map (itemTime rssHost) allFeedsItems))
      by (apply (bool_decide_unpack _); vm_compute; exact I).
    exact (proj2 (outputs_sorted_newest_first rssHost)
             RssFeed.RealEstateNewsSource rssEnv Reference.start
             allFeedsItems (snd allFeeds) T E V N).
Defined.

Lemma failing_page_keeps_earlier_items_witness :
  truthy (foloListId Folo.RealEstateNewsDataSource apiEnv) = true
  /\ (1 < pageLimit Folo.RealEstateNewsDataSource apiEnv)%nat
  /\ stops (network apiHost
              (length (requests (logged (snd firstPage) (Sleep 1000 4000))))
              (foloRequest apiHost Folo.RealEstateNewsDataSource api None
                 (foloListId Folo.RealEstateNewsDataSource apiEnv)
                 (logged (snd firstPage) (Sleep 1000 4000)) firstPageCursor))
  /\ exists w'',
       Folo.fetch apiHost Folo.RealEstateNewsDataSource apiEnv None
         Reference.start
       = (Ok (Folo.feed Folo.RealEstateNewsDataSource (firstPageItems ++ [])),
          w'')
       /\ requests w''
          = requests (logged (snd firstPage) (Sleep 1000 4000))
              ++ [Fetch (foloRequest apiHost Folo.RealEstateNewsDataSource api
                           None
                           (foloListId Folo.RealEstateNewsDataSource apiEnv)
                           (logged (snd firstPage) (Sleep 1000 4000))
                           firstPageCursor)].
Proof.
  assert (T : truthy (foloListId Folo.RealEstateNewsDataSource apiEnv) = true)
    by (vm_compute; reflexivity).
  assert (A : apiEnv !! u "FOLO_DATA_API" = Some api)
    by (vm_compute; reflexivity).
  assert (P : Folo.fetchPage apiHost Folo.RealEstateNewsDataSource apiEnv None
                (foloFilterDays apiEnv)
                (foloListId Folo.RealEstateNewsDataSource apiEnv) 0 None
                Reference.start
              = (Ok (Folo.Next firstPageItems firstPageCursor), snd firstPage))
    by (vm_compute; reflexivity).
  assert (L : (1 < pageLimit Folo.RealEstateNewsDataSource apiEnv)%nat)
    by (vm_compute; lia).
  assert (S : stops (network apiHost
              (length (requests (logged (snd firstPage) (Sleep 1000 4000))))
              (foloRequest apiHost Folo.RealEstateNewsDataSource api None
                 (foloListId Folo.RealEstateNewsDataSource apiEnv)
                 (logged (snd firstPage) (Sleep 1000 4000)) firstPageCursor)))
    by (vm_compute; exact I).
  split; [exact T|]. split; [exact L|]. split; [exact S|].
  exact (failing_page_keeps_earlier_items apiHost Folo.RealEstateNewsDataSource
           apiEnv None Reference.start 1 (firstPageItems ++ []) (0 + 1)%Z
           firstPageCursor (logged (snd firstPage) (Sleep 1000 4000)) api T A
           (earlier_page _ _ _ _ 0 0%Z None Reference.start firstPageItems
              firstPageCursor (snd firstPage) [] (0 + 1)%Z firstPageCursor
              (logged (snd firstPage) (Sleep 1000 4000)) P
              (earlier_none _ _ _ _ (0 + 1)%Z firstPageCursor
                 (logged (snd firstPage) (Sleep 1000 4000))))
           L S).
Defined.

(** The scenario of the two pages, end to end: both items of the first
    page are kept, and two requests were made. *)
Example two_pages_second_empty :
  let r := Folo.fetch apiHost Folo.RealEstateNewsDataSource apiEnv None
             Reference.start in
  match fst r with
  | Ok f => option_map (map Folo.id) (Folo.items f)
  | Throw _ => None
  end = Some [Some (u "1"); Some (u "2")]
  /\ length (requests (snd r)) = 2%nat.
Proof. vm_compute. split; reflexivity. Qed.
End Runs.

(** * Further properties *)

(** ** The matcher *)

Section MatcherFacts.
Context {R : Type}.
Variable ci : bool.

Lemma rmatch_first_char (r : regex) p s cap (k : str -> option str -> option R) :
  first_char r = Some p ->
  match s with [] => True | c :: _ => chr_match ci p c = false end ->
  rmatch ci r s cap k = None.
Proof.
  revert s cap k. induction r as [l| | | | |r IH|r1 IH1 r2 IH2];
    intros s cap k F N; try discriminate.
  - destruct l as [|a l]; [discriminate|]. injection F as ->. simpl.
    destruct s as [|c s]; [reflexivity|]. now rewrite N.
  - simpl. now apply IH.
  - simpl. now apply IH1.
Qed.
End MatcherFacts.

Lemma match_here_first_char ci r p s :
  first_char r = Some p ->
  match s with [] => True | c :: _ => chr_match ci p c = false end ->
  match_here ci r s = None.
Proof. apply rmatch_first_char. Qed.

Lemma str_match_without ci r p s :
  first_char r = Some p -> without ci p s -> str_match ci r s = None.
Proof.
  intros F W. induction W as [|c s N W IH]; simpl.
  - now rewrite (match_here_first_char ci r p []).
  - now rewrite (match_here_first_char ci r p (c :: s)).
Qed.

Lemma exec_all_without ci r p s skip :
  first_char r = Some p -> without ci p s -> exec_all ci r s skip = [].
Proof.
  intros F W. revert skip. induction W as [|c s N W IH]; intros skip; simpl.
  - reflexivity.
  - destruct skip; [|apply IH].
    rewrite (match_here_first_char ci r p (c :: s)) by trivial. apply IH.
Qed.

Lemma replace_all_without ci r f p s :
  first_char r = Some p -> without ci p s -> replace_all ci r f s 0 = s.
Proof.
  intros F W. induction W as [|c s N W IH]; simpl.
  - reflexivity.
  - rewrite (match_here_first_char ci r p (c :: s)) by trivial. now rewrite IH.
Qed.

(** A code unit other than an ASCII letter is matched by itself alone,
    whatever the flag. *)
Lemma chr_match_other ci p c :
  (p < 65 \/ 90 < p < 97 \/ 122 < p)%N -> c <> p -> chr_match ci p c = false.
Proof.
  intros P N. unfold chr_match, asciiUpper. destruct ci.
  - destruct (c <? 128)%N eqn:A; [|reflexivity]. simpl.
    apply N.eqb_neq.
    destruct ((97 <=? c) && (c <=? 122))%N eqn:C,
             ((97 <=? p) && (p <=? 122))%N eqn:D;
      rewrite ?andb_true_iff, ?andb_false_iff, ?N.leb_le, ?N.leb_gt in *; lia.
  - now apply N.eqb_neq.
Qed.

Lemma free_of_without ci p s :
  (p < 65 \/ 90 < p < 97 \/ 122 < p)%N -> free_of p s -> without ci p s.
Proof.
  intros P F. eapply Forall_impl; [exact F|].
  intros c N. now apply chr_match_other.
Qed.

(** ** Text without markup, text without entities *)

Section NoMarkup.
Import RssFeed Block.

Lemma lt_is_no_letter : (60 < 65 \/ 90 < 60 < 97 \/ 122 < 60)%N.
Proof. lia. Qed.

Lemma extractTag_without_lt xml tagName :
  free_of 60 xml -> extractTag xml tagName = [].
Proof.
  intros F. pose proof (free_of_without true 60 xml lt_is_no_letter F) as W.
  unfold extractTag.
  rewrite (str_match_without true (cdataRegex tagName) 60 xml)
    by (trivial; vm_compute; reflexivity).
  now rewrite (str_match_without true (tagRegex tagName) 60 xml)
    by (trivial; vm_compute; reflexivity).
Qed.

(** X1: a text in which no [<] occurs holds no feed: the parser returns
    the empty list without throwing or reading the clock, and the two
    extractors return the empty string, whatever the tag, its name being
    a plain one. *)
Theorem markup_free_text_yields_nothing (H : Host) (xml : str) (w : World) :
  free_of 60 xml ->
  parseRSSFeed H xml w = (Ok [], w)
  /\ (forall tagName, plain_name tagName -> extractTag xml tagName = [])
  /\ extractAtomLink xml = [].
Proof.
  intros F. pose proof (free_of_without true 60 xml lt_is_no_letter F) as W.
  split; [|split].
  - rewrite parseRSSFeed_eq. unfold rssBlocks, atomBlocks.
    rewrite (exec_all_without true rssItemRegex 60 xml)
      by (trivial; vm_compute; reflexivity).
    simpl.
    now rewrite (exec_all_without true atomEntryRegex 60 xml)
      by (trivial; vm_compute; reflexivity).
  - intros tagName _. now apply extractTag_without_lt.
  - unfold extractAtomLink.
    rewrite (str_match_without true altLinkRegex 60 xml)
      by (trivial; vm_compute; reflexivity).
    now rewrite (str_match_without true hrefLinkRegex 60 xml)
      by (trivial; vm_compute; reflexivity).
Qed.

Lemma markup_free_text_yields_nothing_witness :
  parseRSSFeed Examples.host (u "404 page not found") Reference.start
  = (Ok [], Reference.start)
  /\ (forall tagName,
        plain_name tagName -> extractTag (u "404 page not found") tagName = [])
  /\ extractAtomLink (u "404 page not found") = [].
Proof.
  apply (markup_free_text_yields_nothing Examples.host
           (u "404 page not found") Reference.start).
  vm_compute. repeat constructor; discriminate.
Defined.

Lemma amp_is_no_letter : (38 < 65 \/ 90 < 38 < 97 \/ 122 < 38)%N.
Proof. lia. Qed.

(** X2: [decodeHTMLEntities] leaves a text without [&] as it is. *)
Theorem decode_without_ampersand (text : str) :
  free_of 38 text -> decodeHTMLEntities text = text.
Proof.
  intros F. pose proof (free_of_without false 38 text amp_is_no_letter F) as W.
  unfold decodeHTMLEntities. destruct (truthy text) eqn:T; simpl.
  - unfold replace_lit.
    repeat (rewrite (replace_all_without false _ _ 38 text)
              by (trivial; vm_compute; reflexivity)).
    reflexivity.
  - now destruct text.
Qed.

Lemma decode_without_ampersand_witness :
  decodeHTMLEntities (u "Prices rise <again>") = u "Prices rise <again>".
Proof.
  apply decode_without_ampersand.
  vm_compute. repeat constructor; discriminate.
Defined.
End NoMarkup.

(** ** Round trips through [extractTag] *)

Section RoundTrip.
Import RssFeed.

Lemma chr_match_self ci a : (a < 128)%N -> chr_match ci a a = true.
Proof.
  intros A. unfold chr_match. destruct ci; [|apply N.eqb_refl].
  apply andb_true_iff. split; [now apply N.ltb_lt|apply N.eqb_refl].
Qed.

Lemma lit_match_self ci p s : ascii_text p -> lit_match ci p (p ++ s) = Some s.
Proof.
  induction 1 as [|a p A _ IH]; simpl; [reflexivity|].
  now rewrite chr_match_self.
Qed.

(** A code unit that is no ASCII letter matches no other pattern
    character. *)
Lemma chr_match_no_letter ci p c :
  (c < 65 \/ 90 < c < 97 \/ 122 < c)%N -> c <> p -> chr_match ci p c = false.
Proof.
  intros P N. unfold chr_match, asciiUpper. destruct ci.
  - destruct (c <? 128)%N eqn:A; [|reflexivity]. simpl.
    apply N.eqb_neq.
    destruct ((97 <=? c) && (c <=? 122))%N eqn:C,
             ((97 <=? p) && (p <=? 122))%N eqn:D;
      rewrite ?andb_true_iff, ?andb_false_iff, ?N.leb_le, ?N.leb_gt in *; lia.
  - now apply N.eqb_neq.
Qed.

Lemma star_lazy_pass {R} ci (k : str -> option R) v rest :
  (forall c s, c ∈ v -> k (c :: s) = None) ->
  star_lazy ci AnyChar k (v ++ rest) = star_lazy ci AnyChar k rest.
Proof.
  induction v as [|c v IH]; intros F; [reflexivity|].
  simpl. rewrite (F c (v ++ rest)) by apply list_elem_of_here.
  apply IH. intros c' s I. apply F. now apply list_elem_of_further.
Qed.

Lemma star_lazy_now {R} ci cl (k : str -> option R) s x :
  k s = Some x -> star_lazy ci cl k s = Some x.
Proof. intros E. destruct s; simpl; now rewrite E. Qed.

Lemma star_greedy_stop {R} ci cl (k : str -> option R) c s :
  in_class ci cl c = false -> star_greedy ci cl k (c :: s) = k (c :: s).
Proof. intros E. simpl. now rewrite E. Qed.

Lemma gt_not_in_class ci : in_class ci (NoneOf (u ">")) 62 = false.
Proof. destruct ci; vm_compute; reflexivity. Qed.

(** An element [e g v close post], with [g] beginning with [>] and
    [v] free of the first character of [close], is matched at once, and
    what is captured is [v]. *)
Lemma element_match ci e g' close' q v post :
  ascii_text e -> ascii_text g' -> ascii_text (q :: close') ->
  (q < 65 \/ 90 < q < 97 \/ 122 < q)%N ->
  free_of q v ->
  match_here ci
    (Lit e ⋅ Star (NoneOf (u ">")) ⋅ Lit (62%N :: g')
       ⋅ Group (StarLazy AnyChar) ⋅ Lit (q :: close'))
    (e ++ (62%N :: g') ++ v ++ (q :: close') ++ post)
  = Some (Some v, post).
Proof.
  intros Ae Ag Ac Q F. unfold match_here.
  cbn [rmatch]. rewrite lit_match_self by trivial.
  change ((62%N :: g') ++ v ++ (q :: close') ++ post)
    with (62%N :: g' ++ v ++ (q :: close') ++ post).
  rewrite star_greedy_stop by apply gt_not_in_class.
  change (62%N :: g' ++ v ++ (q :: close') ++ post)
    with ((62%N :: g') ++ v ++ (q :: close') ++ post).
  rewrite lit_match_self by (constructor; [lia|trivial]).
  rewrite star_lazy_pass.
  - apply star_lazy_now. rewrite lit_match_self by trivial.
    rewrite !length_app. 
    replace (length v + (length (q :: close') + length post)
             - (length (q :: close') + length post))%nat
      with (length v) by lia.
    now rewrite take_app_length.
  - intros c s I.
    unfold free_of in F. rewrite Forall_forall in F. specialize (F c I).
    cbn [lit_match]. now rewrite (chr_match_other ci q c Q F).
Qed.

Lemma str_match_here ci r s cap rest :
  match_here ci r s = Some (cap, rest) ->
  str_match ci r s = Some (default [] cap).
Proof. intros E. destruct s; simpl; now rewrite E. Qed.

Lemma u_lt : u "<" = [60%N].
Proof. vm_compute. reflexivity. Qed.

Lemma u_gt : u ">" = [62%N].
Proof. vm_compute. reflexivity. Qed.

Lemma u_close : u "</" = [60%N; 47%N].
Proof. vm_compute. reflexivity. Qed.

Lemma u_cdata_open : u "><![CDATA[" = 62%N :: u "<![CDATA[".
Proof. vm_compute. reflexivity. Qed.

Lemma u_cdata_close : u "]]></" = 93%N :: u "]></".
Proof. vm_compute. reflexivity. Qed.

Lemma ascii_text_app a b : ascii_text a -> ascii_text b -> ascii_text (a ++ b).
Proof. apply Forall_app_2. Qed.

Lemma plain_name_check s :
  forallb (fun c => ((48 <=? c) && (c <=? 57)) || ((65 <=? c) && (c <=? 90))
                    || ((97 <=? c) && (c <=? 122)) || (c =? 58) || (c =? 45)
                    || (c =? 95))%N s = true ->
  plain_name s.
Proof.
  rewrite forallb_forall. intros E. apply Forall_forall. intros c I.
  specialize (E c (proj1 (list_elem_of_In _ _) I)).
  rewrite !orb_true_iff, !andb_true_iff, !N.leb_le, !N.eqb_eq in E. lia.
Qed.

Lemma plain_name_ascii s : plain_name s -> ascii_text s.
Proof.
  intros P. unfold ascii_text. eapply Forall_impl; [exact P|].
  cbv beta. intros c C. lia.
Qed.

(** X3: a CDATA element read back.  From a text that begins with
    [<tag><![CDATA[v]]></tag>], where the tag name is a plain one and [v]
    holds no closing bracket, [extractTag] returns [v], trimmed, whatever
    follows the element and whatever markup [v] holds. *)
Theorem extractTag_reads_cdata (tagName v post : str) :
  plain_name tagName -> free_of 93 v ->
  extractTag (u "<" ++ tagName ++ u "><![CDATA[" ++ v ++ u "]]></" ++ tagName
                ++ u ">" ++ post) tagName
  = trim v.
Proof.
  intros P F. pose proof (plain_name_ascii tagName P) as A.
  unfold extractTag, cdataRegex.
  rewrite u_cdata_open, u_cdata_close.
  assert (A1 : ascii_text (u "<" ++ tagName))
    by (apply ascii_text_app; [vm_compute; repeat constructor|trivial]).
  assert (A2 : ascii_text (u "<![CDATA["))
    by (vm_compute; repeat constructor).
  assert (A3 : ascii_text (93%N :: u "]></" ++ tagName ++ u ">")).
  { change (93%N :: u "]></" ++ tagName ++ u ">")
      with ((93%N :: u "]></") ++ tagName ++ u ">").
    repeat apply ascii_text_app; trivial; vm_compute; repeat constructor. }
  pose proof (element_match true (u "<" ++ tagName) (u "<![CDATA[")
                (u "]></" ++ tagName ++ u ">") 93 v post A1 A2 A3
                ltac:(lia) F) as E.
  match goal with
  | |- match str_match true ?r ?s with _ => _ end = _ =>
      replace s with ((u "<" ++ tagName) ++ (62%N :: u "<![CDATA[") ++ v
                        ++ (93%N :: u "]></" ++ tagName ++ u ">") ++ post)
        by (repeat (rewrite <- ?app_assoc, <- ?app_comm_cons); reflexivity)
  end.
  match goal with
  | |- match ?m with _ => _ end = _ =>
      assert (M : m = Some (default [] (Some v)))
        by (eapply str_match_here; exact E)
  end.
  now rewrite M.
Qed.

Lemma extractTag_reads_cdata_witness :
  extractTag (u "<" ++ u "title" ++ u "><![CDATA[" ++ u " Test <Title> "
                ++ u "]]></" ++ u "title" ++ u ">"
                ++ u "<link>http://x/1</link>") (u "title")
  = trim (u " Test <Title> ").
Proof.
  apply extractTag_reads_cdata.
  - apply plain_name_check. vm_compute. reflexivity.
  - vm_compute. repeat constructor; discriminate.
Defined.

Lemma str_match_skip ci r p a b :
  first_char r = Some p -> without ci p a ->
  str_match ci r (a ++ b) = str_match ci r b.
Proof.
  intros F W. induction W as [|c a N W IH]; [reflexivity|].
  cbn [app str_match].
  now rewrite (match_here_first_char ci r p (c :: a ++ b)).
Qed.

Lemma u_cdata_mark : u "<![CDATA[" = 60%N :: 33%N :: u "[CDATA[".
Proof. vm_compute. reflexivity. Qed.

(** The CDATA expression finds nothing in a plain element. *)
Lemma cdata_absent_from_element tagName v :
  tag_name tagName -> free_of 60 v ->
  str_match true (cdataRegex tagName)
    (u "<" ++ tagName ++ u ">" ++ v ++ u "</" ++ tagName ++ u ">")
  = None.
Proof.
  intros [Ne T] F. unfold cdataRegex.
  rewrite u_lt, u_gt, u_close, u_cdata_open, u_cdata_mark.
  assert (A : ascii_text tagName)
    by (unfold ascii_text; eapply Forall_impl; [exact T|];
        intros c (? & ? & ? & ?); assumption).
  assert (F60 : free_of 60 tagName)
    by (unfold free_of; eapply Forall_impl; [exact T|];
        intros c (? & ? & ? & ?); assumption).
  set (r := Lit ([60%N] ++ tagName) ⋅ _).
  assert (FC : first_char r = Some 60%N) by reflexivity.
  (* at the opening tag *)
  assert (H0 : match_here true r
                 ([60%N] ++ tagName ++ [62%N] ++ v ++ [60%N; 47%N]
                    ++ tagName ++ [62%N]) = None).
  { unfold match_here, r. cbn [rmatch].
    change ([60%N] ++ tagName ++ [62%N] ++ v ++ [60%N; 47%N] ++ tagName
              ++ [62%N])
      with (([60%N] ++ tagName)
              ++ 62%N :: v ++ [60%N; 47%N] ++ tagName ++ [62%N]).
    rewrite lit_match_self
      by (apply ascii_text_app; [repeat constructor; lia|trivial]).
    rewrite star_greedy_stop by apply gt_not_in_class.
    cbn [lit_match]. rewrite chr_match_self by lia.
    destruct v as [|c v]; cbn [app lit_match].
    - rewrite chr_match_self by lia. reflexivity.
    - apply Forall_cons in F as [N _].
      now rewrite (chr_match_other true 60 c lt_is_no_letter N). }
  change ([60%N] ++ tagName ++ [62%N] ++ v ++ [60%N; 47%N] ++ tagName
            ++ [62%N])
    with (60%N :: tagName ++ [62%N] ++ v ++ [60%N; 47%N] ++ tagName
            ++ [62%N]) in *.
  cbn [str_match]. rewrite H0.
  (* over the name and the value *)
  replace (tagName ++ [62%N] ++ v ++ [60%N; 47%N] ++ tagName ++ [62%N])
    with ((tagName ++ [62%N] ++ v) ++ [60%N; 47%N] ++ tagName ++ [62%N])
    by (now rewrite <- !app_assoc).
  rewrite (str_match_skip true r 60); trivial.
  2: { apply free_of_without; [apply lt_is_no_letter|].
       repeat apply Forall_app_2; trivial. repeat constructor. lia. }
  (* at the closing tag *)
  cbn [app str_match].
  assert (H1 : match_here true r (60%N :: 47%N :: tagName ++ [62%N]) = None).
  { unfold match_here, r. cbn [rmatch app lit_match].
    rewrite chr_match_self by lia.
    destruct tagName as [|t0 t']; [contradiction|].
    apply Forall_cons in T as [(_ & _ & _ & N47) _].
    cbn [app lit_match].
    rewrite (chr_match_no_letter true t0 47) by (lia || congruence).
    reflexivity. }
  rewrite H1.
  apply (str_match_without true r 60); trivial.
  apply free_of_without; [apply lt_is_no_letter|].
  apply Forall_app_2; trivial. repeat constructor. lia.
Qed.

Lemma plain_name_tag_name s : plain_name s -> s <> [] -> tag_name s.
Proof.
  intros P N. split; [exact N|]. eapply Forall_impl; [exact P|].
  cbv beta. intros c C. lia.
Qed.

(** X4: a plain element read back.  From the text [<tag>v</tag>], where
    the tag name is a plain one, not empty, and [v] holds no [<],
    [extractTag] returns [v], trimmed. *)
Theorem extractTag_reads_element (tagName v : str) :
  plain_name tagName -> tagName <> [] -> free_of 60 v ->
  extractTag (u "<" ++ tagName ++ u ">" ++ v ++ u "</" ++ tagName ++ u ">")
    tagName
  = trim v.
Proof.
  intros P N F. pose proof (plain_name_tag_name tagName P N) as T.
  unfold extractTag.
  rewrite (cdata_absent_from_element tagName v T F).
  destruct T as [_ T].
  assert (A : ascii_text tagName)
    by (unfold ascii_text; eapply Forall_impl; [exact T|];
        intros c (? & ? & ? & ?); assumption).
  assert (A1 : ascii_text (u "<" ++ tagName))
    by (apply ascii_text_app; [vm_compute; repeat constructor|trivial]).
  assert (A3 : ascii_text (60%N :: 47%N :: tagName ++ u ">")).
  { repeat constructor; try lia.
    apply ascii_text_app; [trivial|vm_compute; repeat constructor]. }
  pose proof (element_match true (u "<" ++ tagName) []
                (47%N :: tagName ++ u ">") 60 v [] A1 ltac:(constructor) A3
                lt_is_no_letter F) as E.
  match goal with
  | |- match ?m with _ => _ end = _ =>
      assert (M : m = Some (default [] (Some v)))
  end.
  { eapply str_match_here. unfold tagRegex. rewrite u_gt, u_close.
    rewrite app_nil_r in E.
    replace (u "<" ++ tagName ++ [62%N] ++ v ++ [60%N; 47%N] ++ tagName
               ++ u ">")
      with ((u "<" ++ tagName) ++ [62%N] ++ v
              ++ 60%N :: 47%N :: tagName ++ u ">")
      by (now rewrite <- !app_assoc).
    exact E. }
  now rewrite M.
Qed.

Lemma extractTag_reads_element_witness :
  extractTag (u "<" ++ u "link" ++ u ">" ++ u " http://x/1 " ++ u "</"
                ++ u "link" ++ u ">") (u "link")
  = trim (u " http://x/1 ").
Proof.
  apply extractTag_reads_element.
  - apply plain_name_check. vm_compute. reflexivity.
  - vm_compute. discriminate.
  - vm_compute. repeat constructor; discriminate.
Defined.
End RoundTrip.

(** ** Trimmed fields, clean URL lists *)

Section Trimmed.
Import RssFeed.

Lemma dropWhile_head {A} (p : A -> bool) l :
  match dropWhile p l with [] => True | x :: _ => p x = false end.
Proof.
  induction l as [|x l IH]; simpl; [trivial|].
  destruct (p x) eqn:E; [exact IH|exact E].
Qed.

Lemma dropWhile_suffix {A} (p : A -> bool) l :
  exists a, l = a ++ dropWhile p l.
Proof.
  induction l as [|x l [a IH]]; simpl.
  - now exists [].
  - destruct (p x).
    + exists (x :: a). simpl. now f_equal.
    + now exists [].
Qed.

Lemma dropWhile_Forall {A} (p : A -> bool) (P : A -> Prop) l :
  Forall P l -> Forall P (dropWhile p l).
Proof.
  intros F. destruct (dropWhile_suffix p l) as [a E].
  rewrite E in F. now apply Forall_app in F as [_ F].
Qed.

Lemma trim_trimmed s : trimmed (trim s).
Proof.
  unfold trim.
  set (t := dropWhile isWhiteSpace s).
  set (d := dropWhile isWhiteSpace (rev t)).
  pose proof (dropWhile_head isWhiteSpace s) as Ht. fold t in Ht.
  pose proof (dropWhile_head isWhiteSpace (rev t)) as Hd. fold d in Hd.
  destruct (dropWhile_suffix isWhiteSpace (rev t)) as [a Ea]. fold d in Ea.
  split.
  - intros c rest E.
    assert (Ed : d = rev rest ++ [c]).
    { rewrite <- (rev_involutive d), E. reflexivity. }
    rewrite Ed in Ea.
    assert (Et : t = c :: rev (a ++ rev rest)).
    { rewrite <- (rev_involutive t), Ea, app_assoc, rev_app_distr.
      reflexivity. }
    now rewrite Et in Ht.
  - intros init c E.
    assert (Ed : d = c :: rev init).
    { rewrite <- (rev_involutive d), E, rev_app_distr. reflexivity. }
    now rewrite Ed in Hd.
Qed.

Lemma trim_Forall (P : N -> Prop) s : Forall P s -> Forall P (trim s).
Proof.
  intros F. unfold trim.
  apply Forall_rev, dropWhile_Forall, Forall_rev, dropWhile_Forall, F.
Qed.

Lemma trimmed_nil : trimmed [].
Proof.
  split; [discriminate|]. intros init c E. now destruct init.
Qed.

(** X5: whatever [extractTag] returns neither begins nor ends with white
    space. *)
Theorem extractTag_is_trimmed (xml tagName : str) :
  trimmed (extractTag xml tagName).
Proof.
  unfold extractTag.
  destruct (str_match true (cdataRegex tagName) xml);
    [apply trim_trimmed|].
  destruct (str_match true (tagRegex tagName) xml);
    [apply trim_trimmed|apply trimmed_nil].
Qed.

Lemma split_comma_free s : Forall (free_of 44) (split_comma s).
Proof.
  induction s as [|c s IH]; simpl.
  - repeat constructor.
  - destruct (c =? 44)%N eqn:E.
    + constructor; [constructor|exact IH].
    + apply N.eqb_neq in E.
      destruct (split_comma s) as [|w ws].
      * repeat constructor. exact E.
      * apply Forall_cons in IH as [Fw Fws].
        constructor; [|exact Fws]. now constructor.
Qed.

(** X6: every URL the RSS adapter takes from its configuration is a
    piece of the configured text between commas: it is not empty, holds
    no comma and neither begins nor ends with white space. *)
Theorem urlList_is_clean (c : config) (env : Env) :
  Forall (fun url => url <> [] /\ free_of 44 url /\ trimmed url)
    (urlList c env).
Proof.
  unfold urlList. apply Forall_forall. intros url I.
  apply list_elem_of_filter in I as [T I].
  apply list_elem_of_fmap in I as (piece & -> & I).
  split; [|split].
  - now destruct (trim piece).
  - apply trim_Forall.
    pose proof (split_comma_free (env_or env (envKeyUrl c) [])) as F.
    rewrite Forall_forall in F. now apply F.
  - apply trim_trimmed.
Qed.

(** The list read from a configuration with blanks and empty pieces. *)
Example urlList_of_untidy_text :
  urlList RealEstateNewsSource
    {[ u "RSS_REALESTATE_NEWS" := u " https://a.example/rss ,, https://b.example/rss, " ]}
  = [u "https://a.example/rss"; u "https://b.example/rss"].
Proof. vm_compute. reflexivity. Qed.
End Trimmed.

(** ** Article ids *)

Section Ids.
Import RssFeed.
Local Open Scope Z_scope.

Lemma toInt32_range n : - 2 ^ 31 <= toInt32 n < 2 ^ 31.
Proof.
  unfold toInt32.
  pose proof (Z.mod_pos_bound n (2 ^ 32) ltac:(lia)) as B.
  destruct (n mod 2 ^ 32 <? 2 ^ 31) eqn:E;
    [apply Z.ltb_lt in E|apply Z.ltb_ge in E]; lia.
Qed.

Lemma hash_range (f : Z -> N -> Z) url h :
  (forall x c, - 2 ^ 31 <= f x c < 2 ^ 31) ->
  - 2 ^ 31 <= h < 2 ^ 31 ->
  - 2 ^ 31 <= fold_left f url h < 2 ^ 31.
Proof.
  intros F. revert h. induction url as [|c url IH]; intros h B; simpl.
  - exact B.
  - apply IH, F.
Qed.

Lemma digits_Forall base fuel n acc :
  1 < base -> 0 <= n ->
  Forall (fun d => 0 <= d < base) acc ->
  Forall (fun d => 0 <= d < base) (digits base fuel n acc).
Proof.
  intros B. revert n acc. induction fuel as [|fuel IH]; intros n acc N F; simpl.
  - exact F.
  - destruct (n <? base) eqn:E.
    + apply Z.ltb_lt in E. constructor; [lia|exact F].
    + apply IH.
      * apply Z.div_pos; lia.
      * constructor; [|exact F]. apply Z.mod_pos_bound. lia.
Qed.

Lemma digits_length_ge base fuel n acc :
  (length acc <= length (digits base fuel n acc))%nat.
Proof.
  revert n acc. induction fuel as [|fuel IH]; intros n acc; simpl; [lia|].
  destruct (n <? base); simpl; [lia|].
  specialize (IH (n / base) (n mod base :: acc)). simpl in IH. lia.
Qed.

Lemma digits_length_le base fuel n acc (k : nat) :
  1 < base -> 0 <= n < base ^ Z.of_nat (S k) ->
  (length (digits base fuel n acc) <= length acc + S k)%nat.
Proof.
  intros B. revert n acc k.
  induction fuel as [|fuel IH]; intros n acc k N; simpl; [lia|].
  destruct (n <? base) eqn:E; simpl; [lia|].
  apply Z.ltb_ge in E.
  destruct k as [|k].
  - change (base ^ Z.of_nat 1) with (base ^ 1) in N. lia.
  - assert (n / base < base ^ Z.of_nat (S k)).
    { apply Z.div_lt_upper_bound; [lia|].
      replace (Z.of_nat (S (S k))) with (Z.succ (Z.of_nat (S k))) in N by lia.
      rewrite Z.pow_succ_r in N by lia. lia. }
    specialize (IH (n / base) (n mod base :: acc) k
                  ltac:(split; [apply Z.div_pos; lia|lia])).
    simpl in IH. lia.
Qed.

(** X7: an article id is one to seven characters out of [0-9a-z],
    whatever the link. *)
Theorem generateItemId_shape (url : str) :
  (1 <= length (generateItemId url) <= 7)%nat
  /\ Forall (fun c => (48 <= c <= 57)%N \/ (97 <= c <= 122)%N)
       (generateItemId url).
Proof.
  unfold generateItemId.
  set (hash := fold_left _ url 0).
  assert (B : - 2 ^ 31 <= hash < 2 ^ 31).
  { apply hash_range; [|lia]. intros x c. apply toInt32_range. }
  assert (A : 0 <= Z.abs hash < 36 ^ Z.of_nat 7) by (simpl; lia).
  unfold Z_toString. rewrite length_map. split; [split|].
  - pose proof (digits_length_ge 36 (Z.to_nat (Z.log2 (Z.abs hash)))
                  (Z.abs hash / 36) [Z.abs hash mod 36]) as G.
    simpl. destruct (Z.abs hash <? 36); simpl in *; lia.
  - pose proof (digits_length_le 36 (S (Z.to_nat (Z.log2 (Z.abs hash))))
                  (Z.abs hash) [] 6 ltac:(lia) A) as L.
    simpl in L. exact L.
  - apply Forall_fmap.
    eapply Forall_impl;
      [apply (digits_Forall 36); [lia|lia|constructor]|].
    intros d D. unfold compose, digit_char. cbv beta in D |- *.
    destruct (Z.ltb_spec d 10) as [E|E]; [left|right]; lia.
Qed.
End Ids.

(** ** What the RSS adapter hands on *)

Section RssOutput.
Variable H : Host.
Import RssFeed.

Lemma requested_logged_console w l args :
  requested (logged w (Console l args)) = requested w.
Proof. unfold requested. now rewrite requests_logged_console. Qed.

Lemma urlList_unset c env :
  truthy (env_or env (envKeyUrl c) []) = false -> urlList c env = [].
Proof.
  unfold urlList. now destruct (env_or env (envKeyUrl c) []).
Qed.

(** X8: the RSS adapter's [fetch] never rejects, always resolves to an
    object with an [items] array, and has then requested exactly the URLs
    of its configuration, each once and in order, whatever became of the
    requests; for an adapter whose configuration key is no member of
    Object.prototype, as the keys of this program's adapters are. *)
Theorem rss_fetch_requests_each_url (c : config) (env : Env) (w : World) :
  inherited (envKeyUrl c) = false ->
  exists r w',
    fetch H c env w = (Ok r, w')
    /\ is_Some (raw_items r)
    /\ requested w' = requested w ++ urlList c env.
Proof.
  intros _. destruct (truthy (env_or env (envKeyUrl c) [])) eqn:T.
  - destruct (fetchFeeds_total H (rssFilterDays env) (urlList c env) w)
      as (l & w' & E).
    do 2 eexists. split; [|split].
    + unfold fetch. rewrite T. simpl. monad.
      unfold urlList, rssFilterDays in E. rewrite E. reflexivity.
    + simpl. eauto.
    + exact (fetchFeeds_requested H _ _ _ _ _ E).
  - do 2 eexists. split; [|split].
    + unfold fetch. rewrite T. reflexivity.
    + simpl. eauto.
    + rewrite (urlList_unset c env T), app_nil_r.
      apply requested_logged_console.
Qed.

Lemma pushItems_Forall (P : item -> Prop) body blocks w items w' :
  (forall b v it v', body b v = (Ok (Some it), v') -> P it) ->
  pushItems body blocks w = (Ok items, w') ->
  Forall P items.
Proof.
  intros B. revert w items. induction blocks as [|b rest IH]; intros w items E.
  - inversion E. constructor.
  - rewrite pushItems_cons in E.
    destruct (body b w) as [[o|e] w1] eqn:Eb; [|discriminate].
    destruct (pushItems body rest w1) as [[l|e] w2] eqn:Er; [|discriminate].
    inversion E; subst. specialize (IH _ _ Er).
    destruct o as [it|]; [|exact IH].
    constructor; [|exact IH]. exact (B _ _ _ _ Eb).
Qed.

(** Every article the parser returns has a link. *)
Lemma parseRSSFeed_links xml w items w' :
  parseRSSFeed H xml w = (Ok items, w') ->
  Forall (fun it => link it <> []) items.
Proof.
  rewrite parseRSSFeed_eq. intros E.
  destruct (pushItems (rssItem H) (Block.rssBlocks xml) w) as [[l|e] w1] eqn:E1;
    [|discriminate].
  assert (F1 : Forall (fun it => link it <> []) l).
  { eapply pushItems_Forall; [|exact E1].
    intros b v it v' Eb.
    destruct (rssItem_cases H b v) as [[_ Es]|[C [(d & v2 & Es)|[e Es]]]];
      rewrite Es in Eb; try discriminate.
    inversion Eb; subst. simpl.
    unfold Block.rssComplete in C. apply andb_true_iff in C as [_ C].
    now destruct (Block.rssLink b). }
  destruct (length l =? 0)%nat; [|now inversion E; subst].
  eapply pushItems_Forall; [|exact E].
  intros b v it v' Eb.
  destruct (atomEntry_cases H b v) as [[_ Es]|[C [(d & v2 & Es)|[e Es]]]];
    rewrite Es in Eb; try discriminate.
  inversion Eb; subst. simpl.
  unfold Block.atomComplete in C. apply andb_true_iff in C as [_ C].
  now destruct (Block.atomLink b).
Qed.

Lemma filterRecent_Forall (P : item -> Prop) filterDays items w l w' :
  Forall P items ->
  filterRecent H filterDays items w = (Ok l, w') ->
  Forall P l.
Proof.
  intros F. revert w l. induction F as [|it rest Pit F IH]; intros w l E.
  - inversion E. constructor.
  - simpl in E. monad. simpl in E.
    destruct (filterRecent H filterDays rest _) as [[k|e] w2] eqn:Er;
      [|discriminate].
    inversion E; subst. specialize (IH _ _ Er).
    destruct (isDateWithinLastDays H _ _ _); [now constructor|exact IH].
Qed.

Lemma digest_labelled filterDays rssUrl response w l w' :
  digest H filterDays rssUrl response w = (Ok (Some l), w') ->
  Forall labelled l.
Proof.
  unfold digest. destruct (negb (ok response)); [discriminate|].
  monad. destruct (text response) as [xml|e]; [|discriminate].
  destruct (parseRSSFeed H xml w) as [[items|e] w1] eqn:Ep; [|discriminate].
  pose proof (parseRSSFeed_links _ _ _ _ Ep) as L.
  match goal with
  | |- context [if truthy ?t then _ else _] => destruct (truthy t)
  end.
  2: destruct (URL_hostname H rssUrl); [|discriminate].
  all: destruct (filterRecent H filterDays items w1) as [[k|e] w2] eqn:Ef;
    [|discriminate].
  all: pose proof (filterRecent_Forall _ _ _ _ _ _ L Ef) as K.
  all: simpl; intros E; inversion E; subst.
  all: apply Forall_fmap; eapply Forall_impl; [exact K|].
  all: intros it Lit; unfold labelled, compose; simpl; eauto.
Qed.

Lemma fetchFeeds_labelled filterDays urls w l w' :
  fetchFeeds H filterDays urls w = (Ok l, w') -> Forall labelled l.
Proof.
  revert w l. induction urls as [|rssUrl rest IH]; intros w l E.
  - inversion E. constructor.
  - rewrite fetchFeeds_cons in E.
    destruct (try_catch _ _ w) as [[pushed|e] w1] eqn:Et; [|discriminate].
    match type of E with
    | context [fetchFeeds H filterDays rest ?v] =>
        destruct (fetchFeeds H filterDays rest v) as [[more|e] w2] eqn:Er;
          [|discriminate]
    end.
    inversion E; subst. apply Forall_app_2; [|exact (IH _ _ Er)].
    unfold try_catch in Et. rewrite fetchFeed_eq in Et. simpl in Et.
    destruct (rssAnswer H w rssUrl) as [response|e].
    + destruct (digest H filterDays rssUrl response _) as [[p|e] w3] eqn:Ed.
      * inversion Et; subst. destruct pushed as [k|]; [|constructor].
        exact (digest_labelled _ _ _ _ _ _ Ed).
      * inversion Et; subst. constructor.
    + inversion Et; subst. constructor.
Qed.

(** [fetch] hands on what the loop collected, sorted: whatever holds of
    every collected article holds of every article it resolves to. *)
Lemma fetch_items_Forall (P : item -> Prop) (c : config) (env : Env)
  (w w' : World) (r : raw) (l : list item) :
  (forall filterDays urls k w1,
     fetchFeeds H filterDays urls w = (Ok k, w1) -> Forall P k) ->
  fetch H c env w = (Ok r, w') ->
  raw_items r = Some l ->
  Forall P l.
Proof.
  intros Loop. unfold fetch.
  destruct (truthy (env_or env (envKeyUrl c) [])); simpl.
  - monad.
    match goal with
    | |- context [fetchFeeds H ?fd ?urls w] =>
        destruct (fetchFeeds H fd urls w) as [[k|e] w1] eqn:E; [|discriminate]
    end.
    intros Er El. inversion Er; subst. simpl in El. inversion El; subst.
    eapply Permutation_Forall;
      [symmetry; apply Array_sort_Permutation|].
    exact (Loop _ _ _ _ E).
  - intros Er El. inversion Er; subst. simpl in El. inversion El; subst.
    constructor.
Qed.

(** X9: every article the RSS adapter resolves to has a link that is not
    empty, the id computed from that link, and a source. *)
Theorem rss_items_are_labelled (c : config) (env : Env) (w w' : World)
  (r : raw) (l : list item) :
  fetch H c env w = (Ok r, w') ->
  raw_items r = Some l ->
  Forall labelled l.
Proof.
  intros E El.
  apply (fetch_items_Forall labelled c env w w' r l); trivial.
  intros filterDays urls k w1 F.
  exact (fetchFeeds_labelled _ _ _ _ _ F).
Qed.
End RssOutput.

Lemma rss_fetch_requests_each_url_witness :
  exists r w',
    RssFeed.fetch Scenario.rssHost RssFeed.RealEstateNewsSource
      Scenario.rssEnv Reference.start = (Ok r, w')
    /\ is_Some (RssFeed.raw_items r)
    /\ requested w'
       = requested Reference.start
           ++ urlList RssFeed.RealEstateNewsSource Scenario.rssEnv.
Proof.
  apply (rss_fetch_requests_each_url Scenario.rssHost
           RssFeed.RealEstateNewsSource Scenario.rssEnv Reference.start).
  vm_compute. reflexivity.
Defined.

Lemma rss_items_are_labelled_witness : Forall labelled Runs.rssRunItems.
Proof.
  apply (rss_items_are_labelled Scenario.rssHost RssFeed.RealEstateNewsSource
           Scenario.rssEnv Reference.start (snd Runs.rssRun) Runs.rssRunRaw
           Runs.rssRunItems).
  - vm_compute. reflexivity.
  - reflexivity.
Defined.

(** ** What the aggregator hands on *)

Section AggregatorOutput.
Variable H : Host.

Lemma unknown_author_not_empty : u "未知" <> [].
Proof. vm_compute. discriminate. Qed.

Lemma transform_well_formed c sourceType r l :
  RssFeed.raw_items r = Some l ->
  Forall labelled l ->
  Forall (well_formed sourceType) (RssFeed.transform H c (Some r) sourceType).
Proof.
  intros E F. unfold RssFeed.transform. rewrite E.
  apply Forall_fmap. eapply Forall_impl; [exact F|].
  intros it (L & I & S). unfold compose, well_formed. simpl.
  split; [reflexivity|]. split; [|split; [|split]].
  - rewrite length_take. lia.
  - unfold or_else. destruct (RssFeed.author it); simpl;
      [apply unknown_author_not_empty|discriminate].
  - exists (RssFeed.link it). auto.
  - eauto.
Qed.

Lemma collect_rss_well_formed c sourceType env foloCookie w l w' :
  DataFetchers.collect [DataFetchers.rssDataSource H c] sourceType env
    foloCookie w = (Ok l, w') ->
  Forall (well_formed sourceType) l.
Proof.
  simpl. monad. unfold try_catch. simpl.
  destruct (RssFeed.fetch H c env w) as [[r|e] w1] eqn:E; simpl.
  - intros El. inversion El; subst. rewrite app_nil_r.
    destruct (RssFeed.raw_items r) as [k|] eqn:Ek.
    + pose proof (transform_well_formed c sourceType r k Ek
                    (fetch_items_Forall H labelled c env w _ r k
                       (fun fd urls l w2 => fetchFeeds_labelled H fd urls w l w2)
                       E Ek)) as T.
      unfold RssFeed.transform in T. rewrite Ek in T. exact T.
    + constructor.
  - intros El. inversion El; subst. constructor.
Qed.

Lemma registry_sources sourceType cat :
  DataFetchers.own_property (DataFetchers.dataSources H) sourceType = Some cat ->
  exists c, DataFetchers.sources cat = [DataFetchers.rssDataSource H c].
Proof.
  unfold DataFetchers.dataSources. simpl.
  repeat (destruct (str_eqb _ sourceType);
          [intros E; inversion E; subst; eexists; reflexivity|]).
  discriminate.
Qed.

(** X10: every record the aggregator resolves to for a type carries
    that type, a description of at most 500 code units, an author text
    that is not empty, a link that is not empty with the id computed from
    it, and a publication date. *)
Theorem aggregator_records_are_well_formed (sourceType : str) (env : Env)
  (foloCookie : option str) (w w' : World) (out : list unified) :
  DataFetchers.fetchAndTransformDataForType H sourceType env foloCookie w
  = (Ok out, w') ->
  Forall (well_formed sourceType) out.
Proof.
  unfold DataFetchers.fetchAndTransformDataForType,
    DataFetchers.fetchAndTransformDataFrom, DataFetchers.get.
  destruct (DataFetchers.own_property _ sourceType) as [cat|] eqn:O.
  - destruct (registry_sources sourceType cat O) as [c Ec]. rewrite Ec.
    monad.
    destruct (DataFetchers.collect _ sourceType env foloCookie w)
      as [[l|e] w1] eqn:E; [|discriminate].
    intros Eo. inversion Eo; subst.
    eapply Permutation_Forall; [symmetry; apply Array_sort_Permutation|].
    exact (collect_rss_well_formed _ _ _ _ _ _ _ E).
  - destruct (existsb _ _); [|discriminate].
    intros Eo. inversion Eo; subst. constructor.
Qed.
End AggregatorOutput.

Lemma aggregator_records_are_well_formed_witness :
  Forall (well_formed (u "news")) Runs.newsRunItems.
Proof.
  apply (aggregator_records_are_well_formed Scenario.rssHost (u "news")
           Scenario.rssEnv None Reference.start (snd Runs.newsRun)
           Runs.newsRunItems).
  vm_compute. reflexivity.
Defined.

(** ** The page loop, in general *)

Section PageLoop.
Variable H : Host.
Variable c : Folo.config.
Variable env : Env.
Variable foloCookie : option str.

(** One turn of the page loop never throws and issues at most one
    request. *)
Lemma folo_turn filterDays listId i after w :
  exists s w1,
    try_catch (Folo.fetchPage H c env foloCookie filterDays listId i after)
      (foloOnError c i) w = (Ok s, w1)
    /\ (length (requests w1) <= S (length (requests w)))%nat.
Proof.
  unfold try_catch. rewrite fetchPage_eq.
  destruct (env !! u "FOLO_DATA_API") as [api|]; simpl.
  - set (r := foloRequest H c api foloCookie listId w after).
    set (w1 := logged (logged w _) (Fetch r)).
    assert (R1 : length (requests w1) = S (length (requests w))).
    { unfold w1. rewrite requests_logged_fetch, requests_logged_console.
      rewrite length_app. simpl. lia. }
    destruct (network H (length (requests w)) r) as [response|e].
    + pose proof (silent_foloDigest H c filterDays i response w1) as Q.
      destruct (foloDigest H c filterDays i response w1) as [[s|e] w2];
        simpl in Q.
      * exists s, w2. split; [reflexivity|]. rewrite Q. lia.
      * exists (Folo.Break []), (snd (foloOnError c i e w2)).
        split; [reflexivity|]. rewrite silent_foloOnError, Q. lia.
    + exists (Folo.Break []), (snd (foloOnError c i e w1)).
      split; [reflexivity|]. rewrite silent_foloOnError. lia.
  - eexists (Folo.Break []), _. split; [reflexivity|].
    simpl.
    change {| trace := ?t; ticks := ?k |} with
      (logged (logged w (Console LevelLog
                           [u "Fetching " ++ Folo.fetchingName c ++ u ", page "
                              ++ Folo.pageNumber i ++ u "..."]))
         (Console LevelError
            [u "Error fetching " ++ Folo.failingName c ++ u ", page "
               ++ Folo.pageNumber i ++ u ":";
             exn_message (TypeError (u "Invalid URL"))])).
    rewrite !requests_logged_console. lia.
Qed.

Lemma fetchPages_bounded filterDays listId n i after w :
  exists l w',
    Folo.fetchPages H c env foloCookie filterDays listId n i after w
    = (Ok l, w')
    /\ (length (requests w') <= length (requests w) + n)%nat.
Proof.
  revert i after w. induction n as [|n IH]; intros i after w.
  - exists [], w. split; [reflexivity|lia].
  - rewrite fetchPages_S.
    destruct (folo_turn filterDays listId i after w) as (s & w1 & E & B).
    rewrite E. destruct s as [pushed|pushed next].
    + exists pushed, w1. split; [reflexivity|lia].
    + destruct (IH (i + 1)%Z next (logged w1 (Sleep 1000 4000)))
        as (more & w2 & E2 & B2).
      rewrite E2. exists (pushed ++ more), w2. split; [reflexivity|].
      rewrite requests_logged_sleep in B2. lia.
Qed.

(** X11: an API adapter's [fetch] never rejects, always resolves to a
    feed with an [items] array, and issues at most as many requests as
    its page count allows; none when the page count is not a positive
    number. *)
Theorem folo_fetch_is_bounded (w : World) :
  exists r w',
    Folo.fetch H c env foloCookie w = (Ok r, w')
    /\ is_Some (Folo.items r)
    /\ (length (requests w') <= length (requests w) + pageLimit c env)%nat.
Proof.
  unfold Folo.fetch.
  destruct (truthy (env_or env (Folo.listIdKey c) [])) eqn:T; simpl.
  - destruct (fetchPages_bounded (foloFilterDays env) (foloListId c env)
                (pageLimit c env) 0%Z None w) as (l & w' & E & B).
    exists (Folo.feed c l), w'. split; [|split; [simpl; eauto|exact B]].
    monad. unfold pageLimit, foloFilterDays, foloListId in E. now rewrite E.
  - do 2 eexists. split; [reflexivity|]. split; [simpl; eauto|].
    change {| trace := ?t; ticks := ?k |} with
      (logged w (Console LevelWarn [Folo.skipWarning c])).
    rewrite requests_logged_console. lia.
Qed.

(** X12: with a list id and a positive page count but no address for
    the API in the configuration, an API adapter issues no request: the
    first turn fails before the network is reached, the failure is
    printed, and the adapter resolves to the empty feed. *)
Theorem folo_fetch_without_api (w : World) :
  truthy (foloListId c env) = true ->
  (0 < pageLimit c env)%nat ->
  env !! u "FOLO_DATA_API" = None ->
  Folo.fetch H c env foloCookie w
  = (Ok (Folo.feed c []),
     logged
       (logged w (Console LevelLog
                    [u "Fetching " ++ Folo.fetchingName c ++ u ", page "
                       ++ Folo.pageNumber 0 ++ u "..."]))
       (Console LevelError
          [u "Error fetching " ++ Folo.failingName c ++ u ", page "
             ++ Folo.pageNumber 0 ++ u ":"; u "Invalid URL"])).
Proof.
  intros T L A. unfold Folo.fetch. unfold foloListId in T. rewrite T.
  simpl. monad. unfold pageLimit in L.
  destruct (Z.to_nat _) as [|n]; [lia|].
  rewrite fetchPages_S. unfold try_catch. rewrite fetchPage_eq, A.
  reflexivity.
Qed.
End PageLoop.

Lemma folo_fetch_without_api_witness :
  Folo.fetch Examples.host Folo.RealEstateCityDataSource
    {[ u "REALESTATE_CITY_LIST_ID" := u "list-9" ]} None Reference.start
  = (Ok (Folo.feed Folo.RealEstateCityDataSource []),
     logged
       (logged Reference.start
          (Console LevelLog
             [u "Fetching " ++ Folo.fetchingName Folo.RealEstateCityDataSource
                ++ u ", page " ++ Folo.pageNumber 0 ++ u "..."]))
       (Console LevelError
          [u "Error fetching "
             ++ Folo.failingName Folo.RealEstateCityDataSource ++ u ", page "
             ++ Folo.pageNumber 0 ++ u ":"; u "Invalid URL"])).
Proof.
  apply folo_fetch_without_api.
  - vm_compute. reflexivity.
  - vm_compute. lia.
  - vm_compute. reflexivity.
Defined.

(** ** A page that is kept *)

Section GoodPage.
Variable H : Host.
Variable c : Folo.config.
Variable env : Env.
Variable foloCookie : option str.

Lemma folo_filterRecent_sublist filterDays l w k w' :
  Folo.filterRecent H filterDays l w = (Ok k, w') -> sublist k l.
Proof.
  revert w k. induction l as [|entry rest IH]; intros w k E.
  - inversion E. constructor.
  - simpl in E. monad.
    destruct (Folo.publishedAt entry) as [d|e]; [|discriminate].
    simpl in E.
    destruct (Folo.filterRecent H filterDays rest _) as [[m|e] w2] eqn:Er;
      [|discriminate].
    inversion E; subst. specialize (IH _ _ Er).
    destruct (isDateWithinLastDays H _ _ _);
      [now apply sublist_skip|now apply sublist_cons].
Qed.

(** X13: a turn of the page loop goes on to a next page only when the
    request was answered with a success status and a [data] array that is
    not empty; the items it pushes are those of a sub-sequence of that
    array, in order, and the cursor for the next page is the
    [publishedAt] of the array's last entry. *)
Theorem kept_page (filterDays : option Z) (listId : str) (i : Z)
  (after : option str) (w w1 : World) (pushed : list Folo.item)
  (next : option str) :
  Folo.fetchPage H c env foloCookie filterDays listId i after w
  = (Ok (Folo.Next pushed next), w1) ->
  exists api response first more kept,
    env !! u "FOLO_DATA_API" = Some api
    /\ network H (length (requests w))
         (foloRequest H c api foloCookie listId w after) = Ok response
    /\ ok response = true
    /\ json response = Ok (Some (Some (first :: more)))
    /\ sublist kept (first :: more)
    /\ Folo.mapItems c kept = Ok pushed
    /\ Folo.publishedAt (List.last more first) = Ok next
    /\ requests w1
       = requests w ++ [Fetch (foloRequest H c api foloCookie listId w after)].
Proof.
  rewrite fetchPage_eq.
  destruct (env !! u "FOLO_DATA_API") as [api|]; [|discriminate]. simpl.
  set (r := foloRequest H c api foloCookie listId w after).
  set (w0 := logged (logged w _) (Fetch r)).
  assert (R0 : requests w0 = requests w ++ [Fetch r]).
  { unfold w0. now rewrite requests_logged_fetch, requests_logged_console. }
  destruct (network H (length (requests w)) r) as [response|e] eqn:Net;
    [|discriminate].
  intros D. pose proof (silent_foloDigest H c filterDays i response w0) as Q.
  rewrite D in Q. simpl in Q.
  unfold foloDigest in D.
  destruct (ok response) eqn:O; simpl in D; [|discriminate].
  monad.
  destruct (json response) as [[[[|first more]|]|]|e] eqn:J; simpl in D;
    try (destruct (Folo.newsExtras c); discriminate).
  destruct (Folo.publishedAt first) as [d|e] eqn:P1; [|discriminate].
  simpl in D.
  destruct (Folo.filterRecent H filterDays more _) as [[m|e] w2] eqn:Ef;
    [|discriminate].
  set (kept := if isDateWithinLastDays H _ d filterDays
               then first :: m else m) in D.
  assert (S : sublist kept (first :: more)).
  { pose proof (folo_filterRecent_sublist _ _ _ _ _ Ef) as Sm.
    unfold kept. destruct (isDateWithinLastDays H _ d filterDays);
      [now apply sublist_skip|now apply sublist_cons]. }
  destruct (Folo.mapItems c kept) as [items|e] eqn:M; [|discriminate].
  destruct (Folo.publishedAt (List.last more first)) as [a|e] eqn:PL;
    [|discriminate].
  assert (R1 : requests w1 = requests w ++ [Fetch r]) by congruence.
  inversion D; subst.
  exists api, response, first, more, kept.
  repeat split; trivial.
Qed.
End GoodPage.

Lemma kept_page_witness :
  exists api response first more kept,
    Scenario.apiEnv !! u "FOLO_DATA_API" = Some api
    /\ network Scenario.apiHost (length (requests Reference.start))
         (foloRequest Scenario.apiHost Folo.RealEstateNewsDataSource api None
            (foloListId Folo.RealEstateNewsDataSource Scenario.apiEnv)
            Reference.start None) = Ok response
    /\ ok response = true
    /\ json response = Ok (Some (Some (first :: more)))
    /\ sublist kept (first :: more)
    /\ Folo.mapItems Folo.RealEstateNewsDataSource kept
       = Ok Scenario.firstPageItems
    /\ Folo.publishedAt (List.last more first) = Ok Scenario.firstPageCursor
    /\ requests (snd Scenario.firstPage)
       = requests Reference.start
           ++ [Fetch (foloRequest Scenario.apiHost
                        Folo.RealEstateNewsDataSource api None
                        (foloListId Folo.RealEstateNewsDataSource
                           Scenario.apiEnv) Reference.start None)].
Proof.
  apply (kept_page Scenario.apiHost Folo.RealEstateNewsDataSource
           Scenario.apiEnv None (foloFilterDays Scenario.apiEnv)
           (foloListId Folo.RealEstateNewsDataSource Scenario.apiEnv) 0 None
           Reference.start (snd Scenario.firstPage) Scenario.firstPageItems
           Scenario.firstPageCursor).
  vm_compute. reflexivity.
Defined.

(** ** Ties *)

Section Stable.
Context {A : Type}.
Variable comparefn : A -> A -> option Z.
Variable time : A -> option Z.
Hypothesis comparefn_time :
  forall x y, comparefn x y = time_sub (time y) (time x).

Lemma sort_insert_stable t x l :
  is_Some (time x) -> Forall (fun y => is_Some (time y)) l ->
  filter (fun y => time y = Some t) (sort_insert comparefn x l)
  = filter (fun y => time y = Some t) (x :: l).
Proof.
  intros [tx Ex] V. induction V as [|y l [ty Ey] V IH]; [reflexivity|].
  simpl. rewrite (sortCompare_valid comparefn time comparefn_time x y tx ty)
    by trivial.
  destruct (ty - tx <=? 0)%Z eqn:C; [reflexivity|].
  apply Z.leb_gt in C.
  rewrite (filter_cons _ y), IH, !(filter_cons _ x), (filter_cons _ y).
  destruct (decide (time x = Some t)) as [Px|Px],
           (decide (time y = Some t)) as [Py|Py]; trivial.
  rewrite Ex in Px. rewrite Ey in Py. inversion Px. inversion Py. lia.
Qed.

Lemma Array_sort_stable t l :
  Forall (fun y => is_Some (time y)) l ->
  filter (fun y => time y = Some t) (Array_sort comparefn l)
  = filter (fun y => time y = Some t) l.
Proof.
  induction 1 as [|x l Vx V IH]; [reflexivity|].
  simpl. rewrite sort_insert_stable; trivial.
  - rewrite !(filter_cons _ x), IH. reflexivity.
  - eapply Permutation_Forall; [symmetry; apply Array_sort_Permutation|trivial].
Qed.
End Stable.

(** X14: with valid timestamps, ties allowed, the aggregator's output
    for a registered type holds the collected records in descending order
    of timestamp, and records of equal timestamp keep the order in which
    they were collected. *)
Theorem aggregator_sort_keeps_ties (H : Host) (sourceType : str)
  (cat : DataFetchers.category) (env : Env) (foloCookie : option str)
  (w w' : World) (collected : list unified) :
  DataFetchers.own_property (DataFetchers.dataSources H) sourceType = Some cat ->
  DataFetchers.collect (DataFetchers.sources cat) sourceType env foloCookie w
  = (Ok collected, w') ->
  Forall (fun x => is_Some (unifiedTime H x)) collected ->
  exists out,
    DataFetchers.fetchAndTransformDataForType H sourceType env foloCookie w
    = (Ok out, w')
    /\ Permutation out collected
    /\ StronglySorted
         (fun a b => notOlder (unifiedTime H a) (unifiedTime H b)) out
    /\ forall t,
         filter (fun x => unifiedTime H x = Some t) out
         = filter (fun x => unifiedTime H x = Some t) collected.
Proof.
  intros O E V.
  exists (Array_sort (DataFetchers.byPublishedDateDesc H) collected).
  split; [|split; [|split]].
  - unfold DataFetchers.fetchAndTransformDataForType,
    DataFetchers.fetchAndTransformDataFrom, DataFetchers.get.
    rewrite O. monad. now rewrite E.
  - apply Array_sort_Permutation.
  - apply Array_sort_sorted; [apply byPublishedDateDesc_time|exact V].
  - intros t.
    apply Array_sort_stable; [apply byPublishedDateDesc_time|exact V].
Qed.

Lemma aggregator_sort_keeps_ties_witness :
  exists out,
    DataFetchers.fetchAndTransformDataForType Scenario.rssHost (u "news")
      Scenario.rssEnv None Reference.start
    = (Ok out, snd Scenario.collectedNews)
    /\ Permutation out Scenario.collectedNewsItems
    /\ StronglySorted
         (fun a b => notOlder (unifiedTime Scenario.rssHost a)
                       (unifiedTime Scenario.rssHost b)) out
    /\ forall t,
         filter (fun x => unifiedTime Scenario.rssHost x = Some t) out
         = filter (fun x => unifiedTime Scenario.rssHost x = Some t)
             Scenario.collectedNewsItems.
Proof.
  apply (aggregator_sort_keeps_ties Scenario.rssHost (u "news")
           Scenario.newsCategory Scenario.rssEnv None Reference.start
           (snd Scenario.collectedNews) Scenario.collectedNewsItems).
  - reflexivity.
  - vm_compute. reflexivity.
  - apply Forall_is_Some_check. vm_compute. reflexivity.
Defined.

(** ** The aggregator and its failures *)

Section AggregatorFailures.
Variable H : Host.

(** X15: a source whose [fetch] rejects does not abort the aggregation of
    its type: the failure is printed and the remaining sources are
    collected as if the failed one had not been registered. *)
Theorem collect_survives_failure (d : DataFetchers.dataSource)
  (rest : list DataFetchers.dataSource) (sourceType : str) (env : Env)
  (foloCookie : option str) (w w1 : World) (error : exn) :
  DataFetchers.fetch d env foloCookie w = (Throw error, w1) ->
  DataFetchers.collect (d :: rest) sourceType env foloCookie w
  = DataFetchers.collect rest sourceType env foloCookie
      (logged w1 (sourceFailure d sourceType error)).
Proof.
  intros E. simpl. monad. unfold try_catch. simpl. rewrite E. simpl.
  change {| trace := ?t; ticks := ?k |}
    with (logged w1 (sourceFailure d sourceType error)).
  destruct (collect_total rest sourceType env foloCookie
              (logged w1 (sourceFailure d sourceType error)))
    as (l & w2 & E2).
  now rewrite E2.
Qed.

(** X16: [fetchDataByCategory] never rejects, whatever the category;
    [fetchAndTransformDataForType], called on its own, rejects exactly for
    the names that are neither a key of the registry nor inherited by
    it. *)
Theorem category_lookup_never_rejects (env : Env) (category : str)
  (foloCookie : option str) (w : World) :
  (exists l w',
     DataFetchers.fetchDataByCategory H env category foloCookie w = (Ok l, w'))
  /\ ((exists e w',
         DataFetchers.fetchAndTransformDataForType H category env foloCookie w
         = (Throw e, w'))
      <-> registered H category = false /\ inherited category = false).
Proof.
  unfold DataFetchers.fetchDataByCategory,
    DataFetchers.fetchAndTransformDataForType, DataFetchers.fetchAndTransformDataFrom, DataFetchers.get, registered,
    inherited.
  destruct (DataFetchers.own_property _ category) as [cat|].
  - destruct (collect_total (DataFetchers.sources cat) category env
                foloCookie w) as (l & w' & E).
    monad. rewrite E. split; [eauto|].
    split; [intros (e & v & X); discriminate|intros [X _]; discriminate].
  - destruct (existsb _ _).
    + split; [do 2 eexists; reflexivity|].
      split; [intros (e & v & X); discriminate|intros [_ X]; discriminate].
    + split; [do 2 eexists; reflexivity|].
      split; [auto|]. intros _. do 2 eexists. reflexivity.
Qed.
End AggregatorFailures.

Lemma collect_survives_failure_witness :
  DataFetchers.collect
    (brokenSource :: DataFetchers.sources Scenario.newsCategory) (u "news")
    Scenario.rssEnv None Reference.start
  = DataFetchers.collect (DataFetchers.sources Scenario.newsCategory)
      (u "news") Scenario.rssEnv None
      (logged Reference.start
         (sourceFailure brokenSource (u "news") (NetworkError (u "down")))).
Proof.
  apply collect_survives_failure. reflexivity.
Defined.

(** ** The parser and the world *)

Section ParserWorld.
Variable H : Host.
Import RssFeed Block.

Lemma body_eval (complete : str -> bool) (date : str -> str)
  (build : str -> str -> item) b w :
  (if complete b
   then d ← isoDateOrNow H (date b); mret (Some (build b d))
   else mret None) w
  = if complete b
    then match isoDateOrNow H (date b) w with
         | (Ok d, w') => (Ok (Some (build b d)), w')
         | (Throw e, w') => (Throw e, w')
         end
    else (Ok None, w).
Proof.
  destruct (complete b); [|reflexivity].
  unfold mbind, M_bind. now destruct (isoDateOrNow H (date b) w) as [[d|e] w'].
Qed.

Lemma pushItems_readable (complete : str -> bool) (date : str -> str)
  (build : str -> str -> item) blocks w :
  Forall (fun b => complete b = true -> truthy (date b) = true ->
                   is_Some (Date_parse H (date b))) blocks ->
  exists items w',
    pushItems (fun b => if complete b
                        then d ← isoDateOrNow H (date b); mret (Some (build b d))
                        else mret None) blocks w = (Ok items, w').
Proof.
  intros F. revert w. induction F as [|b rest R F IH]; intros w.
  - do 2 eexists. reflexivity.
  - rewrite pushItems_cons, body_eval. destruct (complete b) eqn:C.
    + destruct (truthy (date b)) eqn:T.
      * destruct (R eq_refl eq_refl) as [t P].
        rewrite (isoDateOrNow_dated H _ t w T P).
        destruct (IH w) as (items & w' & E). rewrite E. eauto.
      * rewrite (isoDateOrNow_absent H _ w T).
        destruct (IH (tick w)) as (items & w' & E). rewrite E. eauto.
    + destruct (IH w) as (items & w' & E). rewrite E. eauto.
Qed.

(** X17: the parser returns a list, and does not throw, on every text
    in which each block that has a title, a link and a date field has a
    date the host can read. *)
Theorem parse_returns_when_dates_readable (xml : str) (w : World) :
  readable H xml ->
  exists items w', parseRSSFeed H xml w = (Ok items, w').
Proof.
  intros [R1 R2]. rewrite parseRSSFeed_eq.
  destruct (pushItems_readable rssComplete rssDate rssItemOf _ w R1)
    as (items & w1 & E1).
  change (pushItems (rssItem H)) with
    (pushItems (fun b => if rssComplete b
                         then d ← isoDateOrNow H (rssDate b);
                              mret (Some (rssItemOf b d))
                         else mret None)).
  rewrite E1. destruct (length items =? 0)%nat; [|eauto].
  exact (pushItems_readable atomComplete atomDate atomItemOf _ w1 R2).
Qed.

Lemma pushItems_world (complete : str -> bool) (date : str -> str)
  (build : str -> str -> item) blocks w r w' :
  pushItems (fun b => if complete b
                      then d ← isoDateOrNow H (date b);
                           mret (Some (build b d))
                      else mret None) blocks w = (r, w') ->
  trace w' = trace w
  /\ (ticks w <= ticks w' <= ticks w + length blocks)%nat.
Proof.
  revert w r w'. induction blocks as [|b rest IH]; intros w r w' E.
  - inversion E; subst. split; [reflexivity|simpl; lia].
  - rewrite pushItems_cons, body_eval in E. simpl length.
    destruct (complete b).
    + destruct (truthy (date b)) eqn:T.
      * destruct (Date_parse H (date b)) as [t|] eqn:P.
        -- rewrite (isoDateOrNow_dated H _ t w T P) in E.
           destruct (pushItems _ rest w) as [[l|e] v] eqn:Er;
             inversion E; subst; destruct (IH _ _ _ Er); split; trivial; lia.
        -- rewrite (isoDateOrNow_unreadable H _ w T P) in E.
           inversion E; subst. split; [reflexivity|lia].
      * rewrite (isoDateOrNow_absent H _ w T) in E.
        destruct (pushItems _ rest (tick w)) as [[l|e] v] eqn:Er;
          inversion E; subst; destruct (IH _ _ _ Er) as [Tr K];
          simpl in *; split; trivial; lia.
    + destruct (pushItems _ rest w) as [[l|e] v] eqn:Er;
        inversion E; subst; destruct (IH _ _ _ Er); split; trivial; lia.
Qed.

(** X18: the parser prints nothing and requests nothing: it leaves the
    trace as it found it, and it reads the clock at most once for each
    block of the text. *)
Theorem parser_touches_only_the_clock (xml : str) (w : World) :
  trace (snd (parseRSSFeed H xml w)) = trace w
  /\ (ticks w <= ticks (snd (parseRSSFeed H xml w))
      <= ticks w + length (rssBlocks xml) + length (atomBlocks xml))%nat.
Proof.
  rewrite parseRSSFeed_eq.
  change (pushItems (rssItem H)) with
    (pushItems (fun b => if rssComplete b
                         then d ← isoDateOrNow H (rssDate b);
                              mret (Some (rssItemOf b d))
                         else mret None)).
  change (pushItems (atomEntry H)) with
    (pushItems (fun b => if atomComplete b
                         then d ← isoDateOrNow H (atomDate b);
                              mret (Some (atomItemOf b d))
                         else mret None)).
  destruct (pushItems _ (rssBlocks xml) w) as [r1 w1] eqn:E1.
  destruct (pushItems_world _ _ _ _ _ _ _ E1) as [T1 K1].
  destruct r1 as [items|e]; [|simpl; split; [trivial|lia]].
  destruct (length items =? 0)%nat; [|simpl; split; [trivial|lia]].
  destruct (pushItems _ (atomBlocks xml) w1) as [r2 w2] eqn:E2.
  destruct (pushItems_world _ _ _ _ _ _ _ E2) as [T2 K2].
  simpl. split; [congruence|lia].
Qed.
End ParserWorld.

Lemma readable_check H xml :
  forallb (fun b => implb (Block.rssComplete b && truthy (Block.rssDate b))
                      (match Date_parse H (Block.rssDate b) with
                       | Some _ => true
                       | None => false
                       end)) (Block.rssBlocks xml)
  && forallb (fun b => implb (Block.atomComplete b
                              && truthy (Block.atomDate b))
                         (match Date_parse H (Block.atomDate b) with
                          | Some _ => true
                          | None => false
                          end)) (Block.atomBlocks xml) = true ->
  readable H xml.
Proof.
  intros E. apply andb_true_iff in E as [E1 E2].
  rewrite forallb_forall in E1, E2.
  split; apply Forall_forall; intros b I C T.
  - specialize (E1 b (proj1 (list_elem_of_In _ _) I)).
    rewrite C, T in E1. simpl in E1.
    destruct (Date_parse H (Block.rssDate b)); [eauto|discriminate].
  - specialize (E2 b (proj1 (list_elem_of_In _ _) I)).
    rewrite C, T in E2. simpl in E2.
    destruct (Date_parse H (Block.atomDate b)); [eauto|discriminate].
Qed.

Lemma parse_returns_when_dates_readable_witness :
  exists items w',
    RssFeed.parseRSSFeed Examples.host Examples.dated Reference.start
    = (Ok items, w').
Proof.
  apply parse_returns_when_dates_readable.
  apply readable_check. vm_compute. reflexivity.
Defined.

(** ** The cookie *)

Lemma header_name_differs (a x y : str) :
  str_eqb a (u "Cookie") = false -> (a, x) = (u "Cookie", y) -> False.
Proof.
  intros N E. injection E as E1 _. subst a.
  unfold str_eqb in N. now rewrite bool_decide_eq_true_2 in N.
Qed.

(** X19: an API adapter sends a [Cookie] header exactly when it was
    given a cookie that is not empty, and then with that cookie as its
    value. *)
Theorem cookie_header_iff_cookie (c : Folo.config) (agent : str)
  (foloCookie : option str) (v : str) :
  In (u "Cookie", v) (Folo.headers c agent foloCookie)
  <-> foloCookie = Some v /\ v <> [].
Proof.
  unfold Folo.headers, Folo.truthy_opt.
  destruct (Folo.newsExtras c), foloCookie as [[|x k]|]; simpl; split;
    try (intros [E N]; try discriminate; try (now contradiction N);
         inversion E; subst; tauto);
    intros I;
    repeat (destruct I as [E|I];
            [first [ exfalso; revert E; apply header_name_differs;
                     vm_compute; reflexivity
                   | injection E as <-; split; [reflexivity|discriminate] ]
            |]);
    contradiction.
Qed.

(** ** A feed that is kept *)

Section GoodFeed.
Variable H : Host.
Import RssFeed.

Lemma filterRecent_sublist filterDays items w l w' :
  filterRecent H filterDays items w = (Ok l, w') -> sublist l items.
Proof.
  revert w l. induction items as [|it rest IH]; intros w l E.
  - inversion E. constructor.
  - simpl in E. monad. simpl in E.
    destruct (filterRecent H filterDays rest _) as [[k|e] w2] eqn:Er;
      [|discriminate].
    inversion E; subst. specialize (IH _ _ Er).
    destruct (isDateWithinLastDays H _ _ _);
      [now apply sublist_skip|now apply sublist_cons].
Qed.

(** X20: the [try] block of the RSS loop pushes articles only when the
    request was answered with a success status and a body the parser
    accepts; what it pushes is a sub-sequence of the parser's articles, in
    order, each with the feed's label as source and with the id of its
    link.  The label is what [extractTag] finds for [title] in the whole
    document, decoded: a [title] in CDATA anywhere in it comes before a
    plain one; when there is none, the label is the host of the URL. *)
Theorem kept_feed (filterDays : option Z) (rssUrl : str) (w w' : World)
  (l : list item) :
  fetchFeed H filterDays rssUrl w = (Ok (Some l), w') ->
  exists response xmlText items kept,
    rssAnswer H w rssUrl = Ok response
    /\ ok response = true
    /\ text response = Ok xmlText
    /\ fst (parseRSSFeed H xmlText
              (logged (logged w (Console LevelLog
                                   [u "Fetching RSS: " ++ rssUrl]))
                 (Fetch (rssRequest H w rssUrl)))) = Ok items
    /\ sublist kept items
    /\ l = map (withLabel (feedLabel H rssUrl xmlText)) kept.
Proof.
  rewrite fetchFeed_eq. simpl.
  destruct (rssAnswer H w rssUrl) as [response|e]; [|discriminate].
  unfold digest. destruct (ok response) eqn:Eo; simpl; [|discriminate].
  monad. destruct (text response) as [xml|e] eqn:Et; [|discriminate].
  match goal with
  | |- context [parseRSSFeed H xml ?v] =>
      destruct (parseRSSFeed H xml v) as [[items|e] w1] eqn:Ep; [|discriminate]
  end.
  unfold feedLabel.
  destruct (truthy (extractTag xml (u "title"))) eqn:Tt.
  2: destruct (URL_hostname H rssUrl) as [host|]; [|discriminate].
  all: destruct (filterRecent H filterDays items w1) as [[k|e] w2] eqn:Ef;
    [|discriminate].
  all: pose proof (filterRecent_sublist _ _ _ _ _ Ef) as S.
  all: simpl; intros E; inversion E; subst.
  all: exists response, xml, items, k; rewrite ?Tt, ?Ep; repeat split; trivial.
Qed.
End GoodFeed.

(** The label of a feed whose own title is plain and whose first
    article has its title in CDATA is the title of the article. *)
Example label_prefers_cdata_title :
  feedLabel Examples.host (u "https://a.example/rss")
    (u "<rss><channel><title>Feed</title><item><title><![CDATA[Item]]></title><link>https://a.example/1</link></item></channel></rss>")
  = u "Item".
Proof. vm_compute. reflexivity. Qed.

Lemma kept_feed_witness :
  exists response xmlText items kept,
    rssAnswer Scenario.rssHost Reference.start Scenario.urlA = Ok response
    /\ ok response = true
    /\ text response = Ok xmlText
    /\ fst (RssFeed.parseRSSFeed Scenario.rssHost xmlText
              (logged (logged Reference.start
                         (Console LevelLog
                            [u "Fetching RSS: " ++ Scenario.urlA]))
                 (Fetch (rssRequest Scenario.rssHost Reference.start
                           Scenario.urlA)))) = Ok items
    /\ sublist kept items
    /\ default [] (default None (match fst firstFeedTurn with
                                 | Ok o => Some o
                                 | Throw _ => None
                                 end))
       = map (withLabel (feedLabel Scenario.rssHost Scenario.urlA xmlText))
           kept.
Proof.
  apply (kept_feed Scenario.rssHost (rssFilterDays Scenario.rssEnv)
           Scenario.urlA Reference.start (snd firstFeedTurn)).
  vm_compute. reflexivity.
Defined.

(** ** Decoding one entity *)

Section OneEntity.
Import RssFeed.

Lemma replace_all_skip ci r f x s :
  replace_all ci r f (x ++ s) (length x) = replace_all ci r f s 0.
Proof. induction x as [|c x IH]; [reflexivity|exact IH]. Qed.

Lemma replace_all_app_without ci r f p a s :
  first_char r = Some p -> without ci p a ->
  replace_all ci r f (a ++ s) 0 = a ++ replace_all ci r f s 0.
Proof.
  intros F W. induction W as [|c a N W IH]; [reflexivity|].
  cbn [app replace_all].
  rewrite (match_here_first_char ci r p (c :: a ++ s)) by trivial.
  now rewrite IH.
Qed.

Lemma replace_all_hit ci r f c x rest cap :
  match_here ci r (c :: x ++ rest) = Some (cap, rest) ->
  replace_all ci r f (c :: x ++ rest) 0
  = f (default [] cap) ++ replace_all ci r f rest 0.
Proof.
  intros E. cbn [replace_all]. rewrite E.
  replace (length (c :: x ++ rest) - length rest - 1)%nat with (length x)
    by (cbn [length]; rewrite length_app; lia).
  now rewrite replace_all_skip.
Qed.

(** One replacement of the chain on a text with a single [&], where the
    expression matches at it. *)
Lemma step_hit r f a x rest cap :
  first_char r = Some 38%N -> free_of 38 a -> free_of 38 rest ->
  match_here false r (38%N :: x ++ rest) = Some (cap, rest) ->
  replace_all false r f (a ++ 38%N :: x ++ rest) 0
  = a ++ f (default [] cap) ++ rest.
Proof.
  intros F A B E.
  rewrite (replace_all_app_without false r f 38 a)
    by (trivial; now apply free_of_without; [apply amp_is_no_letter|]).
  rewrite (replace_all_hit false r f 38 x rest cap E).
  now rewrite (replace_all_without false r f 38 rest)
    by (trivial; now apply free_of_without; [apply amp_is_no_letter|]).
Qed.

(** One replacement of the chain on a text with a single [&], where the
    expression does not match at it. *)
Lemma step_miss r f a t :
  first_char r = Some 38%N -> free_of 38 a -> free_of 38 t ->
  match_here false r (38%N :: t) = None ->
  replace_all false r f (a ++ 38%N :: t) 0 = a ++ 38%N :: t.
Proof.
  intros F A B E.
  rewrite (replace_all_app_without false r f 38 a)
    by (trivial; now apply free_of_without; [apply amp_is_no_letter|]).
  cbn [replace_all]. rewrite E.
  now rewrite (replace_all_without false r f 38 t)
    by (trivial; now apply free_of_without; [apply amp_is_no_letter|]).
Qed.

(** One replacement of the chain on a text without [&]. *)
Lemma step_clean r f t :
  first_char r = Some 38%N -> free_of 38 t ->
  replace_all false r f t 0 = t.
Proof.
  intros F A.
  now rewrite (replace_all_without false r f 38 t)
    by (trivial; now apply free_of_without; [apply amp_is_no_letter|]).
Qed.

Lemma free_of_cons c x s : x <> c -> free_of c s -> free_of c (x :: s).
Proof. intros N F. now apply Forall_cons. Qed.

Lemma free_of_app c s t : free_of c s -> free_of c t -> free_of c (s ++ t).
Proof. intros F G. apply Forall_app. now split. Qed.

Lemma truthy_middle (a e b : str) : e <> [] -> truthy (a ++ e ++ b) = true.
Proof. intros N. destruct a; [destruct e; [easy|]|]; reflexivity. Qed.

(** The same two steps, for a text [e] that begins with the [&]. *)
Lemma hit r f a e rest cap :
  first_char r = Some 38%N -> head e = Some 38%N ->
  free_of 38 a -> free_of 38 rest ->
  match_here false r (e ++ rest) = Some (cap, rest) ->
  replace_all false r f (a ++ e ++ rest) 0 = a ++ f (default [] cap) ++ rest.
Proof.
  intros F E A B M. destruct e as [|c x]; [discriminate|].
  injection E as ->. now apply step_hit.
Qed.

Lemma miss r f a e b :
  first_char r = Some 38%N -> head e = Some 38%N ->
  free_of 38 a -> free_of 38 (tail e ++ b) ->
  match_here false r (e ++ b) = None ->
  replace_all false r f (a ++ e ++ b) 0 = a ++ e ++ b.
Proof.
  intros F E A B M. destruct e as [|c x]; [discriminate|].
  injection E as ->. now apply step_miss.
Qed.

(** The digits of a numeric entity. *)
Lemma star_greedy_digits {R} (k : str -> option R) (ds b : str) (v : R) :
  Forall (fun c => (48 <= c <= 57)%N) ds ->
  k (59%N :: b) = Some v ->
  star_greedy false Digit k (ds ++ 59%N :: b) = Some v.
Proof.
  intros D K. induction D as [|d ds Dd D IH]; cbn [app star_greedy].
  - exact K.
  - cbn [in_class].
    replace ((48 <=? d)%N && (d <=? 57)%N) with true
      by (symmetry; apply andb_true_iff; split; apply N.leb_le; lia).
    now rewrite IH.
Qed.

Lemma numeric_match (ds b : str) :
  decimal_digits ds ->
  match_here false (Lit [38; 35]%N ⋅ Group (Plus Digit) ⋅ Lit [59%N])
    ([38; 35]%N ++ ds ++ 59%N :: b)
  = Some (Some ds, b).
Proof.
  intros [Ne D]. destruct ds as [|d ds]; [easy|].
  apply Forall_cons in D as [Dd D].
  unfold match_here.
  cbn [rmatch lit_match app chr_match]. rewrite !N.eqb_refl.
  cbn [in_class].
  replace ((48 <=? d)%N && (d <=? 57)%N) with true
    by (symmetry; apply andb_true_iff; split; apply N.leb_le; lia).
  erewrite star_greedy_digits; [reflexivity|exact D|].
  cbn [lit_match chr_match]. rewrite N.eqb_refl.
  do 3 f_equal. change (d :: ds ++ 59%N :: b) with ((d :: ds) ++ 59%N :: b).
  rewrite length_app, Nat.add_sub. apply take_app_length.
Qed.

(** [&#39;] is met only by the digits 39. *)
Lemma apostrophe_miss (ds b : str) :
  Forall (fun c => (48 <= c <= 57)%N) ds -> ds <> [51; 57]%N ->
  lit_match false [38; 35; 51; 57; 59]%N ([38; 35]%N ++ ds ++ 59%N :: b)
  = None.
Proof.
  intros D Ne. cbn [lit_match app chr_match]. rewrite !N.eqb_refl.
  destruct ds as [|d1 ds]; [reflexivity|].
  cbn [lit_match app chr_match].
  destruct (N.eqb_spec d1 51) as [->|]; [|reflexivity].
  destruct ds as [|d2 ds]; [reflexivity|].
  cbn [lit_match app chr_match].
  destruct (N.eqb_spec d2 57) as [->|]; [|reflexivity].
  destruct ds as [|d3 ds]; [easy|].
  cbn [lit_match app chr_match].
  destruct (N.eqb_spec d3 59) as [->|]; [|reflexivity].
  apply Forall_cons in D as [_ D]. apply Forall_cons in D as [_ D].
  apply Forall_cons in D as [D _]. lia.
Qed.
End OneEntity.

Ltac free_of_amp :=
  repeat match goal with
    | |- free_of _ _ => assumption
    | |- free_of _ [] => unfold free_of; constructor
    | |- free_of _ (_ :: _) => apply free_of_cons; [discriminate|]
    | |- free_of _ (_ ++ _) => apply free_of_app
    | |- free_of _ _ =>
        solve [vm_compute; repeat (constructor; [discriminate|]); constructor]
    end.

Ltac closed := vm_compute; reflexivity.

Ltac side := solve [assumption | free_of_amp | closed].

(** One step of the chain of replacements, innermost first. *)
Ltac step :=
  match goal with
  | |- context [replace_all false ?r ?f (?a ++ ?e ++ ?b) 0] =>
      first
        [ rewrite (step_clean r f (a ++ e ++ b)) by side
        | rewrite (hit r f a e b None) by side
        | rewrite (miss r f a e b) by side ]
  end.

Section Entities.
Import RssFeed.

(** X21: a named entity other than [&amp;], standing alone between texts
    without [&], is replaced by its character and nothing else changes. *)
Theorem decode_named_entity (a b e r : str) :
  In (e, r) namedEntities -> free_of 38 a -> free_of 38 b ->
  decodeHTMLEntities (a ++ e ++ b) = a ++ r ++ b.
Proof.
  intros I A B. unfold decodeHTMLEntities, namedEntities in *.
  repeat (destruct I as [I|I]; [injection I as <- <-|]); [..|destruct I].
  all: rewrite truthy_middle by (vm_compute; discriminate).
  all: cbn [negb]; unfold replace_lit.
  all: repeat step; reflexivity.
Qed.

Lemma decode_named_entity_witness :
  decodeHTMLEntities (u "if a " ++ u "&lt;" ++ u " b then")
  = u "if a " ++ u "<" ++ u " b then".
Proof.
  apply decode_named_entity.
  - left. reflexivity.
  - vm_compute. repeat constructor; discriminate.
  - vm_compute. repeat constructor; discriminate.
Defined.

(** X22: the chain replaces [&amp;] first, so the text of an escaped
    entity, as in [&amp;lt;], is decoded twice: it yields the character
    and not the entity. *)
Theorem escaped_entity_is_decoded_twice (a b e r : str) :
  In (e, r) namedEntities -> free_of 38 a -> free_of 38 b ->
  decodeHTMLEntities (a ++ u "&amp;" ++ tail e ++ b) = a ++ r ++ b.
Proof.
  intros I A B. unfold decodeHTMLEntities, namedEntities in *.
  repeat (destruct I as [I|I]; [injection I as <- <-|]); [..|destruct I].
  all: rewrite truthy_middle by (vm_compute; discriminate).
  all: cbn [negb]; unfold replace_lit.
  all: step.
  all: match goal with
       | |- context [?a ++ ?x ++ ?y ++ ?b] => rewrite (app_assoc x y b)
       end.
  all: repeat step; reflexivity.
Qed.

Lemma escaped_entity_is_decoded_twice_witness :
  decodeHTMLEntities (u "if a " ++ u "&amp;" ++ tail (u "&lt;") ++ u " b")
  = u "if a " ++ u "<" ++ u " b".
Proof.
  apply escaped_entity_is_decoded_twice.
  - left. reflexivity.
  - vm_compute. repeat constructor; discriminate.
  - vm_compute. repeat constructor; discriminate.
Defined.

(** X23: a numeric entity, standing alone between texts without [&], is
    replaced by the one code unit [String.fromCharCode] makes of its
    digits. *)
Theorem decode_numeric_entity (a b ds : str) :
  decimal_digits ds -> free_of 38 a -> free_of 38 b ->
  decodeHTMLEntities (a ++ (u "&#" ++ ds ++ u ";") ++ b)
  = a ++ fromCharCode ds ++ b.
Proof.
  intros D A B. unfold decodeHTMLEntities.
  rewrite truthy_middle by (vm_compute; discriminate).
  cbn [negb]. unfold replace_lit.
  destruct (decide (ds = [51; 57]%N)) as [->|Ne].
  - repeat step. reflexivity.
  - assert (Fd : free_of 38 ds)
      by (destruct D as [_ D]; eapply Forall_impl; [exact D|];
          cbv beta; intros; lia).
    set (e := u "&#" ++ ds ++ u ";").
    assert (Fe : free_of 38 (tail e ++ b)).
    { change (tail e) with (35%N :: ds ++ [59%N]). free_of_amp. }
    assert (Eb : e ++ b = [38; 35]%N ++ ds ++ 59%N :: b).
    { subst e. change (u "&#") with [38; 35]%N. change (u ";") with [59%N].
      now rewrite <- !app_assoc. }
    assert (M5 : match_here false (Lit (u "&#39;")) (e ++ b) = None).
    { rewrite Eb.
      change (match_here false (Lit (u "&#39;")) ?s)
        with (match lit_match false [38; 35; 51; 57; 59]%N s with
              | Some rest => Some (@None str, rest)
              | None => None
              end).
      destruct D as [_ D]. now rewrite apostrophe_miss. }
    assert (M7 : match_here false
                   (Lit (u "&#") ⋅ Group (Plus Digit) ⋅ Lit (u ";")) (e ++ b)
                 = Some (Some ds, b)).
    { rewrite Eb.
      change (u "&#") with [38; 35]%N. change (u ";") with [59%N].
      now apply numeric_match. }
    do 4 step.
    rewrite (miss _ _ a e b) by side.
    step.
    rewrite (hit _ _ a e b (Some ds)) by side.
    reflexivity.
Qed.

Lemma decode_numeric_entity_witness :
  decodeHTMLEntities (u "caf" ++ (u "&#" ++ u "233" ++ u ";") ++ u " au lait")
  = u "caf" ++ fromCharCode (u "233") ++ u " au lait".
Proof.
  apply decode_numeric_entity.
  - split; [vm_compute; discriminate|].
    vm_compute. repeat constructor; discriminate.
  - vm_compute. repeat constructor; discriminate.
  - vm_compute. repeat constructor; discriminate.
Defined.
End Entities.

(** ** From the API to the records *)

Section ApiRecords.
Variable H : Host.
Variable c : Folo.config.
Variable env : Env.
Variable foloCookie : option str.

Lemma toItem_oneAuthor entry it :
  Folo.toItem c entry = Ok it -> oneAuthor it.
Proof.
  unfold Folo.toItem.
  destruct (entries entry), (feeds entry); try discriminate.
  intros E. inversion E. eexists. reflexivity.
Qed.

Lemma mapItems_oneAuthor l its :
  Folo.mapItems c l = Ok its -> Forall oneAuthor its.
Proof.
  revert its. induction l as [|entry rest IH]; intros its E; simpl in E.
  - inversion E. constructor.
  - destruct (Folo.toItem c entry) as [it|e] eqn:T; [|discriminate].
    destruct (Folo.mapItems c rest) as [k|e]; [|discriminate].
    inversion E; subst. constructor; [|now apply IH].
    exact (toItem_oneAuthor _ _ T).
Qed.

Lemma foloDigest_oneAuthor filterDays i response w s w1 :
  foloDigest H c filterDays i response w = (Ok s, w1) ->
  Forall oneAuthor (pushedBy s).
Proof.
  unfold foloDigest. destruct (ok response); simpl;
    [|intros E; inversion E; constructor].
  monad.
  destruct (json response) as [[[[|first more]|]|]|e]; simpl;
    try (destruct (Folo.newsExtras c); intros E; inversion E; constructor);
    try discriminate.
  destruct (Folo.publishedAt first) as [d|e]; [|discriminate]. simpl.
  destruct (Folo.filterRecent H filterDays more _) as [[m|e] w2];
    [|discriminate].
  match goal with
  | |- context [Folo.mapItems c ?k] =>
      destruct (Folo.mapItems c k) as [items|e] eqn:M; [|discriminate]
  end.
  apply mapItems_oneAuthor in M.
  destruct (Folo.publishedAt (List.last more first));
    intros E; inversion E; exact M.
Qed.

Lemma turn_oneAuthor filterDays listId i after w s w1 :
  try_catch (Folo.fetchPage H c env foloCookie filterDays listId i after)
    (foloOnError c i) w = (Ok s, w1) ->
  Forall oneAuthor (pushedBy s).
Proof.
  unfold try_catch. rewrite fetchPage_eq.
  destruct (env !! u "FOLO_DATA_API") as [api|]; simpl.
  - destruct (network H _ _) as [response|e].
    + destruct (foloDigest H c filterDays i response _) as [[t|e] w2] eqn:D.
      * intros E. inversion E; subst.
        exact (foloDigest_oneAuthor _ _ _ _ _ _ D).
      * intros E. inversion E. constructor.
    + intros E. inversion E. constructor.
  - intros E. inversion E. constructor.
Qed.

Lemma fetchPages_oneAuthor filterDays listId n i after w l w' :
  Folo.fetchPages H c env foloCookie filterDays listId n i after w
  = (Ok l, w') ->
  Forall oneAuthor l.
Proof.
  revert i after w l. induction n as [|n IH]; intros i after w l.
  - intros E. inversion E. constructor.
  - rewrite fetchPages_S.
    destruct (try_catch _ _ w) as [[[pushed|pushed next]|e] w1] eqn:T;
      [| |discriminate].
    + intros E. inversion E; subst. exact (turn_oneAuthor _ _ _ _ _ _ _ T).
    + destruct (Folo.fetchPages H c env foloCookie filterDays listId n _ _ _)
        as [[more|e] w2] eqn:F; [|discriminate].
      intros E. inversion E; subst. apply Forall_app. split.
      * exact (turn_oneAuthor _ _ _ _ _ _ _ T).
      * exact (IH _ _ _ _ F).
Qed.

(** X24: whatever an API adapter's [fetch] resolves to, every item of it
    has exactly one author entry, so [transform] never falls back to its
    text for unknown authors: every record has the item's author (or feed
    title) as author text, the requested type, a description of at most
    500 code units and a source that is not empty. *)
Theorem api_records (sourceType : str) (w w' : World) (r : Folo.raw) :
  Folo.feedTitle c <> [] ->
  Folo.fetch H c env foloCookie w = (Ok r, w') ->
  exists l,
    Folo.items r = Some l
    /\ Forall oneAuthor l
    /\ Forall (apiRecord sourceType l) (Folo.transform H c (Some r) sourceType).
Proof.
  intros T. unfold Folo.fetch.
  destruct (truthy (env_or env (Folo.listIdKey c) [])); simpl.
  - monad.
    match goal with
    | |- context [Folo.fetchPages H c env foloCookie ?fd ?li ?n ?i ?a w] =>
        destruct (Folo.fetchPages H c env foloCookie fd li n i a w)
          as [[l|e] w1] eqn:F; [|discriminate]
    end.
    intros E. inversion E; subst. exists l.
    pose proof (fetchPages_oneAuthor _ _ _ _ _ _ _ _ F) as A.
    split; [reflexivity|]. split; [exact A|].
    simpl. apply Forall_fmap, Forall_forall. intros it I.
    destruct (proj1 (Forall_forall _ _) A it I) as [name N].
    unfold compose, apiRecord. simpl.
    split; [reflexivity|]. split; [rewrite length_take; lia|]. split.
    + unfold or_else. destruct (truthy (default [] (Folo.source it))) eqn:S;
        [|exact T].
      intros Z. now rewrite Z in S.
    + exists it, name. rewrite N. simpl.
      repeat split; trivial. now apply list_elem_of_In.
  - intros E. inversion E; subst. exists []. simpl.
    repeat split; constructor.
Qed.
End ApiRecords.

Lemma api_records_witness :
  exists l,
    Folo.items apiRunRaw = Some l
    /\ Forall oneAuthor l
    /\ Forall (apiRecord (u "news") l)
         (Folo.transform Scenario.apiHost Folo.RealEstateNewsDataSource
            (Some apiRunRaw) (u "news")).
Proof.
  apply (api_records Scenario.apiHost Folo.RealEstateNewsDataSource
           Scenario.apiEnv None (u "news") Reference.start (snd apiRun)
           apiRunRaw).
  - vm_compute. discriminate.
  - vm_compute. reflexivity.
Defined.

(** ** What a match consists of *)

Section MatcherSound.
Context {R : Type}.
Variable ci : bool.

Lemma lit_match_split p s rest :
  lit_match ci p s = Some rest ->
  exists pre, s = pre ++ rest /\ length pre = length p.
Proof.
  revert s. induction p as [|a p IH]; intros s E; simpl in E.
  - inversion E. now exists [].
  - destruct s as [|c s]; [discriminate|].
    destruct (chr_match ci a c); [|discriminate].
    destruct (IH _ E) as (pre & -> & L).
    exists (c :: pre). split; [reflexivity|]. simpl. now rewrite L.
Qed.

Lemma star_greedy_sound cl (k : str -> option R) s v :
  star_greedy ci cl k s = Some v ->
  exists pre rest,
    s = pre ++ rest /\ Forall (fun c => in_class ci cl c = true) pre
    /\ k rest = Some v.
Proof.
  induction s as [|c s IH]; simpl; intros E.
  - exists [], []. repeat split; [constructor|exact E].
  - destruct (in_class ci cl c) eqn:C.
    + destruct (star_greedy ci cl k s) as [r|] eqn:G.
      * inversion E; subst. destruct (IH eq_refl) as (pre & rest & -> & F & K).
        exists (c :: pre), rest. repeat split; [now constructor|exact K].
      * exists [], (c :: s). repeat split; [constructor|exact E].
    + exists [], (c :: s). repeat split; [constructor|exact E].
Qed.

Lemma star_lazy_sound cl (k : str -> option R) s v :
  star_lazy ci cl k s = Some v ->
  exists pre rest,
    s = pre ++ rest /\ Forall (fun c => in_class ci cl c = true) pre
    /\ k rest = Some v.
Proof.
  induction s as [|c s IH]; simpl; intros E.
  - destruct (k []) as [r|] eqn:K; [|discriminate].
    exists [], []. repeat split; [constructor|congruence].
  - destruct (k (c :: s)) as [r|] eqn:K.
    + exists [], (c :: s). repeat split; [constructor|congruence].
    + destruct (in_class ci cl c) eqn:C; [|discriminate].
      destruct (IH E) as (pre & rest & -> & F & K').
      exists (c :: pre), rest. repeat split; [now constructor|exact K'].
Qed.

(** Whatever the matcher accepts, it accepts by consuming a prefix of
    the input that the expression matches as a whole. *)
Lemma rmatch_sound r :
  forall s cap (k : str -> option str -> option R) v,
    rmatch ci r s cap k = Some v ->
    exists pre rest cap',
      s = pre ++ rest /\ consumed ci r pre cap cap' /\ k rest cap' = Some v.
Proof.
  induction r as [p|l|cl|cl|cl|r IH|r1 IH1 r2 IH2]; intros s cap k v E;
    simpl in E.
  - destruct (lit_match ci p s) as [rest|] eqn:L; [|discriminate].
    destruct (lit_match_split _ _ _ L) as (pre & -> & Len).
    now exists pre, rest, cap.
  - destruct s as [|c s]; [discriminate|].
    destruct (existsb _ l); [|discriminate].
    now exists [c], s, cap.
  - destruct (star_greedy_sound _ _ _ _ E) as (pre & rest & -> & F & K).
    now exists pre, rest, cap.
  - destruct (star_lazy_sound _ _ _ _ E) as (pre & rest & -> & F & K).
    now exists pre, rest, cap.
  - destruct s as [|c s]; [discriminate|].
    destruct (in_class ci cl c) eqn:C; [|discriminate].
    destruct (star_greedy_sound _ _ _ _ E) as (pre & rest & -> & F & K).
    exists (c :: pre), rest, cap. simpl.
    repeat split; [discriminate|now constructor|exact K].
  - destruct (IH _ _ _ _ E) as (pre & rest & c0 & -> & Co & K).
    rewrite length_app, Nat.add_sub, take_app_length in K.
    exists pre, rest, (Some pre). simpl. eauto.
  - destruct (IH1 _ _ _ _ E) as (p1 & rest1 & mid & -> & C1 & K1).
    destruct (IH2 _ _ _ _ K1) as (p2 & rest & cap' & -> & C2 & K).
    exists (p1 ++ p2), rest, cap'. rewrite <- app_assoc. simpl.
    repeat split; [|exact K]. now exists p1, p2, mid.
Qed.
End MatcherSound.

Lemma str_match_found ci r s m :
  str_match ci r s = Some m ->
  exists pre cap',
    consumed ci r pre None cap' /\ m = default [] cap'.
Proof.
  induction s as [|c s IH]; simpl.
  - destruct (match_here ci r []) as [[cap rest]|] eqn:M; [|discriminate].
    intros E. inversion E; subst.
    destruct (rmatch_sound ci r _ _ _ _ M) as (pre & rest' & cap' & _ & C & K).
    inversion K; subst. now exists pre, cap.
  - destruct (match_here ci r (c :: s)) as [[cap rest]|] eqn:M; [|exact IH].
    intros E. inversion E; subst.
    destruct (rmatch_sound ci r _ _ _ _ M) as (pre & rest' & cap' & _ & C & K).
    inversion K; subst. now exists pre, cap.
Qed.

Section AtomLink.
Import RssFeed.

Lemma not_a_quote c :
  in_class true (NoneOf quotes) c = true -> c <> 34%N /\ c <> 39%N.
Proof.
  intros I. split; intros ->; vm_compute in I; discriminate.
Qed.

Lemma alt_capture pre cap' :
  consumed true altLinkRegex pre None cap' ->
  exists m, cap' = Some m /\ m <> []
            /\ Forall (fun c => in_class true (NoneOf quotes) c = true) m.
Proof.
  unfold altLinkRegex. simpl.
  intros (p1 & q1 & c1 & _ & _ & p2 & q2 & c2 & _ & _ & p3 & q3 & c3 & _ & _
          & p4 & q4 & c4 & _ & _ & p5 & q5 & c5 & _ & _ & p6 & q6 & c6 & _ & _
          & p7 & q7 & c7 & _ & _ & p8 & q8 & c8 & _ & _ & p9 & q9 & c9 & _ & _
          & p10 & q10 & c10 & _ & (-> & c0 & _ & Ne & F) & -> & _).
  now exists p10.
Qed.

Lemma href_capture pre cap' :
  consumed true hrefLinkRegex pre None cap' ->
  exists m, cap' = Some m /\ m <> []
            /\ Forall (fun c => in_class true (NoneOf quotes) c = true) m.
Proof.
  unfold hrefLinkRegex. simpl.
  intros (p1 & q1 & c1 & _ & _ & p2 & q2 & c2 & _ & _ & p3 & q3 & c3 & _ & _
          & p4 & q4 & c4 & _ & _ & p5 & q5 & c5 & _
          & (-> & c0 & _ & Ne & F) & -> & _).
  now exists p5.
Qed.

(** X25: the link [extractAtomLink] returns never holds a quote
    character, of either kind. *)
Theorem atom_link_has_no_quote (xml : str) :
  free_of 34 (extractAtomLink xml) /\ free_of 39 (extractAtomLink xml).
Proof.
  assert (Q : forall m,
             Forall (fun c => in_class true (NoneOf quotes) c = true) m ->
             free_of 34 m /\ free_of 39 m).
  { intros m F. split; (eapply Forall_impl; [exact F|]);
      intros c I; now apply not_a_quote in I. }
  unfold extractAtomLink.
  destruct (str_match true altLinkRegex xml) as [m|] eqn:A.
  - destruct (str_match_found _ _ _ _ A) as (pre & cap' & C & ->).
    destruct (alt_capture _ _ C) as (k & -> & _ & F). now apply Q.
  - destruct (str_match true hrefLinkRegex xml) as [m|] eqn:B.
    + destruct (str_match_found _ _ _ _ B) as (pre & cap' & C & ->).
      destruct (href_capture _ _ C) as (k & -> & _ & F). now apply Q.
    + split; constructor.
Qed.
End AtomLink.
